(** * asset-classification-crew: the deterministic enrichment fallback,
      the progress tracker and the job runner

    A shallow embedding of

    - [src/csv_enricher/utils/progress_tracker.py]   (module [Tracker]),
    - [src/csv_enricher/agents/csv_enrichment_crew.py] (modules [Fallback]
      and [AgentsCrew]),
    - [src/csv_enricher/backend/main.py]              (module [Backend]),
    - [src/csv_enricher/data/csv_enrichment_crew.py]  (module [DataCrew]),

    followed by the properties of the specification that are stated about
    them.

    Conventions of the embedding.
    - A pandas [DataFrame] read from a CSV file is a list of column names
      and a list of rows; a row maps a column name to its value and a
      missing key is the missing value (NaN).  Reading a column that the
      frame does not have raises [KeyError], as pandas does.
    - Python exceptions are values of [exn]; code that can raise runs in a
      state-and-exception monad in which the state reached at the raise
      survives the [except] clause, as mutation in place does.
    - Python floats that hold progress and time are rationals ([Q]); the
      literals of the source (0.05, 0.1, ...) are exact there.
    - Python [str] is [string]: a text whose code points are all below
      256, one character for each.  On these the classes of [re] and
      [str.strip] are the ones written out below; text with other
      characters is outside the embedding.
    - A file is known by its path as the code writes it: two spellings
      of one path would be two files here.  The ids the code makes itself
      ([uuid4] text) give paths that have one spelling.
    - [print] is not modelled. *)

From Stdlib Require Import Ascii String QArith Qminmax.
From stdpp Require Import gmap strings list sorting pretty.

Local Open Scope string_scope.

(** ** Python exceptions and the state-and-exception monad *)

Inductive exn :=
| KeyError (key : string)
| FileNotFoundError (path : string)
| OSError (msg : string)
| JSONDecodeError
| Exception (msg : string).

(** [str(e)]: [KeyError] shows the [repr] of its key. *)
Definition str (e : exn) : string :=
  match e with
  | KeyError k => "'" ++ k ++ "'"
  | FileNotFoundError p => "[Errno 2] No such file or directory: '" ++ p ++ "'"
  | OSError m => m
  | JSONDecodeError => "Expecting value"
  | Exception m => m
  end.

Inductive outcome (A : Type) :=
| Ok (a : A)
| Raise (e : exn).
Arguments Ok {A} a.
Arguments Raise {A} e.

Definition M (S A : Type) : Type := S → outcome A * S.

Definition ret {S A} (a : A) : M S A := λ s, (Ok a, s).

Definition bind {S A B} (m : M S A) (k : A → M S B) : M S B :=
  λ s, match m s with
       | (Ok a, s') => k a s'
       | (Raise e, s') => (Raise e, s')
       end.

Definition raise {S A} (e : exn) : M S A := λ s, (Raise e, s).

(** [try: m  except Exception as e: h e] *)
Definition try_except {S A} (m : M S A) (h : exn → M S A) : M S A :=
  λ s, match m s with
       | (Ok a, s') => (Ok a, s')
       | (Raise e, s') => h e s'
       end.

Definition get {S} : M S S := λ s, (Ok s, s).
Definition modify {S} (f : S → S) : M S unit := λ s, (Ok tt, f s).

Declare Scope py_scope.
Delimit Scope py_scope with py.
Notation "x <- m ;; k" := (bind m (λ x, k))
  (at level 100, m at next level, right associativity) : py_scope.
Notation "m ;; k" := (bind m (λ _, k))
  (at level 100, right associativity) : py_scope.
Local Open Scope py_scope.

(** [for x in xs: body x] *)
Fixpoint for_each {S A} (xs : list A) (body : A → M S unit) : M S unit :=
  match xs with
  | [] => ret tt
  | x :: xs' => body x ;; for_each xs' body
  end.

(** ** Tables *)

Inductive value :=
| VNum (z : Z)
| VStr (s : string).

#[global] Instance value_eq_dec : EqDecision value.
Proof. solve_decision. Defined.

(** A cell is [None] when the value is missing (NaN). *)
Definition isna (c : option value) : bool :=
  match c with None => true | Some _ => false end.

Record DataFrame := {
  columns : list string;
  rows : list (gmap string value)
}.

(** The cell of row [i] in column [c], NaN when the row has no value
    there; no column check. *)
Definition cell (d : DataFrame) (i : nat) (c : string) : option value :=
  rows d !! i ≫= (.!! c).

(** The order in which pandas sorts group keys: numbers by value, text
    in lexicographic order, numbers before text. *)
Definition value_leb (x y : value) : bool :=
  match x, y with
  | VNum a, VNum b => (a <=? b)%Z
  | VNum _, VStr _ => true
  | VStr _, VNum _ => false
  | VStr a, VStr b => String.leb a b
  end.

Definition value_le (x y : value) : Prop := value_leb x y = true.

#[global] Instance value_le_dec x y : Decision (value_le x y).
Proof. unfold value_le. apply _. Defined.

(** ** Text: [str.strip] and the two regular expressions of the fallback *)

(** White space as [str.strip] and the class [\s] have it, among the
    code points below 256: tab to carriage return, the four separators
    before the space, the space, next line (133) and the no-break space
    (160). *)
Definition is_space (c : ascii) : bool :=
  let n := Ascii.N_of_ascii c in
  ((9 <=? n) && (n <=? 13) || (28 <=? n) && (n <=? 32)
   || (n =? 133) || (n =? 160))%N.

(** The class [\d]: among the code points below 256 the decimal digits
    are 0 to 9. *)
Definition is_digit (c : ascii) : bool :=
  let n := Ascii.N_of_ascii c in ((48 <=? n) && (n <=? 57))%N.

(** The class [[^,\n]]. *)
Definition not_comma_newline (c : ascii) : bool :=
  negb (Ascii.eqb c ","%char || Ascii.eqb c "010"%char).

Fixpoint take_while (p : ascii → bool) (s : string) : string :=
  match s with
  | String c s' => if p c then String c (take_while p s') else ""
  | EmptyString => ""
  end.

Fixpoint lstrip (s : string) : string :=
  match s with
  | String c s' => if is_space c then lstrip s' else s
  | EmptyString => ""
  end.

Fixpoint rstrip (s : string) : string :=
  match s with
  | String c s' =>
      match rstrip s' with
      | EmptyString => if is_space c then "" else String c ""
      | r => String c r
      end
  | EmptyString => ""
  end.

(** [s.strip()] *)
Definition strip (s : string) : string := rstrip (lstrip s).

Fixpoint strip_prefix (lit s : string) : option string :=
  match lit, s with
  | EmptyString, _ => Some s
  | String a lit', String b s' =>
      if Ascii.eqb a b then strip_prefix lit' s' else None
  | String _ _, EmptyString => None
  end.

(** One or more characters of the class [p], as many as there are. *)
Definition group_run (p : ascii → bool) (s : string) : option string :=
  match take_while p s with
  | EmptyString => None
  | g => Some g
  end.

(** [\s*(p+)] matched at the start of [s]: the white space is taken
    greedily and given back one character at a time when the group
    cannot start after it. *)
Fixpoint ws_then_group (p : ascii → bool) (s : string) : option string :=
  match s with
  | String c s' =>
      if is_space c then
        match ws_then_group p s' with
        | Some g => Some g
        | None => group_run p s
        end
      else group_run p s
  | EmptyString => None
  end.

(** [re.search(lit + r'\s*(p+)', s)]: group 1 of the leftmost match. *)
Fixpoint re_search (lit : string) (p : ascii → bool) (s : string)
  : option string :=
  match strip_prefix lit s ≫= ws_then_group p with
  | Some g => Some g
  | None =>
      match s with
      | String _ s' => re_search lit p s'
      | EmptyString => None
      end
  end.

(** [re.search(r'Category ID:\s*(\d+)', s)] *)
Definition re_search_category_id : string → option string :=
  re_search "Category ID:" is_digit.

(** [re.search(r'Category Label:\s*([^,\n]+)', s)] *)
Definition re_search_category_label : string → option string :=
  re_search "Category Label:" not_comma_newline.

(** ** The two passes of the deterministic fallback
    ([_apply_enrichments_fallback], lines 260-325) *)

Module Fallback.

(** The local variables of [_apply_enrichments_fallback]. *)
Record FState := {
  df : DataFrame;
  enrichment_count : nat;
  rows_processed : nat
}.

Definition incr_enrichment (s : FState) : FState :=
  {| df := df s; enrichment_count := S (enrichment_count s);
     rows_processed := rows_processed s |}.

Definition incr_rows (s : FState) : FState :=
  {| df := df s; enrichment_count := enrichment_count s;
     rows_processed := S (rows_processed s) |}.

Definition set_cell (c : string) (v : option value) (r : gmap string value)
  : gmap string value :=
  partial_alter (λ _, v) c r.

(** [frame[c]] / [row[c]]: the column must exist. *)
Definition require_column {S} (cols : list string) (c : string) : M S unit :=
  if bool_decide (c ∈ cols) then ret tt else raise (KeyError c).

(** [row[c]] for a row [r] taken from a frame with columns [cols]. *)
Definition series_get {S} (cols : list string) (r : gmap string value)
    (c : string) : M S (option value) :=
  require_column cols c ;; ret (r !! c).

(** [df.at[idx, c]] *)
Definition at_get (idx : nat) (c : string) : M FState (option value) :=
  s <- get ;;
  require_column (columns (df s)) c ;;
  match rows (df s) !! idx with
  | Some r => ret (r !! c)
  | None => raise (KeyError "index")
  end.

(** [df.at[idx, c] = v] on the frame; assigning to a column the frame
    does not have adds the column.  The row labels used by the fallback
    always exist. *)
Definition set_at (idx : nat) (c : string) (v : option value)
    (d : DataFrame) : DataFrame :=
  {| columns := if bool_decide (c ∈ columns d)
                then columns d else columns d ++ [c];
     rows := alter (set_cell c v) idx (rows d) |}.

Definition at_set (idx : nat) (c : string) (v : option value)
  : M FState unit :=
  modify (λ s,
    {| df := set_at idx c v (df s);
       enrichment_count := enrichment_count s;
       rows_processed := rows_processed s |}).

(** The keys of [df.groupby('Cluster ID')], in iteration order: rows
    whose key is missing belong to no group. *)
Definition group_keys (d : DataFrame) : list value :=
  merge_sort value_le (remove_dups (omap (.!! "Cluster ID") (rows d))).

(** [group.index]: the rows of the group, in row order. *)
Definition group_index (d : DataFrame) (k : value) : list nat :=
  filter (λ i, cell d i "Cluster ID" = Some k) (seq 0 (length (rows d))).

(** Lines 284-294, for one column. *)
Definition fill_missing (idx : nat) (c : string) (v : option value)
  : M FState unit :=
  cur <- at_get idx c ;;
  if isna cur then at_set idx c v ;; modify incr_enrichment else ret tt.

(** Lines 266-294: the body of the loop over the groups.  [snap] is the
    frame the groups were cut from. *)
Definition propagate_group (snap : DataFrame) (k : value) : M FState unit :=
  let group := group_index snap k in
  if (length group <=? 1)%nat then ret tt
  else
    require_column (columns snap) "Category Label" ;;
    let category_rows :=
      filter (λ i, isna (cell snap i "Category Label") = false) group in
    match category_rows with
    | [] => ret tt
    | i0 :: _ =>
        let category_row := default ∅ (rows snap !! i0) in
        category_id <- series_get (columns snap) category_row "Category ID" ;;
        category_label <-
          series_get (columns snap) category_row "Category Label" ;;
        for_each group (λ idx,
          modify incr_rows ;;
          fill_missing idx "Category ID" category_id ;;
          fill_missing idx "Category Label" category_label)
    end.

(** Lines 254-258: the frame as read, the counters at zero. *)
Definition init (d : DataFrame) : FState :=
  {| df := d; enrichment_count := 0; rows_processed := 0 |}.

(** Lines 261-294: group propagation. *)
Definition group_propagation : M FState unit :=
  s <- get ;;
  let snap := df s in
  require_column (columns snap) "Cluster ID" ;;
  for_each (group_keys snap) (propagate_group snap).

Section residual.
(** [self.csv_search_tool(search_query=...)]: the vector search over
    the reference table, an external service. *)
Variable csv_search_tool : option value → outcome string.

Definition call_search_tool {S} (q : option value) : M S string :=
  λ s, (csv_search_tool q, s).

(** Line 298: does the row miss a category value? *)
Definition needs_lookup (cols : list string) (row : gmap string value)
  : M FState bool :=
  cid <- series_get cols row "Category ID" ;;
  if isna cid then ret true
  else cl <- series_get cols row "Category Label" ;; ret (isna cl).

(** Lines 311-315 and 317-321, for one column: [m] is the match. *)
Definition fill_from_search (cols : list string) (idx : nat)
    (row : gmap string value) (c : string) (m : option string)
  : M FState unit :=
  match m with
  | Some g =>
      cur <- series_get cols row c ;;
      if isna cur then
        at_set idx c (Some (VStr (strip g))) ;; modify incr_enrichment
      else ret tt
  | None => ret tt
  end.

(** Lines 303-321: the body of the inner [try]. *)
Definition search_and_fill (cols : list string) (idx : nat)
    (row : gmap string value) (product_title : option value)
  : M FState unit :=
  search_result <- call_search_tool product_title ;;
  let category_id_match := re_search_category_id search_result in
  let category_label_match := re_search_category_label search_result in
  fill_from_search cols idx row "Category ID" category_id_match ;;
  fill_from_search cols idx row "Category Label" category_label_match.

(** Lines 298-323: the body of the loop over [df.iterrows()]. *)
Definition residual_row (cols : list string) (idx : nat)
    (row : gmap string value) : M FState unit :=
  missing <- needs_lookup cols row ;;
  if missing : bool then
    modify incr_rows ;;
    product_title <- series_get cols row "Product Title" ;;
    try_except (search_and_fill cols idx row product_title) (λ _, ret tt)
  else ret tt.

(** The rows of [df.iterrows()] from row [idx] on. *)
Fixpoint residual_loop (cols : list string) (idx : nat)
    (rs : list (gmap string value)) : M FState unit :=
  match rs with
  | [] => ret tt
  | row :: rs' =>
      residual_row cols idx row ;; residual_loop cols (S idx) rs'
  end.

(** Lines 296-323: residual lookup.  [iterrows] yields the rows of the
    frame as it is when the loop starts. *)
Definition residual_lookup : M FState unit :=
  s <- get ;;
  residual_loop (columns (df s)) 0 (rows (df s)).

(** Lines 260-330: the [try] block and its handler. *)
Definition fallback_passes : M FState unit :=
  try_except (group_propagation ;; residual_lookup) (λ _, ret tt).

(** Lines 256-330 on the frame read from the input. *)
Definition enrich (d : DataFrame) : FState :=
  snd (fallback_passes (init d)).

(** The exception the handler of line 327 caught, if it ran. *)
Definition passes_raised (d : DataFrame) : option exn :=
  match (group_propagation ;; residual_lookup) (init d) with
  | (Raise e, _) => Some e
  | (Ok _, _) => None
  end.
End residual.

End Fallback.

(** ** The world the job runner acts on *)

(** JSON values, as far as the tracker and the task registry use them. *)
Inductive json :=
| JNull
| JStr (s : string)
| JNum (q : Q)
| JStrList (l : list string).

#[global] Instance Q_eq_dec : EqDecision Q.
Proof. solve_decision. Defined.

#[global] Instance json_eq_dec : EqDecision json.
Proof. solve_decision. Defined.

(** What [json.dump] hands to the file, piece by piece. *)
Inductive chunk :=
| COpen
| CField (key : string) (v : json)
| CClose.

(** A [ProgressTracker] object. *)
Record ProgressTracker := {
  task_id : string;
  start_time : Q;
  status : string;
  progress : Q;
  message : string;
  result : option string;
  error : option string
}.

(** A failure of the file system during the next write: at [open], or
    after that many chunks have reached the file. *)
Inductive fault :=
| FailOpen
| FailAfter (n : nat).

(** What an observer of the run can see, oldest first: every change of a
    progress file, the start of the agents, the entry into the fallback,
    and every sleep. *)
Inductive event :=
| EvWrite (path : string) (content : list chunk)
| EvKickoff
| EvFallback
| EvSleep (seconds : Q).

Record World := {
  progress_files : gmap string (list chunk);  (* data/progress/*.json *)
  csv_files : gmap string DataFrame;          (* the CSV files, by path *)
  objects : list ProgressTracker;             (* the tracker objects *)
  active_tasks : gmap string (gmap string json);
  clock : Q;                                  (* time.time() *)
  pending_fault : option fault;
  trace : list event
}.

Definition set_progress_files f (w : World) : World :=
  {| progress_files := f (progress_files w); csv_files := csv_files w;
     objects := objects w; active_tasks := active_tasks w; clock := clock w;
     pending_fault := pending_fault w; trace := trace w |}.
Definition set_csv_files f (w : World) : World :=
  {| progress_files := progress_files w; csv_files := f (csv_files w);
     objects := objects w; active_tasks := active_tasks w; clock := clock w;
     pending_fault := pending_fault w; trace := trace w |}.
Definition set_objects f (w : World) : World :=
  {| progress_files := progress_files w; csv_files := csv_files w;
     objects := f (objects w); active_tasks := active_tasks w;
     clock := clock w; pending_fault := pending_fault w; trace := trace w |}.
Definition set_active_tasks f (w : World) : World :=
  {| progress_files := progress_files w; csv_files := csv_files w;
     objects := objects w; active_tasks := f (active_tasks w);
     clock := clock w; pending_fault := pending_fault w; trace := trace w |}.
Definition set_clock f (w : World) : World :=
  {| progress_files := progress_files w; csv_files := csv_files w;
     objects := objects w; active_tasks := active_tasks w;
     clock := f (clock w); pending_fault := pending_fault w;
     trace := trace w |}.
Definition set_pending_fault f (w : World) : World :=
  {| progress_files := progress_files w; csv_files := csv_files w;
     objects := objects w; active_tasks := active_tasks w; clock := clock w;
     pending_fault := f (pending_fault w); trace := trace w |}.
Definition log (e : event) (w : World) : World :=
  {| progress_files := progress_files w; csv_files := csv_files w;
     objects := objects w; active_tasks := active_tasks w; clock := clock w;
     pending_fault := pending_fault w; trace := trace w ++ [e] |}.

(** ** [utils/progress_tracker.py] *)

Module Tracker.

(** [json.dump(state, f)]: the chunks written, in order. *)
Definition json_dump (state : gmap string json) : list chunk :=
  COpen :: map (λ kv, CField kv.1 kv.2) (map_to_list state) ++ [CClose].

(** The fields up to the closing brace; a repeated key keeps its last
    value. *)
Fixpoint load_fields (cs : list chunk) (acc : gmap string json)
  : option (gmap string json) :=
  match cs with
  | [CClose] => Some acc
  | CField k v :: cs' => load_fields cs' (<[k := v]> acc)
  | _ => None
  end.

(** [json.load(f)]: [None] when the content is not one whole record
    ([json.JSONDecodeError]). *)
Definition json_load (cs : list chunk) : option (gmap string json) :=
  match cs with
  | COpen :: cs' => load_fields cs' ∅
  | _ => None
  end.

Definition json_of_option (o : option string) : json :=
  match o with Some s => JStr s | None => JNull end.

(** [open(path, "w")] then [json.dump(state, f)]. *)
Definition write_json (path : string) (state : gmap string json)
  : M World unit :=
  λ w,
    match pending_fault w with
    | None =>
        (Ok tt,
         log (EvWrite path (json_dump state))
           (set_progress_files (<[path := json_dump state]>) w))
    | Some FailOpen =>
        (Raise (OSError "open failed"), set_pending_fault (λ _, None) w)
    | Some (FailAfter n) =>
        let written := take n (json_dump state) in
        (Raise (OSError "write failed"),
         log (EvWrite path written)
           (set_progress_files (<[path := written]>)
              (set_pending_fault (λ _, None) w)))
    end.

(** [time.time()] *)
Definition time : M World Q := λ w, (Ok (clock w), w).

(** The object behind a reference. *)
Definition deref (self : nat) : M World ProgressTracker :=
  λ w, match objects w !! self with
       | Some t => (Ok t, w)
       | None => (Raise (Exception "no such object"), w)
       end.

Definition assign (self : nat) (f : ProgressTracker → ProgressTracker)
  : M World unit :=
  modify (set_objects (alter f self)).

(** [os.path.join(a, b)] for a directory [a] that is not empty and does
    not end in a slash: a [b] that starts with a slash stands alone. *)
Definition path_join (a b : string) : string :=
  if String.prefix "/" b then b else a ++ "/" ++ b.

(** [os.path.join("data/progress", f"{task_id}.json")], lines 91 and
    107. *)
Definition file_path_of (task_id : string) : string :=
  path_join "data/progress" (task_id ++ ".json").

(** The dictionary [get_state] builds, lines 78-86. *)
Definition state_dict (t : ProgressTracker) (elapsed_time : Q)
  : gmap string json :=
  <["task_id" := JStr (task_id t)]>
  (<["status" := JStr (status t)]>
  (<["progress" := JNum (progress t)]>
  (<["message" := JStr (message t)]>
  (<["elapsed_time" := JNum elapsed_time]>
  (<["result" := json_of_option (result t)]>
  (<["error" := json_of_option (error t)]> ∅)))))).

(** [get_state], lines 69-86. *)
Definition get_state (self : nat) : M World (gmap string json) :=
  now <- time ;;
  t <- deref self ;;
  let elapsed_time := (now - start_time t)%Q in
  ret (state_dict t elapsed_time).

(** [_save_state], lines 88-94. *)
Definition _save_state (self : nat) : M World unit :=
  state <- get_state self ;;
  t <- deref self ;;
  write_json (file_path_of (task_id t)) state.

(** [ProgressTracker(task_id)], lines 9-28; the new object's reference. *)
Definition __init__ (task_id : string) : M World nat :=
  now <- time ;;
  w <- get ;;
  let self := length (objects w) in
  modify (set_objects (λ os, (os ++ [
    {| task_id := task_id; start_time := now; status := "initializing";
       progress := 0; message := "Starting task..."; result := None;
       error := None |}])%list)) ;;
  _save_state self ;;
  ret self.

(** Python's [max(a, b)] and [min(a, b)] on two arguments: the first
    argument wins ties. *)
Definition py_max (a b : Q) : Q := if Qle_bool b a then a else b.
Definition py_min (a b : Q) : Q := if Qle_bool a b then a else b.

(** [update], lines 30-42. *)
Definition update (self : nat) (progress : Q) (message : string)
    (status : string) : M World unit :=
  assign self (λ t,
    {| task_id := task_id t; start_time := start_time t; status := status;
       progress := py_min (py_max progress 0) 1; message := message;
       result := result t; error := error t |}) ;;
  _save_state self.

(** [complete], lines 44-55. *)
Definition complete (self : nat) (result : option string) : M World unit :=
  assign self (λ t,
    {| task_id := task_id t; start_time := start_time t;
       status := "completed"; progress := 1;
       message := "Task completed successfully";
       result := result; error := error t |}) ;;
  _save_state self.

(** [fail], lines 57-67. *)
Definition fail (self : nat) (error : string) : M World unit :=
  assign self (λ t,
    {| task_id := task_id t; start_time := start_time t;
       status := "failed"; progress := progress t;
       message := "Task failed: " ++ error;
       result := result t; error := Some error |}) ;;
  _save_state self.

(** [get_task_state], lines 96-113: [None] when there is no file. *)
Definition get_task_state (task_id : string)
  : M World (option (gmap string json)) :=
  w <- get ;;
  match progress_files w !! file_path_of task_id with
  | None => ret None
  | Some content =>
      match json_load content with
      | Some state => ret (Some state)
      | None => raise JSONDecodeError
      end
  end.

End Tracker.

(** ** What lies outside the repository *)

(** The collaborators of one job: the agents, the search tool and the
    random and installation-dependent strings. *)
Record Env := {
  (** [uuid.uuid4().hex], drawn by the crew's constructor *)
  uuid_hex : string;
  (** the directory above [backend/] *)
  app_root : string;
  (** [CSVSearchTool(...)] and the three agents: the constructor call
      raises, or yields the tool *)
  make_tools : outcome (option value → outcome string);
  (** [crew.kickoff()]: the agents may write CSV files; the call returns
      the crew's text or raises *)
  kickoff : gmap string DataFrame → outcome string * gmap string DataFrame
}.

(** [os.path.basename] *)
Fixpoint basename_aux (s acc : string) : string :=
  match s with
  | EmptyString => acc
  | String c s' =>
      if Ascii.eqb c "/"%char then basename_aux s' ""
      else basename_aux s' (acc ++ String c "")
  end.
Definition basename (s : string) : string := basename_aux s "".

(** ** [agents/csv_enrichment_crew.py] *)

Module AgentsCrew.

Record CSVEnrichmentCrew := {
  source_csv_path : string;
  input_csv_path : string;
  category_columns : list string;
  progress_tracker : option nat;
  output_csv_path : string;
  csv_search_tool : option value → outcome string
}.

(** [CSVEnrichmentCrew(...)], lines 23-72. *)
Definition __init__ (env : Env) (source_csv_path input_csv_path : string)
    (category_columns : list string) (progress_tracker : option nat)
  : M World CSVEnrichmentCrew :=
  let output_csv_path :=
    "data/" ++ "enriched_" ++ uuid_hex env ++ "_"
      ++ basename input_csv_path in
  match make_tools env with
  | Raise e => raise e
  | Ok tool =>
      ret {| source_csv_path := source_csv_path;
             input_csv_path := input_csv_path;
             category_columns := category_columns;
             progress_tracker := progress_tracker;
             output_csv_path := output_csv_path;
             csv_search_tool := tool |}
  end.

(** [_update_progress], lines 74-77. *)
Definition _update_progress (self : CSVEnrichmentCrew) (progress : Q)
    (message : string) : M World unit :=
  match progress_tracker self with
  | Some tracker => Tracker.update tracker progress message "processing"
  | None => ret tt
  end.

(** [pd.read_csv(path)] *)
Definition read_csv (path : string) : M World DataFrame :=
  w <- get ;;
  match csv_files w !! path with
  | Some d => ret d
  | None => raise (FileNotFoundError path)
  end.

(** [df.to_csv(path, index=False)] *)
Definition to_csv (d : DataFrame) (path : string) : M World unit :=
  modify (set_csv_files (<[path := d]>)).

(** [os.path.exists(path)], for the CSV files. *)
Definition path_exists (path : string) : M World bool :=
  w <- get ;; ret (bool_decide (is_Some (csv_files w !! path))).

(** [_apply_enrichments_fallback], lines 244-334. *)
Definition _apply_enrichments_fallback (self : CSVEnrichmentCrew)
    (crew_result : string) : M World unit :=
  modify (log EvFallback) ;;
  d <- read_csv (input_csv_path self) ;;
  let s := Fallback.enrich (csv_search_tool self) d in
  to_csv (Fallback.df s) (output_csv_path self).

(** [crew.kickoff()] *)
Definition crew_kickoff (env : Env) : M World string :=
  modify (log EvKickoff) ;;
  λ w, let '(r, files) := kickoff env (csv_files w) in
       (r, set_csv_files (λ _, files) w).

(** [run], lines 79-242.  Building the tasks and the crew object only
    formats text. *)
Definition run (env : Env) (self : CSVEnrichmentCrew) : M World string :=
  _update_progress self (1 # 10) "Initializing CSV enrichment crew" ;;
  _update_progress self (2 # 10) "Creating tasks" ;;
  _update_progress self (4 # 10) "Creating crew" ;;
  _update_progress self (5 # 10) "Running crew" ;;
  crew_result <- crew_kickoff env ;;
  _update_progress self (9 # 10) "Finalizing results" ;;
  created <- path_exists (output_csv_path self) ;;
  (if created : bool then ret tt
   else _apply_enrichments_fallback self crew_result) ;;
  _update_progress self 1 "CSV enrichment complete" ;;
  ret (output_csv_path self).

End AgentsCrew.

(** ** [utils/file_handler.py] *)

(** [s.endswith(suffix)] *)
Fixpoint endswith (s suffix : string) : bool :=
  if String.eqb s suffix then true
  else match s with
       | String _ s' => endswith s' suffix
       | EmptyString => false
       end.

(** [s.split(sep)] for a separator of one character: the pieces between
    the separators, empty pieces included. *)
Fixpoint split (sep : ascii) (s : string) : list string :=
  match s with
  | EmptyString => [""]
  | String c s' =>
      if Ascii.eqb c sep then "" :: split sep s'
      else match split sep s' with
           | piece :: pieces => String c piece :: pieces
           | [] => [String c ""]
           end
  end.

(** An uploaded file is given by the table [pd.read_csv] reads from it,
    as every CSV file of the world is. *)
Module FileHandler.

(** [save_uploaded_file], lines 10-32; [hex] is [uuid.uuid4().hex]. *)
Definition save_uploaded_file (hex : string) (file_content : DataFrame)
    (filename : string) : M World string :=
  let unique_filename := hex ++ "_" ++ filename in
  let file_path := "data/" ++ unique_filename in
  modify (set_csv_files (<[file_path := file_content]>)) ;;
  ret file_path.

(** [read_csv], lines 35-45. *)
Definition read_csv (file_path : string) : M World DataFrame :=
  AgentsCrew.read_csv file_path.

(** [save_csv], lines 48-60. *)
Definition save_csv (d : DataFrame) (file_path : string) : M World string :=
  AgentsCrew.to_csv d file_path ;; ret file_path.

(** [df[cols]]: every label must be a column of the frame (pandas words
    its [KeyError] in its own way; here it names the first label that is
    missing). *)
Definition require_columns {S} (cols : list string) (cs : list string)
  : M S unit :=
  for_each cs (Fallback.require_column cols).

(** [df[category_columns].isnull().any(axis=1)], for row [i]. *)
Definition any_missing (d : DataFrame) (category_columns : list string)
    (i : nat) : bool :=
  existsb (λ c, isna (cell d i c)) category_columns.

(** [df[mask]]: the rows the mask keeps, in order.  The labels the rows
    keep are the second component of the result of
    [identify_missing_categories]. *)
Definition select_rows (d : DataFrame) (labels : list nat) : DataFrame :=
  {| columns := columns d; rows := omap (λ i, rows d !! i) labels |}.

(** [identify_missing_categories], lines 99-118. *)
Definition identify_missing_categories {S} (d : DataFrame)
    (category_columns : list string) : M S (DataFrame * list nat) :=
  require_columns (columns d) category_columns ;;
  let mask := any_missing d category_columns in
  let missing_indices :=
    filter (λ i, mask i = true) (seq 0 (length (rows d))) in
  ret (select_rows d missing_indices, missing_indices).

End FileHandler.

(** ** [backend/main.py] *)

Module Backend.

Inductive response :=
| HTTPException (status_code : nat) (detail : string)
| StateResponse (state : gmap string json)
| FileResponse (path media_type filename : string).

(** [d[k]] on a dict. *)
Definition getitem {S V} (d : gmap string V) (k : string) : M S V :=
  match d !! k with
  | Some v => ret v
  | None => raise (KeyError k)
  end.

(** [active_tasks[task_id][key] = v] *)
Definition set_task_field (task_id key : string) (v : json) : M World unit :=
  w <- get ;;
  info <- getitem (active_tasks w) task_id ;;
  modify (set_active_tasks (<[task_id := <[key := v]> info]>)).

(** [process_file], lines 163-206. *)
Definition process_file (env : Env) (task_id input_file : string)
    (category_columns : list string) : M World unit :=
  tracker <- Tracker.__init__ task_id ;;
  try_except
    (Tracker.update tracker (5 # 100) "Starting CSV enrichment process..."
       "processing" ;;
     let source_csv_path :=
       app_root env ++ "/data/pricerunner_aggregate.csv" in
     crew <- AgentsCrew.__init__ env source_csv_path input_file
               category_columns (Some tracker) ;;
     output_file <- AgentsCrew.run env crew ;;
     Tracker.complete tracker (Some output_file) ;;
     set_task_field task_id "status" (JStr "completed") ;;
     set_task_field task_id "output_file" (JStr output_file))
    (λ e,
     Tracker.fail tracker (str e) ;;
     set_task_field task_id "status" (JStr "failed") ;;
     set_task_field task_id "error" (JStr (str e))).

(** Python truthiness of a JSON value. *)
Definition truthy (v : json) : bool :=
  match v with
  | JNull => false
  | JStr s => negb (String.eqb s "")
  | JNum q => negb (Qeq_bool q 0)
  | JStrList l => negb (bool_decide (l = []))
  end.

(** [get_task_status], lines 102-123. *)
Definition get_task_status (task_id : string) : M World response :=
  w <- get ;;
  if bool_decide (task_id ∈ dom (active_tasks w)) then
    state <- Tracker.get_task_state task_id ;;
    match state with
    | Some st =>
        if bool_decide (st = ∅) then
          ret (HTTPException 404 "Task state not found")
        else ret (StateResponse st)
    | None => ret (HTTPException 404 "Task state not found")
    end
  else ret (HTTPException 404 "Task not found").

(** [download_file], lines 125-161. *)
Definition download_file (task_id : string) : M World response :=
  w <- get ;;
  if bool_decide (task_id ∈ dom (active_tasks w)) then
    state <- Tracker.get_task_state task_id ;;
    match state with
    | Some st =>
        if bool_decide (st = ∅) then
          ret (HTTPException 404 "Task state not found")
        else
          status <- getitem st "status" ;;
          if bool_decide (status ≠ JStr "completed") then
            ret (HTTPException 400 "Task is not completed yet")
          else
            output_file <- getitem st "result" ;;
            match output_file with
            | JStr path =>
                exists_ <- AgentsCrew.path_exists path ;;
                if negb (truthy output_file) || negb exists_ then
                  ret (HTTPException 404 "Output file not found")
                else ret (FileResponse path "text/csv" (basename path))
            | _ => ret (HTTPException 404 "Output file not found")
            end
    | None => ret (HTTPException 404 "Task state not found")
    end
  else ret (HTTPException 404 "Task not found").

(** A call handed to [background_tasks.add_task]: [process_file] with
    its three arguments. *)
Record job := {
  job_task_id : string;
  job_input_file : string;
  job_category_columns : list string
}.

(** Python truthiness of [Optional[str]]. *)
Definition truthy_str (o : option string) : bool :=
  match o with
  | Some s => negb (String.eqb s "")
  | None => false
  end.

(** [df.columns[-2:].tolist()] *)
Definition last_two (cols : list string) : list string :=
  drop (length cols - 2) cols.

(** [upload_file], lines 41-100.  [file_hex] and [task_uuid] are what the
    two calls of [uuid.uuid4()] give; [background_tasks] says whether a
    [BackgroundTasks] object was passed.  The result is the response and
    the calls added to the background tasks, which the server runs after
    it has sent the response. *)
Definition upload_file (file_hex task_uuid : string) (filename : string)
    (file_content : DataFrame) (background_tasks : bool)
    (category_columns : option string) : M World (response * list job) :=
  if negb (endswith filename ".csv") then
    ret (HTTPException 400 "Only CSV files are supported", [])
  else
    file_path <- FileHandler.save_uploaded_file file_hex file_content
                   filename ;;
    let task_id := task_uuid in
    cat_cols <-
      (if truthy_str category_columns then
         ret (map strip (split ","%char (default "" category_columns)))
       else
         d <- FileHandler.read_csv file_path ;;
         ret (last_two (columns d))) ;;
    tracker <- Tracker.__init__ task_id ;;
    modify (set_active_tasks (<[task_id :=
      <["input_file" := JStr file_path]>
      (<["category_columns" := JStrList cat_cols]>
      (<["status" := JStr "initializing"]>
      (<["output_file" := JNull]> ∅)))]>)) ;;
    let added :=
      if background_tasks : bool then
        [{| job_task_id := task_id; job_input_file := file_path;
            job_category_columns := cat_cols |}]
      else [] in
    ret (StateResponse {[ "task_id" := JStr task_id ]}, added).

(** The server runs the background tasks in the order they were added. *)
Definition run_background (env : Env) (jobs : list job) : M World unit :=
  for_each jobs (λ j,
    process_file env (job_task_id j) (job_input_file j)
      (job_category_columns j)).

End Backend.

(** ** [data/csv_enrichment_crew.py]: the crew with the retry loop *)

(** [needle in hay] *)
Fixpoint contains (needle hay : string) : bool :=
  if String.prefix needle hay then true
  else match hay with
       | String _ hay' => contains needle hay'
       | EmptyString => false
       end.

(** [time.sleep(seconds)] *)
Definition sleep (seconds : Q) : M World unit :=
  modify (λ w, log (EvSleep seconds) (set_clock (λ t, (t + seconds)%Q) w)).

(** The pattern of [_apply_enrichments], line 206:
    [Row (\d+).*?Column Q(.*?)Q:?\s*Q(.*?)Q], where [Q] stands for the
    class of the two quote characters, read from its end to its start.  Each function matches a part of the
    pattern at the start of its argument, trying the alternatives in the
    order [re] tries them, and gives the groups matched and the text left
    after the match. *)

Definition is_quote (c : ascii) : bool :=
  Ascii.eqb c "'"%char || Ascii.eqb c "034"%char.

Definition is_newline (c : ascii) : bool := Ascii.eqb c "010"%char.

(** [(.*?)Q] at the end of the pattern: group 3. *)
Fixpoint value_until_quote (s : string) : option (string * string) :=
  match s with
  | EmptyString => None
  | String c s' =>
      if is_quote c then Some ("", s')
      else if is_newline c then None
      else match value_until_quote s' with
           | Some (g, rest) => Some (String c g, rest)
           | None => None
           end
  end.

(** [Q(.*?)Q] *)
Definition quoted_value (s : string) : option (string * string) :=
  match s with
  | String c s' => if is_quote c then value_until_quote s' else None
  | EmptyString => None
  end.

(** [\s*Q(.*?)Q]: the white space is taken greedily and given
    back one character at a time. *)
Fixpoint ws_quoted_value (s : string) : option (string * string) :=
  match s with
  | String c s' =>
      if is_space c then
        match ws_quoted_value s' with
        | Some r => Some r
        | None => quoted_value s
        end
      else quoted_value s
  | EmptyString => None
  end.

(** [:?\s*Q(.*?)Q]: with the colon first, then without. *)
Definition colon_ws_quoted_value (s : string) : option (string * string) :=
  match s with
  | String c s' =>
      if Ascii.eqb c ":"%char then
        match ws_quoted_value s' with
        | Some r => Some r
        | None => ws_quoted_value s
        end
      else ws_quoted_value s
  | EmptyString => None
  end.

(** [(.*?)Q:?\s*Q(.*?)Q]: group 2 is as short as the rest of
    the pattern allows. *)
Fixpoint column_until_quote (s : string)
  : option (string * (string * string)) :=
  match s with
  | EmptyString => None
  | String c s' =>
      match (if is_quote c then colon_ws_quoted_value s' else None) with
      | Some r => Some ("", r)
      | None =>
          if is_newline c then None
          else match column_until_quote s' with
               | Some (g, r) => Some (String c g, r)
               | None => None
               end
      end
  end.

(** [Column Q(.*?)Q:?\s*Q(.*?)Q] *)
Definition column_entry (s : string) : option (string * (string * string)) :=
  match strip_prefix "Column " s with
  | Some (String c s') => if is_quote c then column_until_quote s' else None
  | _ => None
  end.

(** [.*?Column ...]: as few characters as possible before [Column]. *)
Fixpoint skip_to_column (s : string) : option (string * (string * string)) :=
  match column_entry s with
  | Some r => Some r
  | None =>
      match s with
      | String c s' => if is_newline c then None else skip_to_column s'
      | EmptyString => None
      end
  end.

(** [(\d+).*?Column ...]: group 1 takes as many digits as it can and
    gives them back one at a time. *)
Fixpoint digits_then_column (s : string)
  : option (string * (string * (string * string))) :=
  match s with
  | String c s' =>
      if is_digit c then
        match digits_then_column s' with
        | Some (ds, r) => Some (String c ds, r)
        | None =>
            match skip_to_column s' with
            | Some r => Some (String c "", r)
            | None => None
            end
        end
      else None
  | EmptyString => None
  end.

(** [re.match(pattern, s)]: the three groups and the text after the
    match. *)
Definition match_row (s : string)
  : option (string * (string * (string * string))) :=
  strip_prefix "Row " s ≫= digits_then_column.

(** [re.findall(pattern, s)]: the matches from left to right, the search
    going on where the last match ended.  [skip] counts the characters of
    the last match still to pass. *)
Fixpoint findall_from (skip : nat) (s : string)
  : list (string * string * string) :=
  match s with
  | EmptyString => []
  | String _ s' =>
      match skip with
      | S skip' => findall_from skip' s'
      | O =>
          match match_row s with
          | Some (row, (column, (value, rest))) =>
              (row, column, value)
                :: findall_from (String.length s - String.length rest - 1) s'
          | None => findall_from 0 s'
          end
      end
  end.

Definition findall (s : string) : list (string * string * string) :=
  findall_from 0 s.

(** [int(s)] for a string of decimal digits. *)
Definition int_of_digits (s : string) : N :=
  fold_left (λ n c, (10 * n + (Ascii.N_of_ascii c - 48))%N)
    (list_ascii_of_string s) 0%N.

Module DataCrew.

Record CSVEnrichmentCrew := {
  source_csv_path : string;
  input_csv_path : string;
  category_columns : list string;
  progress_tracker : option nat;
  output_csv_path : string
}.

(** [_update_progress], lines 75-78. *)
Definition _update_progress (self : CSVEnrichmentCrew) (progress : Q)
    (message : string) : M World unit :=
  match progress_tracker self with
  | Some tracker => Tracker.update tracker progress message "processing"
  | None => ret tt
  end.

(** Lines 210-217: one match of the pattern.  With digits for the row
    and a row and a column that exist, neither [int] nor [df.at] raises,
    so the handler of line 216 is never entered.  The value is written
    as text, whatever the column held before: cells carry their own
    type here, as in a column of [object] dtype. *)
Definition apply_match (acc : DataFrame * nat)
    (m : string * string * string) : DataFrame * nat :=
  let '(d, enrichment_count) := acc in
  let '(row_idx_str, column, value) := m in
  let row_idx := int_of_digits row_idx_str in
  if (row_idx <? N.of_nat (length (rows d)))%N
     && bool_decide (column ∈ columns d)
  then (Fallback.set_at (N.to_nat row_idx) column (Some (VStr value)) d,
        S enrichment_count)
  else acc.

(** Lines 200-219: the table after all matches, and [enrichment_count]. *)
Definition applied (d : DataFrame) (crew_result : string)
  : DataFrame * nat :=
  foldl apply_match (d, 0%nat) (findall crew_result).

(** [_apply_enrichments], lines 187-225. *)
Definition _apply_enrichments (self : CSVEnrichmentCrew)
    (crew_result : string) : M World unit :=
  d <- AgentsCrew.read_csv (input_csv_path self) ;;
  AgentsCrew.to_csv (applied d crew_result).1 (output_csv_path self).

Definition max_retries : nat := 3.

Section run.
(** The [n]-th call of [crew.kickoff()], counted from 0: the text
    [result.raw], or an exception. *)
Variable kickoff : nat → outcome string.
(** [_apply_enrichments], lines 187-225: it parses the crew's text and
    writes the output file. *)
Variable _apply_enrichments : CSVEnrichmentCrew → string → M World unit.

Definition crew_kickoff (n : nat) : M World string :=
  modify (log EvKickoff) ;; λ w, (kickoff n, w).

(** Lines 162-170: the body of the [try]. *)
Definition attempt (self : CSVEnrichmentCrew) (n : nat) : M World string :=
  _update_progress self (7 # 10)
    "Running CrewAI agents to process data..." ;;
  raw <- crew_kickoff n ;;
  _update_progress self (9 # 10)
    "Applying enrichments to the CSV file..." ;;
  _apply_enrichments self raw ;;
  _update_progress self 1 "CSV enrichment completed successfully" ;;
  ret (output_csv_path self).

(** Lines 160-185: [while retry_count < max_retries].  Every turn of
    the loop returns, raises or adds one to [retry_count], so
    [max_retries] turns are all there can be ([fuel] counts them); a
    loop that ends on its condition makes [run] return [None]. *)
Fixpoint retry_loop (fuel : nat) (self : CSVEnrichmentCrew)
    (retry_count : nat) : M World (option string) :=
  match fuel with
  | O => ret None
  | S fuel' =>
      if negb (retry_count <? max_retries)%nat then ret None
      else
        try_except
          (path <- attempt self retry_count ;; ret (Some path))
          (λ e,
            let retry_count := S retry_count in
            let error_message := str e in
            if contains "overloaded_error" error_message
               && (retry_count <? max_retries)%nat
            then
              let wait_time := (5 * retry_count)%nat in
              _update_progress self (7 # 10)
                ("Anthropic API overloaded. Retrying in "
                 ++ pretty wait_time ++ " seconds... (Attempt "
                 ++ pretty retry_count ++ "/" ++ pretty max_retries
                 ++ ")") ;;
              sleep (inject_Z (Z.of_nat wait_time)) ;;
              retry_loop fuel' self retry_count
            else
              (if (max_retries <=? retry_count)%nat then
                 _update_progress self (7 # 10)
                   ("Failed after " ++ pretty max_retries
                    ++ " attempts. Last error: " ++ error_message)
               else
                 _update_progress self (7 # 10)
                   ("Error: " ++ error_message)) ;;
              raise e)
  end.

(** [run], lines 80-185. *)
Definition run (self : CSVEnrichmentCrew) : M World (option string) :=
  _update_progress self (1 # 10) "Analyzing input CSV file..." ;;
  _update_progress self (3 # 10)
    "Enriching data with missing categories..." ;;
  _update_progress self (6 # 10) "Verifying data quality..." ;;
  retry_loop max_retries self 0.
End run.

End DataCrew.

(** ** Vocabulary of the properties *)

(** The two columns the fallback fills. *)
Definition cat_col (c : string) : Prop :=
  c = "Category ID" ∨ c = "Category Label".

(** [d'] is [d] with some missing category cells filled: same columns,
    same number of rows, and every cell either kept or a category cell
    that was missing. *)
Definition fills_only (d d' : DataFrame) : Prop :=
  columns d' = columns d ∧ length (rows d') = length (rows d) ∧
  ∀ i c, cell d' i c = cell d i c ∨ (cell d i c = None ∧ cat_col c).

(** The same, with every change in row [idx]. *)
Definition fills_row (idx : nat) (d d' : DataFrame) : Prop :=
  fills_only d d' ∧ ∀ j c, j ≠ idx → cell d' j c = cell d j c.

(** Every category cell of the frame holds a value. *)
Definition fully_filled (d : DataFrame) : Prop :=
  ∀ i r, rows d !! i = Some r →
    r !! "Category ID" ≠ None ∧ r !! "Category Label" ≠ None.

(** The state the first pass leaves, started on the frame as read. *)
Definition after_propagation (d : DataFrame) : Fallback.FState :=
  snd (Fallback.group_propagation (Fallback.init d)).

(** The frame has the three columns the first pass works on. *)
Definition has_pass1_columns (d : DataFrame) : Prop :=
  "Cluster ID" ∈ columns d ∧ "Category ID" ∈ columns d ∧
  "Category Label" ∈ columns d.

(** The first row of group [k], in row order, that holds a Category
    Label. *)
Definition donor (d : DataFrame) (k : value) : option nat :=
  head (filter (λ i, isna (cell d i "Category Label") = false)
          (Fallback.group_index d k)).

(** The first non-missing value of column [c] in the rows [G], in
    order. *)
Definition first_value (d : DataFrame) (c : string) (G : list nat)
  : option value :=
  head (omap (λ i, cell d i c) G).

(** Fill the cell of column [c] when it is missing. *)
Definition fill_cell (c : string) (v : option value)
    (r : gmap string value) : gmap string value :=
  if isna (r !! c) then Fallback.set_cell c v r else r.

(** What the first pass makes of a row of group [k]. *)
Definition propagated_row (d : DataFrame) (k : value)
    (r : gmap string value) : gmap string value :=
  match donor d k with
  | Some i0 =>
      if (length (Fallback.group_index d k) <=? 1)%nat then r
      else fill_cell "Category Label" (cell d i0 "Category Label")
             (fill_cell "Category ID" (cell d i0 "Category ID") r)
  | None => r
  end.

(** The propagation property of the specification, for column [c]:
    in every group of more than one row with a value in column [c],
    the pass leaves no member without one and writes the group's first
    value; groups of one row are left as they are. *)
Definition propagation_claim (c : string) (d : DataFrame) : Prop :=
  ∀ k,
    let G := Fallback.group_index d k in
    let d' := Fallback.df (after_propagation d) in
    (1 < length G → (∃ i, i ∈ G ∧ cell d i c ≠ None) →
     ∀ i, i ∈ G →
       cell d' i c ≠ None ∧
       (cell d i c = None → cell d' i c = first_value d c G)) ∧
    (length G = 1 → ∀ i, i ∈ G → rows d' !! i = rows d !! i).

(** A row written as the CSV line gives it. *)
Definition mk_row (title cluster cid clabel : option value)
  : gmap string value :=
  Fallback.set_cell "Product Title" title
    (Fallback.set_cell "Cluster ID" cluster
       (Fallback.set_cell "Category ID" cid
          (Fallback.set_cell "Category Label" clabel ∅))).

Definition product_columns : list string :=
  ["Product Title"; "Cluster ID"; "Category ID"; "Category Label"].

(** Two rows of one cluster: the first holds a Category ID and no
    Category Label, the second holds neither. *)
Definition id_without_label : DataFrame :=
  {| columns := product_columns;
     rows := [mk_row (Some (VStr "phone a")) (Some (VNum 1))
                (Some (VNum 2612)) None;
              mk_row (Some (VStr "phone b")) (Some (VNum 1)) None None] |}.

(** The scenario of the specification: grouping keys A, A, B, B; the
    first row is labelled shoes, the last hats, the two in between have
    no label.  Every row has its Category ID. *)
Definition scenario_table (id1 id2 id3 id4 t1 t2 t3 t4 : value)
  : DataFrame :=
  {| columns := product_columns;
     rows := [mk_row (Some t1) (Some (VStr "A")) (Some id1)
                (Some (VStr "shoes"));
              mk_row (Some t2) (Some (VStr "A")) (Some id2) None;
              mk_row (Some t3) (Some (VStr "B")) (Some id3) None;
              mk_row (Some t4) (Some (VStr "B")) (Some id4)
                (Some (VStr "hats"))] |}.




(** Two frames with the same columns and as many rows that hold the same
    values in the columns [cs]. *)
Definition agree_on (cs : list string) (d1 d2 : DataFrame) : Prop :=
  columns d1 = columns d2 ∧ length (rows d1) = length (rows d2) ∧
  ∀ i c, c ∈ cs → cell d1 i c = cell d2 i c.

(** The fallback reads the table through the columns [cs] only: on two
    tables that agree there it fills the same category cells with the
    same values. *)
Definition reads_only (cs : list string) : Prop :=
  ∀ tool d1 d2, agree_on cs d1 d2 →
    ∀ i c, cat_col c →
      cell (Fallback.df (Fallback.enrich tool d1)) i c =
      cell (Fallback.df (Fallback.enrich tool d2)) i c.

(** The columns the two passes look at. *)
Definition read_columns : list string :=
  ["Cluster ID"; "Category ID"; "Category Label"; "Product Title"].

(** The same, for the local state of the fallback. *)
Definition sim (s1 s2 : Fallback.FState) : Prop :=
  agree_on read_columns (Fallback.df s1) (Fallback.df s2) ∧
  Fallback.enrichment_count s1 = Fallback.enrichment_count s2 ∧
  Fallback.rows_processed s1 = Fallback.rows_processed s2.

(** Two computations that, from states that agree, end alike in states
    that agree. *)
Definition rel_M {A} (m1 m2 : M Fallback.FState A) : Prop :=
  ∀ s1 s2, sim s1 s2 →
    fst (m1 s1) = fst (m2 s2) ∧ sim (snd (m1 s1)) (snd (m2 s2)).

(** *** The tracker *)

(** The world after the record of tracker [t] has been written whole. *)
Definition saved (t : ProgressTracker) (w : World) : World :=
  let content :=
    Tracker.json_dump (Tracker.state_dict t (clock w - start_time t)%Q) in
  log (EvWrite (Tracker.file_path_of (task_id t)) content)
    (set_progress_files (<[Tracker.file_path_of (task_id t) := content]>) w).

(** The world after object [self] has become [t] and has been saved. *)
Definition commit (self : nat) (t : ProgressTracker) (w : World) : World :=
  saved t (set_objects (<[self := t]>) w).

(** The tracker as [update], [complete] and [fail] leave it. *)
Definition updated (progress : Q) (message status : string)
    (t : ProgressTracker) : ProgressTracker :=
  {| task_id := task_id t; start_time := start_time t; status := status;
     progress := Tracker.py_min (Tracker.py_max progress 0) 1;
     message := message; result := result t; error := error t |}.

Definition completed (result : option string) (t : ProgressTracker)
  : ProgressTracker :=
  {| task_id := task_id t; start_time := start_time t;
     status := "completed"; progress := 1;
     message := "Task completed successfully";
     result := result; error := error t |}.

Definition failed (error : string) (t : ProgressTracker) : ProgressTracker :=
  {| task_id := task_id t; start_time := start_time t;
     status := "failed"; progress := progress t;
     message := "Task failed: " ++ error;
     result := result t; error := Some error |}.

Definition created (task_id : string) (now : Q) : ProgressTracker :=
  {| task_id := task_id; start_time := now; status := "initializing";
     progress := 0; message := "Starting task..."; result := None;
     error := None |}.

(** The progress a poll of the status boundary reports after each event
    that changed the file at [path]. *)
Definition reported_progress (path : string) (evs : list event) : list Q :=
  omap (λ ev,
    match ev with
    | EvWrite p content =>
        if decide (p = path) then
          match Tracker.json_load content ≫= (.!! "progress") with
          | Some (JNum q) => Some q
          | _ => None
          end
        else None
    | _ => None
    end) evs.

(** A list of rationals that never decreases. *)
Fixpoint non_decreasing (qs : list Q) : Prop :=
  match qs with
  | q1 :: ((q2 :: _) as rest) => (q1 <= q2)%Q ∧ non_decreasing rest
  | _ => True
  end.

(** The four operations that change a record. *)
Inductive tracker_op :=
| OpCreate (task_id : string)
| OpUpdate (self : nat) (progress : Q) (message status : string)
| OpComplete (self : nat) (result : option string)
| OpFail (self : nat) (error : string).

Definition run_op (op : tracker_op) : M World unit :=
  match op with
  | OpCreate task_id => Tracker.__init__ task_id ;; ret tt
  | OpUpdate self p m s => Tracker.update self p m s
  | OpComplete self r => Tracker.complete self r
  | OpFail self e => Tracker.fail self e
  end.

(** The job whose record the operation writes. *)
Definition op_task (op : tracker_op) (w : World) : option string :=
  match op with
  | OpCreate task_id => Some task_id
  | OpUpdate self _ _ _ | OpComplete self _ | OpFail self _ =>
      task_id <$> objects w !! self
  end.

(** The record the operation would write. *)
Definition op_record (op : tracker_op) (w : World) : option ProgressTracker :=
  match op with
  | OpCreate task_id => Some (created task_id (clock w))
  | OpUpdate self p m s => updated p m s <$> objects w !! self
  | OpComplete self r => completed r <$> objects w !! self
  | OpFail self e => failed e <$> objects w !! self
  end.

(** The failure semantics of the specification: an operation whose write
    fails leaves the record that was stored for the job as it was. *)
Definition failed_write_keeps_record : Prop :=
  ∀ op w e w' tid content,
    op_task op w = Some tid →
    progress_files w !! Tracker.file_path_of tid = Some content →
    run_op op w = (Raise e, w') →
    progress_files w' !! Tracker.file_path_of tid = Some content.

(** *** The job runner *)

(** The tracker and the world after a series of [update]s of object
    [self] with status processing. *)
Fixpoint commits (self : nat) (t : ProgressTracker)
    (ups : list (Q * string)) (w : World) : ProgressTracker * World :=
  match ups with
  | [] => (t, w)
  | (p, m) :: ups' =>
      commits self (updated p m "processing" t) ups'
        (commit self (updated p m "processing" t) w)
  end.

(** The updates of [AgentsCrew.run] before the agents start. *)
Definition before_kickoff : list (Q * string) :=
  [(1 # 10, "Initializing CSV enrichment crew"); (2 # 10, "Creating tasks");
   (4 # 10, "Creating crew"); (5 # 10, "Running crew")].

(** The world when [crew.kickoff()] has returned or raised, leaving the
    CSV files [files]. *)
Definition kicked_off (self : nat) (t : ProgressTracker)
    (files : gmap string DataFrame) (w : World) : World :=
  set_csv_files (λ _, files)
    (log EvKickoff (snd (commits self t before_kickoff w))).

(** The tracker after [ups]. *)
Definition tracker_after (t : ProgressTracker) (ups : list (Q * string))
  : ProgressTracker :=
  foldl (λ t pm, updated pm.1 pm.2 "processing" t) t ups.

(** Where the crew's constructor puts the output of the job. *)
Definition output_path (env : Env) (input_file : string) : string :=
  "data/" ++ "enriched_" ++ uuid_hex env ++ "_" ++ basename input_file.

(** The ways one job can go, as the collaborators decide. *)
Inductive scenario :=
| ToolsRaise (e : exn)          (* the crew cannot be built *)
| KickoffRaises (e : exn)       (* the delegated attempt raises *)
| AgentWrote                    (* the agents wrote the output file *)
| FallbackNoInput               (* fallback; the input cannot be read *)
| FallbackRan (tool : option value → outcome string) (d : DataFrame).

Definition scenario_of (env : Env) (input_file : string) (w : World)
  : scenario :=
  match make_tools env with
  | Raise e => ToolsRaise e
  | Ok tool =>
      match kickoff env (csv_files w) with
      | (Raise e, _) => KickoffRaises e
      | (Ok _, files) =>
          if bool_decide (is_Some (files !! output_path env input_file))
          then AgentWrote
          else match files !! input_file with
               | None => FallbackNoInput
               | Some d => FallbackRan tool d
               end
      end
  end.

(** The CSV files after the agents have run. *)
Definition files_after_kickoff (env : Env) (w : World)
  : gmap string DataFrame :=
  snd (kickoff env (csv_files w)).

(** What the record of job [tid] says when polled in world [w]. *)
Definition polled (tid : string) (w : World) : option (gmap string json) :=
  match progress_files w !! Tracker.file_path_of tid with
  | Some content => Tracker.json_load content
  | None => None
  end.

(** No write fails and the job is in the registry, as [upload_file]
    leaves it. *)
Definition ready (tid : string) (w : World) : Prop :=
  pending_fault w = None ∧ is_Some (active_tasks w !! tid).

(** The tracker of [AgentsCrew.run] after the agents, and at the end. *)
Definition finalizing_tracker (t : ProgressTracker) : ProgressTracker :=
  updated (9 # 10) "Finalizing results" "processing"
    (tracker_after t before_kickoff).

Definition complete_tracker (t : ProgressTracker) : ProgressTracker :=
  updated 1 "CSV enrichment complete" "processing" (finalizing_tracker t).

(** The tracker [process_file] hands to the crew, and the world then. *)
Definition starting_tracker (tid : string) (w : World) : ProgressTracker :=
  updated (5 # 100) "Starting CSV enrichment process..." "processing"
    (created tid (clock w)).

Definition started (tid : string) (w : World) : World :=
  commit (length (objects w)) (starting_tracker tid w)
    (saved (created tid (clock w))
       (set_objects (λ os, (os ++ [created tid (clock w)])%list) w)).

(** What the status boundary reports over the job, what the record says
    at the end, and whether the fallback was entered. *)
Definition expected_progress (s : scenario) : list Q :=
  match s with
  | ToolsRaise _ => [0; 5 # 100; 5 # 100]
  | KickoffRaises _ =>
      [0; 5 # 100; 1 # 10; 2 # 10; 4 # 10; 5 # 10; 5 # 10]
  | AgentWrote | FallbackRan _ _ =>
      [0; 5 # 100; 1 # 10; 2 # 10; 4 # 10; 5 # 10; 9 # 10; 1; 1]
  | FallbackNoInput =>
      [0; 5 # 100; 1 # 10; 2 # 10; 4 # 10; 5 # 10; 9 # 10; 9 # 10]
  end%Q.

Definition expected_status (s : scenario) : string :=
  match s with
  | ToolsRaise _ | KickoffRaises _ | FallbackNoInput => "failed"
  | AgentWrote | FallbackRan _ _ => "completed"
  end.

Definition expected_error (input_file : string) (s : scenario) : json :=
  match s with
  | ToolsRaise e | KickoffRaises e => JStr (str e)
  | FallbackNoInput => JStr (str (FileNotFoundError input_file))
  | AgentWrote | FallbackRan _ _ => JNull
  end.

Definition fallback_entered (s : scenario) : bool :=
  match s with
  | FallbackNoInput | FallbackRan _ _ => true
  | _ => false
  end.

(** One job seen from outside: [process_file] returns, and between [w]
    and [w'] the events [evs] happened and the record [rec] was left. *)
Definition job_ran (env : Env) (tid input_file : string)
    (cols : list string) (w w' : World) (evs : list event)
    (rec : gmap string json) : Prop :=
  Backend.process_file env tid input_file cols w = (Ok tt, w') ∧
  trace w' = (trace w ++ evs)%list ∧
  polled tid w' = Some rec.

(** The crew [process_file] builds. *)
Definition job_crew (env : Env) (input_file : string) (cols : list string)
    (tracker : nat) (tool : option value → outcome string)
  : AgentsCrew.CSVEnrichmentCrew :=
  {| AgentsCrew.source_csv_path :=
       app_root env ++ "/data/pricerunner_aggregate.csv";
     AgentsCrew.input_csv_path := input_file;
     AgentsCrew.category_columns := cols;
     AgentsCrew.progress_tracker := Some tracker;
     AgentsCrew.output_csv_path := output_path env input_file;
     AgentsCrew.csv_search_tool := tool |}.

(** The registry after two fields of the entry [info] of job [tid] have
    been set. *)
Definition registry_set (tid : string) (info : gmap string json)
    (k1 : string) (v1 : json) (k2 : string) (v2 : json) (w : World)
  : World :=
  set_active_tasks (<[tid := <[k2 := v2]> (<[k1 := v1]> info)]>)
    (set_active_tasks (<[tid := <[k1 := v1]> info]>) w).

(** The world a job ends in when it fails with [e] in world [w], the
    tracker being [t]; and when it completes. *)
Definition ended_failed (tid : string) (info : gmap string json)
    (self : nat) (t : ProgressTracker) (e : exn) (w : World) : World :=
  registry_set tid info "status" (JStr "failed") "error" (JStr (str e))
    (commit self (failed (str e) t) w).

Definition ended_completed (tid : string) (info : gmap string json)
    (self : nat) (t : ProgressTracker) (output_file : string) (w : World)
  : World :=
  registry_set tid info "status" (JStr "completed")
    "output_file" (JStr output_file)
    (commit self (completed (Some output_file) t) w).

(** An exception was raised inside the fallback: while it read its
    input, or inside its two passes. *)
Definition fallback_raised (env : Env) (input_file : string) (w : World)
  : Prop :=
  scenario_of env input_file w = FallbackNoInput ∨
  ∃ tool d e,
    scenario_of env input_file w = FallbackRan tool d ∧
    Fallback.passes_raised tool d = Some e.

(** The contract of the specification for such a job: it is reported
    through [fail] and the runner returns. *)
Definition fallback_error_fails_job : Prop :=
  ∀ env tid input_file cols w,
    ready tid w → fallback_raised env input_file w →
    ∃ w' rec,
      Backend.process_file env tid input_file cols w = (Ok tt, w') ∧
      polled tid w' = Some rec ∧
      rec !! "status" = Some (JStr "failed").

(** *** A small installation, for examples *)

Definition silent_tool (q : option value) : outcome string :=
  Raise (Exception "search index unavailable").

(** The agents return without writing any file. *)
Definition idle_env : Env :=
  {| uuid_hex := "0f3a"; app_root := "/srv/app";
     make_tools := Ok silent_tool;
     kickoff := λ files, (Ok "No enrichment was possible.", files) |}.

(** The agents raise. *)
Definition overloaded_env : Env :=
  {| uuid_hex := "0f3a"; app_root := "/srv/app";
     make_tools := Ok silent_tool;
     kickoff := λ files, (Raise (Exception "overloaded_error"), files) |}.

(** A table without the grouping column. *)
Definition no_cluster_table : DataFrame :=
  {| columns := ["Product Title"; "Category ID"; "Category Label"];
     rows := [Fallback.set_cell "Product Title" (Some (VStr "phone a")) ∅] |}.

Definition fresh_world (files : gmap string DataFrame) : World :=
  {| progress_files := ∅; csv_files := files; objects := [];
     active_tasks :=
       {[ "job-1" :=
            {[ "input_file" := JStr "data/in.csv";
               "category_columns" := JStrList ["Category ID"];
               "status" := JStr "initializing";
               "output_file" := JNull ]} ]};
     clock := 0; pending_fault := None; trace := [] |}.

Definition world_without_cluster : World :=
  fresh_world {[ "data/in.csv" := no_cluster_table ]}.

(** The world with the record of the operation stored in the tracker
    object, before it is written to the file. *)
Definition op_world (op : tracker_op) (r : ProgressTracker) (w : World)
  : World :=
  match op with
  | OpCreate _ => set_objects (λ os, (os ++ [r])%list) w
  | OpUpdate self _ _ _ | OpComplete self _ | OpFail self _ =>
      set_objects (<[self := r]>) w
  end.

(** A job whose record is on disk, and a write that fails after three
    chunks. *)
Definition torn_world : World :=
  {| progress_files :=
       {[ Tracker.file_path_of "job-1" :=
            Tracker.json_dump
              (Tracker.state_dict (created "job-1" 0) 0) ]};
     csv_files := ∅; objects := [created "job-1" 0];
     active_tasks := ∅; clock := 2; pending_fault := Some (FailAfter 3);
     trace := [] |}.

(** *** The retry loop *)

(** The sleeps of a trace, in order, and the number of times the agents
    were started. *)
Definition sleeps_of (evs : list event) : list Q :=
  omap (λ ev, match ev with EvSleep s => Some s | _ => None end) evs.

Definition kickoffs_of (evs : list event) : nat :=
  length (omap (λ ev, match ev with EvKickoff => Some tt | _ => None end)
            evs).

(** The crew's tracker, if it has one, exists and no write will fail. *)
Definition tracker_ok (self : DataCrew.CSVEnrichmentCrew) (w : World) : Prop :=
  pending_fault w = None ∧
  ∀ l, DataCrew.progress_tracker self = Some l → is_Some (objects w !! l).

(** The world after [_update_progress]. *)
Definition progress_noted (self : DataCrew.CSVEnrichmentCrew) (p : Q)
    (m : string) (w : World) : World :=
  match DataCrew.progress_tracker self with
  | Some l =>
      match objects w !! l with
      | Some t => commit l (updated p m "processing" t) w
      | None => w
      end
  | None => w
  end.

(** An error the loop retries on. *)
Definition overloaded (e : exn) : Prop :=
  contains "overloaded_error" (str e) = true.

(** Between [w] and [w'] the agents were started [k] times and the
    sleeps [ss] were taken, in that order; the tracker stays usable. *)
Definition extends (self : DataCrew.CSVEnrichmentCrew) (w w' : World)
    (ss : list Q) (k : nat) : Prop :=
  tracker_ok self w' ∧
  ∃ evs, trace w' = (trace w ++ evs)%list ∧
         sleeps_of evs = ss ∧ kickoffs_of evs = k.

(** The retry policy of the specification, read of a job: when the
    delegated attempt of a job raises an overload, the runner starts the
    agents again after a wait. *)
Definition job_retries_when_overloaded : Prop :=
  ∀ env tid input_file cols w tool e files w' evs rec,
    ready tid w → make_tools env = Ok tool →
    kickoff env (csv_files w) = (Raise e, files) → overloaded e →
    job_ran env tid input_file cols w w' evs rec →
    1 < kickoffs_of evs ∧ sleeps_of evs ≠ [].

(** *** Tables and a search tool for the frame properties *)

(** A table with no category cell missing. *)
Definition filled_table : DataFrame :=
  {| columns := product_columns;
     rows := [mk_row (Some (VStr "phone a")) (Some (VNum 1))
                (Some (VNum 2612)) (Some (VStr "Mobile Phones"));
              mk_row (Some (VStr "fridge b")) (Some (VNum 7))
                (Some (VNum 2623)) (Some (VStr "Fridges"))] |}.

(** A search tool that knows one product, by its title. *)
Definition title_tool (q : option value) : outcome string :=
  if bool_decide (q = Some (VStr "phone a"))
  then Ok "Category ID: 2612, Category Label: Mobile Phones"
  else Ok "no similar product".

(** One product on its own in its cluster, without categories. *)
Definition titled_table (title : string) : DataFrame :=
  {| columns := product_columns;
     rows := [mk_row (Some (VStr title)) (Some (VNum 1)) None None] |}.

(** The crew, given another list of category columns. *)
Definition with_category_columns (cols : list string)
    (self : AgentsCrew.CSVEnrichmentCrew) : AgentsCrew.CSVEnrichmentCrew :=
  {| AgentsCrew.source_csv_path := AgentsCrew.source_csv_path self;
     AgentsCrew.input_csv_path := AgentsCrew.input_csv_path self;
     AgentsCrew.category_columns := cols;
     AgentsCrew.progress_tracker := AgentsCrew.progress_tracker self;
     AgentsCrew.output_csv_path := AgentsCrew.output_csv_path self;
     AgentsCrew.csv_search_tool := AgentsCrew.csv_search_tool self |}.

(** The scenario table with its other cells written out. *)
Definition shoes_and_hats : DataFrame :=
  scenario_table (VNum 11) (VNum 11) (VNum 12) (VNum 12)
    (VStr "boot") (VStr "sandal") (VStr "cap") (VStr "beret").

(** The provider is overloaded at every attempt. *)
Definition always_overloaded (n : nat) : outcome string :=
  Raise (Exception "Error code: 529 - overloaded_error").

(** A crew of [data/] that reports to tracker 0, and a world in which
    that tracker exists. *)
Definition reporting_crew : DataCrew.CSVEnrichmentCrew :=
  {| DataCrew.source_csv_path := "data/pricerunner_aggregate.csv";
     DataCrew.input_csv_path := "data/in.csv";
     DataCrew.category_columns := ["Category ID"; "Category Label"];
     DataCrew.progress_tracker := Some 0%nat;
     DataCrew.output_csv_path := "data/enriched_0f3a_in.csv" |}.

Definition tracked_world : World :=
  {| progress_files := ∅; csv_files := ∅; objects := [created "job-1" 0];
     active_tasks := ∅; clock := 0; pending_fault := None; trace := [] |}.

(** The table the fallback leaves at the crew's output path. *)
Definition fallback_output (self : AgentsCrew.CSVEnrichmentCrew)
    (w : World) : option DataFrame :=
  csv_files (snd (AgentsCrew._apply_enrichments_fallback self "" w))
    !! AgentsCrew.output_csv_path self.

(** ** Vocabulary of the further properties *)

(** What [get_task_state] returns for job [tid] in world [w]. *)
Definition read_state (tid : string) (w : World)
  : outcome (option (gmap string json)) :=
  fst (Tracker.get_task_state tid w).

(** The world after a tracker operation. *)
Definition after_op (op : tracker_op) (w : World) : World :=
  snd (run_op op w).

(** *** The upload boundary *)

(** The entry [upload_file] makes in the registry. *)
Definition upload_info (file_path : string) (cat_cols : list string)
  : gmap string json :=
  <["input_file" := JStr file_path]>
  (<["category_columns" := JStrList cat_cols]>
  (<["status" := JStr "initializing"]>
  (<["output_file" := JNull]> ∅))).

(** Where [save_uploaded_file] puts the file. *)
Definition upload_path (file_hex filename : string) : string :=
  "data/" ++ file_hex ++ "_" ++ filename.

(** The category columns [upload_file] settles on. *)
Definition upload_columns (category_columns : option string)
    (file_content : DataFrame) : list string :=
  if Backend.truthy_str category_columns
  then map strip (split ","%char (default "" category_columns))
  else Backend.last_two (columns file_content).

(** The call of [process_file] that [upload_file] hands to the server. *)
Definition upload_job (file_hex task_uuid filename : string)
    (category_columns : option string) (file_content : DataFrame)
  : Backend.job :=
  {| Backend.job_task_id := task_uuid;
     Backend.job_input_file := upload_path file_hex filename;
     Backend.job_category_columns :=
       upload_columns category_columns file_content |}.

(** The world after a successful upload. *)
Definition uploaded (file_hex task_uuid filename : string)
    (category_columns : option string) (file_content : DataFrame)
    (w : World) : World :=
  let w1 :=
    set_csv_files (<[upload_path file_hex filename := file_content]>) w in
  set_active_tasks
    (<[task_uuid := upload_info (upload_path file_hex filename)
                      (upload_columns category_columns file_content)]>)
    (saved (created task_uuid (clock w))
       (set_objects (λ os, (os ++ [created task_uuid (clock w)])%list) w1)).

(** The characters of a string. *)
Definition chars (s : string) : list ascii := list_ascii_of_string s.

(** A small table to upload. *)
Definition phones_csv : DataFrame :=
  {| columns := product_columns;
     rows := [mk_row (Some (VStr "phone a")) (Some (VNum 1))
                (Some (VNum 2612)) (Some (VStr "Mobile Phones"));
              mk_row (Some (VStr "phone b")) (Some (VNum 1)) None None] |}.

(** A world in which nothing has happened yet. *)
Definition empty_world : World :=
  {| progress_files := ∅; csv_files := ∅; objects := [];
     active_tasks := ∅; clock := 0; pending_fault := None; trace := [] |}.

(** *** The job seen from the boundaries *)

(** The job ends completed. *)
Definition completes (s : scenario) : bool :=
  match s with
  | AgentWrote | FallbackRan _ _ => true
  | _ => false
  end.

(** The CSV files a job leaves. *)
Definition files_after_job (env : Env) (input_file : string) (w : World)
  : gmap string DataFrame :=
  match scenario_of env input_file w with
  | ToolsRaise _ => csv_files w
  | FallbackRan tool d =>
      <[output_path env input_file := Fallback.df (Fallback.enrich tool d)]>
        (files_after_kickoff env w)
  | _ => files_after_kickoff env w
  end.

(** What the result boundary answers after a job. *)
Definition expected_download (env : Env) (input_file : string)
    (s : scenario) : Backend.response :=
  if completes s then
    Backend.FileResponse (output_path env input_file) "text/csv"
      (basename (output_path env input_file))
  else Backend.HTTPException 400 "Task is not completed yet".

(** The world after [process_file]. *)
Definition after_job (env : Env) (tid input_file : string)
    (cols : list string) (w : World) : World :=
  snd (Backend.process_file env tid input_file cols w).

(** *** The residual lookup *)

(** Lines 311-321 for one column: the match [m] of the pattern fills the
    cell when it is missing. *)
Definition search_fill (c : string) (m : option string)
    (r : gmap string value) : gmap string value :=
  match m with
  | Some g => fill_cell c (Some (VStr (strip g))) r
  | None => r
  end.

(** The frame after [fill_from_search] for row [idx], the row as
    [iterrows] gave it being [row]. *)
Definition filled_from_search (idx : nat) (row : gmap string value)
    (c : string) (m : option string) (d : DataFrame) : DataFrame :=
  match m with
  | Some g =>
      if isna (row !! c)
      then Fallback.set_at idx c (Some (VStr (strip g))) d
      else d
  | None => d
  end.

(** What the second pass makes of a row. *)
Definition searched_row (tool : option value → outcome string)
    (r : gmap string value) : gmap string value :=
  if isna (r !! "Category ID") || isna (r !! "Category Label") then
    match tool (r !! "Product Title") with
    | Ok search_result =>
        search_fill "Category Label"
          (re_search_category_label search_result)
          (search_fill "Category ID"
             (re_search_category_id search_result) r)
    | Raise _ => r
    end
  else r.

(** [df[c].isna().sum()], as [test_enrichment.py] counts the missing
    values of a column (lines 60-63). *)
Definition missing_count (c : string) (d : DataFrame) : nat :=
  length (filter (λ i, isna (cell d i c) = true)
            (seq 0 (length (rows d)))).

(** The search tool fails on every query. *)
Definition always_fails (tool : option value → outcome string) : Prop :=
  ∀ q, ∃ e, tool q = Raise e.

(** *** The matches of the crew's text *)




(** The number of places of [s] at which [lit] starts. *)
Fixpoint occurrences (lit s : string) : nat :=
  (if String.prefix lit s then 1 else 0) +
  match s with
  | String _ s' => occurrences lit s'
  | EmptyString => 0
  end.

(** The text of a group: no newline in it; and no quote either. *)
Definition one_line (g : string) : Prop :=
  Forall (λ c, is_newline c = false) (chars g).

Definition unquoted (g : string) : Prop :=
  Forall (λ c, is_quote c = false) (chars g).

(** An answer of the agents in the format the task asks for, with two
    columns for one row and an apostrophe in a value. *)
Definition two_columns_answer : string :=
  "Row 1: Column 'Category Label': " ++ String "034"%char "Men's Shoes"
  ++ String "034"%char ", Column 'Category ID': '2612'".

(** *** Task ids *)

(** A task id as [upload_file] makes it, [str(uuid.uuid4())]: lower-case
    hexadecimal digits and dashes.  No slash and no dot is in it, so its
    state file has one path. *)
Definition uuid_char (c : ascii) : bool :=
  let n := Ascii.N_of_ascii c in
  (is_digit c || (97 <=? n) && (n <=? 102) || (n =? 45))%N.

Definition uuid_text (tid : string) : Prop :=
  Forall (λ c, uuid_char c = true) (chars tid).

(** *** The crew of [data/] at work *)



(** * Properties *)

Import Fallback.

Lemma cell_set_at_other idx c v d i c' :
  i ≠ idx ∨ c' ≠ c → cell (set_at idx c v d) i c' = cell d i c'.
Proof.
  intros H. unfold cell, set_at; simpl.
  destruct (decide (i = idx)) as [->|Hi].
  - destruct H as [H|H]; [done|].
    rewrite list_lookup_alter_eq. destruct (rows d !! idx) as [r|]; simpl; [|done].
    unfold set_cell. by rewrite lookup_partial_alter_ne.
  - by rewrite list_lookup_alter_ne.
Qed.

Lemma cell_set_at_same idx c v d :
  idx < length (rows d) → cell (set_at idx c v d) idx c = v.
Proof.
  intros H. unfold cell, set_at; simpl.
  rewrite list_lookup_alter_eq.
  destruct (lookup_lt_is_Some_2 _ _ H) as [r ->]. simpl.
  unfold set_cell. by rewrite lookup_partial_alter_eq.
Qed.

Lemma fills_only_refl d : fills_only d d.
Proof. repeat split. intros; by left. Qed.

Lemma fills_only_trans d1 d2 d3 :
  fills_only d1 d2 → fills_only d2 d3 → fills_only d1 d3.
Proof.
  intros (Hc1 & Hl1 & H1) (Hc2 & Hl2 & H2). split; [congruence|]. split; [congruence|].
  intros i c. destruct (H1 i c) as [E1|[E1 ?]]; [|by right].
  destruct (H2 i c) as [E2|[E2 ?]].
  - left; congruence.
  - right. split; [congruence|done].
Qed.

Lemma fills_row_refl idx d : fills_row idx d d.
Proof. split; [apply fills_only_refl|done]. Qed.

Lemma fills_row_trans idx d1 d2 d3 :
  fills_row idx d1 d2 → fills_row idx d2 d3 → fills_row idx d1 d3.
Proof.
  intros [H1 L1] [H2 L2]. split; [by eapply fills_only_trans|].
  intros j c Hj. rewrite L2, L1; done.
Qed.

Lemma fills_row_set_at idx c v d :
  c ∈ columns d → cat_col c → cell d idx c = None →
  fills_row idx d (set_at idx c v d).
Proof.
  intros Hc Hcat Hna. split; [split; [|split]|].
  - unfold set_at; simpl. by rewrite bool_decide_eq_true_2.
  - unfold set_at; simpl. by rewrite length_alter.
  - intros i c'. destruct (decide (i = idx ∧ c' = c)) as [[-> ->]|Hne].
    + by right.
    + left. apply cell_set_at_other. apply not_and_l in Hne. tauto.
  - intros j c' Hj. apply cell_set_at_other. by left.
Qed.

Lemma for_each_preserves {S A} (I : S → S → Prop) (xs : list A)
    (body : A → M S unit) :
  (∀ s, I s s) → (∀ s1 s2 s3, I s1 s2 → I s2 s3 → I s1 s3) →
  (∀ x s o s', body x s = (o, s') → I s s') →
  ∀ s o s', for_each xs body s = (o, s') → I s s'.
Proof.
  intros Hrefl Htrans Hbody. induction xs as [|x xs IH]; intros s o s' E.
  - inversion E; subst. apply Hrefl.
  - simpl in E. unfold bind in E.
    destruct (body x s) as [[[]|e] s1] eqn:E1.
    + eapply Htrans; [by eapply Hbody|by eapply IH].
    + inversion E; subst. by eapply Hbody.
Qed.

Lemma fill_missing_fills idx c v s o s' :
  cat_col c → fill_missing idx c v s = (o, s') →
  fills_row idx (df s) (df s').
Proof.
  intros Hcat E. unfold fill_missing, at_get, at_set, require_column in E.
  unfold bind, get, ret, raise, modify in E.
  case_bool_decide as Hc; simpl in E;
    [|inversion E; subst; apply fills_row_refl].
  destruct (rows (df s) !! idx) as [r|] eqn:Hr; simpl in E;
    [|inversion E; subst; apply fills_row_refl].
  destruct (r !! c) as [x|] eqn:Hx; simpl in E; inversion E; subst; simpl.
  - apply fills_row_refl.
  - apply fills_row_set_at; [done..|]. unfold cell. by rewrite Hr.
Qed.

Lemma propagate_group_fills snap k s o s' :
  propagate_group snap k s = (o, s') → fills_only (df s) (df s').
Proof.
  unfold propagate_group. intros E.
  destruct (length (group_index snap k) <=? 1)%nat;
    [inversion E; subst; apply fills_only_refl|].
  unfold bind at 1 in E. unfold require_column in E.
  case_bool_decide; simpl in E; [|inversion E; subst; apply fills_only_refl].
  destruct (filter _ (group_index snap k)) as [|i0 ?];
    [inversion E; subst; apply fills_only_refl|].
  unfold series_get, require_column in E. unfold bind at 1 2 in E.
  case_bool_decide; simpl in E; [|inversion E; subst; apply fills_only_refl].
  unfold bind at 1 2 in E. simpl in E.
  case_bool_decide; simpl in E; [|inversion E; subst; apply fills_only_refl].
  revert E. apply (for_each_preserves (λ s s', fills_only (df s) (df s'))).
  - intros ?; apply fills_only_refl.
  - intros ???; apply fills_only_trans.
  - clear. intros idx s o s' E. unfold bind at 1, modify in E. simpl in E.
    unfold bind in E.
    destruct (fill_missing idx "Category ID" _ _) as [[[]|e] s1] eqn:E1.
    + apply fill_missing_fills in E1 as [E1 _]; [|by left].
      apply fill_missing_fills in E as [E _]; [|by right].
      simpl in E1. eapply fills_only_trans; eauto.
    + inversion E; subst. apply fill_missing_fills in E1 as [E1 _]; [|by left].
      done.
Qed.

Lemma group_propagation_fills s o s' :
  group_propagation s = (o, s') → fills_only (df s) (df s').
Proof.
  unfold group_propagation. unfold bind at 1, get. unfold bind, require_column.
  case_bool_decide; simpl; [|intros E; inversion E; subst; apply fills_only_refl].
  apply (for_each_preserves (λ s s', fills_only (df s) (df s'))).
  - intros ?; apply fills_only_refl.
  - intros ???; apply fills_only_trans.
  - intros ????. apply propagate_group_fills.
Qed.

Lemma cell_lookup d i r c : rows d !! i = Some r → cell d i c = r !! c.
Proof. intros H. unfold cell. by rewrite H. Qed.

Lemma bind_inv {S A B} (m : M S A) (k : A → M S B) s o s' :
  bind m k s = (o, s') →
  (∃ a s1, m s = (Ok a, s1) ∧ k a s1 = (o, s')) ∨
  (∃ e, m s = (Raise e, s') ∧ o = Raise e).
Proof.
  unfold bind. destruct (m s) as [[a|e] s1]; intros E.
  - left; eauto.
  - right. inversion E; subst. eauto.
Qed.

Lemma try_except_inv {S A} (m : M S A) (h : exn → M S A) s o s' :
  try_except m h s = (o, s') →
  (∃ a, m s = (Ok a, s') ∧ o = Ok a) ∨
  (∃ e s1, m s = (Raise e, s1) ∧ h e s1 = (o, s')).
Proof.
  unfold try_except. destruct (m s) as [[a|e] s1]; intros E.
  - left. inversion E; subst. eauto.
  - right; eauto.
Qed.

Lemma series_get_inv {S} cols r c (s : S) o s' :
  series_get cols r c s = (o, s') →
  s' = s ∧ (o = Ok (r !! c) ∧ c ∈ cols ∨ o = Raise (KeyError c) ∧ c ∉ cols).
Proof.
  unfold series_get, require_column, bind, ret, raise.
  case_bool_decide; simpl; intros E; inversion E; subst; auto.
Qed.

Ltac inv_bind H :=
  let a := fresh "a" in let s1 := fresh "s" in let e := fresh "e" in
  let H1 := fresh H in
  let Ho := fresh "Ho" in
  apply bind_inv in H as [(a & s1 & H1 & H)|(e & H & Ho)];
  [|first [discriminate Ho | subst]].

Lemma needs_lookup_inv cols row (s : FState) o s' :
  needs_lookup cols row s = (o, s') → s' = s.
Proof.
  unfold needs_lookup. intros E. inv_bind E.
  - apply series_get_inv in E0 as [-> _]. destruct (isna a).
    + by inversion E.
    + inv_bind E.
      * apply series_get_inv in E0 as [-> _]. by inversion E.
      * by apply series_get_inv in E as [-> _].
  - by apply series_get_inv in E as [-> _].
Qed.

Lemma fill_from_search_fills idx row c m (s : FState) o s' :
  cat_col c →
  cell (df s) idx c = row !! c →
  fill_from_search (columns (df s)) idx row c m s = (o, s') →
  fills_row idx (df s) (df s') ∧
  ∀ i c', c' ≠ c → cell (df s') i c' = cell (df s) i c'.
Proof.
  intros Hcat Hcell E. destruct m as [g|]; simpl in E;
    [|inversion E; subst; split; [apply fills_row_refl|done]].
  inv_bind E.
  - apply series_get_inv in E0 as [-> [[[= ->] Hc]|[? _]]]; [|done].
    destruct (row !! c) eqn:Hx; simpl in E.
    + inversion E; subst. split; [apply fills_row_refl|done].
    + unfold at_set, bind, modify in E. inversion E; subst; simpl.
      split; [by apply fills_row_set_at|].
      intros i c' Hc'. apply cell_set_at_other. by right.
  - apply series_get_inv in E as [-> _]. split; [apply fills_row_refl|done].
Qed.

Lemma search_and_fill_fills tool idx row q s o s' :
  rows (df s) !! idx = Some row →
  search_and_fill tool (columns (df s)) idx row q s = (o, s') →
  fills_row idx (df s) (df s').
Proof.
  intros Hrow E. unfold search_and_fill in E.
  inv_bind E; unfold call_search_tool in *.
  2:{ inversion E; subst; apply fills_row_refl. }
  inversion E0; subst; clear E0.
  inv_bind E.
  - apply fill_from_search_fills in E0 as [F Hoth];
      [|by left|by apply cell_lookup].
    eapply fills_row_trans; [exact F|].
    destruct F as [(Hcols & _ & _) _].
    rewrite <- Hcols in E.
    apply fill_from_search_fills in E as [F' _]; [done|by right|].
    rewrite Hoth by done. by apply cell_lookup.
  - by apply fill_from_search_fills in E as [F _];
      [|by left|by apply cell_lookup].
Qed.

Lemma residual_row_fills tool idx row s o s' :
  rows (df s) !! idx = Some row →
  residual_row tool (columns (df s)) idx row s = (o, s') →
  fills_row idx (df s) (df s').
Proof.
  intros Hrow E. unfold residual_row in E.
  inv_bind E; [|apply needs_lookup_inv in E as ->; apply fills_row_refl].
  apply needs_lookup_inv in E0 as ->.
  destruct a; [|inversion E; subst; apply fills_row_refl].
  inv_bind E; [|inversion E].
  unfold modify in E0. inversion E0; subst; clear E0.
  inv_bind E; [|apply series_get_inv in E as [-> _]; apply fills_row_refl].
  apply series_get_inv in E0 as [-> _].
  apply try_except_inv in E as [(u & E & ->)|(e & s1 & E & Eh)].
  - by apply (search_and_fill_fills tool idx row _ (incr_rows s)) in E.
  - inversion Eh; subst.
    by apply (search_and_fill_fills tool idx row _ (incr_rows s)) in E.
Qed.

Lemma residual_loop_fills tool cols rs : ∀ idx s o s',
  cols = columns (df s) →
  (∀ j r, rs !! j = Some r → rows (df s) !! (idx + j) = Some r) →
  residual_loop tool cols idx rs s = (o, s') →
  fills_only (df s) (df s').
Proof.
  induction rs as [|row rs IH]; intros idx s o s' -> Hsnap E; simpl in E.
  - inversion E; subst. apply fills_only_refl.
  - inv_bind E.
    + apply residual_row_fills in E0 as [F L].
      2:{ specialize (Hsnap 0 row eq_refl). by rewrite Nat.add_0_r in Hsnap. }
      eapply fills_only_trans; [exact F|].
      eapply IH; [| |exact E].
      * by destruct F as (-> & _).
      * intros j r Hj. specialize (Hsnap (S j) r Hj).
        rewrite Nat.add_succ_r in Hsnap. simpl.
        assert (∀ c, cell (df s0) (S (idx + j)) c = cell (df s) (S (idx + j)) c)
          as Hc by (intros c; apply L; lia).
        destruct F as (_ & Hlen & _).
        destruct (rows (df s0) !! S (idx + j)) as [r'|] eqn:Hr'.
        -- f_equal. apply map_eq. intros c. specialize (Hc c).
           unfold cell in Hc. rewrite Hr', Hsnap in Hc. done.
        -- apply lookup_ge_None in Hr'. apply lookup_lt_Some in Hsnap. lia.
    + apply residual_row_fills in E as [F _]; [done|].
      specialize (Hsnap 0 row eq_refl). by rewrite Nat.add_0_r in Hsnap.
Qed.

Lemma residual_lookup_fills tool s o s' :
  residual_lookup tool s = (o, s') → fills_only (df s) (df s').
Proof.
  unfold residual_lookup. intros E. inv_bind E; [|inversion E].
  inversion E0; subst; clear E0.
  eapply residual_loop_fills; [done| |exact E]. done.
Qed.

Lemma fallback_passes_fills tool s o s' :
  fallback_passes tool s = (o, s') → fills_only (df s) (df s').
Proof.
  unfold fallback_passes. intros E.
  assert (∀ o s', (group_propagation ;; residual_lookup tool) s = (o, s') →
                  fills_only (df s) (df s')) as H.
  { clear. intros o s' E. inv_bind E.
    - apply group_propagation_fills in E0. apply residual_lookup_fills in E.
      by eapply fills_only_trans.
    - by apply group_propagation_fills in E. }
  apply try_except_inv in E as [(u & E & ->)|(e & s1 & E & Eh)].
  - by eapply H.
  - inversion Eh; subst. by eapply H.
Qed.

Lemma enrich_fills tool d : fills_only d (df (enrich tool d)).
Proof.
  unfold enrich.
  destruct (fallback_passes tool _) as [o s'] eqn:E.
  by apply fallback_passes_fills in E.
Qed.

(** *** The first pass, row by row *)

Lemma fill_missing_ok idx c v s r :
  c ∈ columns (df s) → rows (df s) !! idx = Some r →
  ∃ s', fill_missing idx c v s = (Ok tt, s') ∧
        columns (df s') = columns (df s) ∧
        rows (df s') = <[idx := fill_cell c v r]> (rows (df s)).
Proof.
  intros Hc Hr. unfold fill_missing, at_get, at_set, require_column.
  unfold bind, get, ret, modify. rewrite bool_decide_eq_true_2 by done.
  rewrite Hr. unfold fill_cell. destruct (r !! c) eqn:Hx; simpl.
  - eexists; split; [done|]. split; [done|]. by rewrite list_insert_id.
  - eexists; split; [done|]. simpl. rewrite bool_decide_eq_true_2 by done.
    split; [done|]. apply list_eq. intros j.
    destruct (decide (j = idx)) as [->|Hj].
    + rewrite list_lookup_alter_eq, Hr. simpl.
      by rewrite list_lookup_insert_eq by (by eapply lookup_lt_Some).
    + by rewrite list_lookup_alter_ne, list_lookup_insert_ne.
Qed.

Lemma fill_cell_lookup_ne c c' v r : c' ≠ c → fill_cell c v r !! c' = r !! c'.
Proof.
  intros H. unfold fill_cell. destruct (isna (r !! c)); [|done].
  unfold set_cell. by rewrite lookup_partial_alter_ne.
Qed.

Lemma fill_cell_lookup c v r :
  fill_cell c v r !! c = match r !! c with Some x => Some x | None => v end.
Proof.
  unfold fill_cell. destruct (r !! c) eqn:E; simpl; [done|].
  unfold set_cell. by rewrite lookup_partial_alter_eq.
Qed.

(** The loop over the rows of one group (lines 281-294). *)
Lemma group_rows_ok cid clabel (G : list nat) : ∀ s,
  "Category ID" ∈ columns (df s) → "Category Label" ∈ columns (df s) →
  NoDup G → (∀ i, i ∈ G → i < length (rows (df s))) →
  ∃ s',
    for_each G (λ idx,
      modify incr_rows ;;
      fill_missing idx "Category ID" cid ;;
      fill_missing idx "Category Label" clabel) s = (Ok tt, s') ∧
    columns (df s') = columns (df s) ∧
    length (rows (df s')) = length (rows (df s)) ∧
    ∀ j, rows (df s') !! j =
         if decide (j ∈ G)
         then fill_cell "Category Label" clabel
                ∘ fill_cell "Category ID" cid <$> rows (df s) !! j
         else rows (df s) !! j.
Proof.
  induction G as [|idx G IH]; intros s HcI HcL Hnd Hlt.
  - exists s. simpl. split; [done|]. split; [done|]. split; [done|].
    done.
  - apply NoDup_cons in Hnd as [Hni Hnd].
    destruct (lookup_lt_is_Some_2 (rows (df s)) idx) as [r Hr];
      [apply Hlt; set_solver|].
    destruct (fill_missing_ok idx "Category ID" cid (incr_rows s) r)
      as (s1 & E1 & C1 & R1); [done..|].
    destruct (fill_missing_ok idx "Category Label" clabel s1
                (fill_cell "Category ID" cid r))
      as (s2 & E2 & C2 & R2).
    { by rewrite C1. }
    { rewrite R1. apply list_lookup_insert_eq. by eapply lookup_lt_Some. }
    simpl in C1, R1.
    assert (length (rows (df s2)) = length (rows (df s))) as Hlen.
    { by rewrite R2, R1, !length_insert. }
    destruct (IH s2) as (s' & E' & C' & L' & R'); [congruence..|done| |].
    { intros i Hi. rewrite Hlen. apply Hlt. set_solver. }
    exists s'. split; [|split; [congruence|split; [congruence|]]].
    + simpl. unfold bind at 1. unfold bind at 1. unfold modify at 1.
      unfold bind at 1. rewrite E1. unfold bind at 1. rewrite E2. exact E'.
    + intros j. rewrite R'. rewrite R2, R1.
      destruct (decide (j = idx)) as [->|Hj].
      * rewrite decide_False by done. rewrite decide_True by set_solver.
        rewrite list_lookup_insert_eq
          by (rewrite length_insert; by eapply lookup_lt_Some).
        by rewrite Hr.
      * rewrite !list_lookup_insert_ne by done.
        destruct (decide (j ∈ G)).
        -- by rewrite decide_True by set_solver.
        -- by rewrite decide_False by set_solver.
Qed.

Lemma elem_of_group_index d k i :
  i ∈ group_index d k ↔ cell d i "Cluster ID" = Some k.
Proof.
  unfold group_index. rewrite list_elem_of_filter, elem_of_seq.
  split; [tauto|]. intros H. split; [done|]. split; [lia|]. simpl.
  unfold cell in H. destruct (rows d !! i) eqn:E; [|done].
  by eapply lookup_lt_Some.
Qed.

Lemma NoDup_group_index d k : NoDup (group_index d k).
Proof. apply NoDup_filter, NoDup_seq. Qed.

Lemma group_index_lt d k i : i ∈ group_index d k → i < length (rows d).
Proof.
  unfold group_index. rewrite list_elem_of_filter, elem_of_seq. lia.
Qed.

Lemma default_row_lookup d i c : default ∅ (rows d !! i) !! c = cell d i c.
Proof. unfold cell. by destruct (rows d !! i). Qed.

(** One turn of the loop over the groups (lines 265-294). *)
Lemma propagate_group_ok snap k s :
  has_pass1_columns snap →
  columns (df s) = columns snap → length (rows (df s)) = length (rows snap) →
  ∃ s',
    propagate_group snap k s = (Ok tt, s') ∧
    columns (df s') = columns (df s) ∧
    length (rows (df s')) = length (rows (df s)) ∧
    ∀ j, rows (df s') !! j =
         if decide (j ∈ group_index snap k)
         then propagated_row snap k <$> rows (df s) !! j
         else rows (df s) !! j.
Proof.
  intros (HcC & HcI & HcL) Hcols Hlen.
  unfold propagate_group, propagated_row, donor.
  destruct (length (group_index snap k) <=? 1)%nat eqn:Hsz.
  { exists s. repeat split; try done. intros j.
    case_decide; [|done].
    destruct (head _); by rewrite <- (option_fmap_id (rows (df s) !! j)) at 1. }
  unfold bind at 1, require_column. rewrite bool_decide_eq_true_2 by done.
  simpl.
  destruct (filter _ (group_index snap k)) as [|i0 rest] eqn:Hf; simpl.
  { exists s. repeat split; try done. intros j.
    case_decide; [|done].
    by rewrite <- (option_fmap_id (rows (df s) !! j)) at 1. }
  unfold series_get, require_column.
  rewrite !bool_decide_eq_true_2 by done.
  unfold bind at 1 2. simpl. unfold bind at 1 2. simpl.
  rewrite !default_row_lookup.
  destruct (group_rows_ok (cell snap i0 "Category ID")
              (cell snap i0 "Category Label") (group_index snap k) s)
    as (s' & E & C & L & R).
  - congruence.
  - congruence.
  - apply NoDup_group_index.
  - intros i Hi. rewrite Hlen. by eapply group_index_lt.
  - exists s'. done.
Qed.

(** The whole loop over the groups, for distinct keys. *)
Lemma propagate_groups_ok snap (ks : list value) : ∀ s,
  has_pass1_columns snap → NoDup ks →
  columns (df s) = columns snap → length (rows (df s)) = length (rows snap) →
  ∃ s',
    for_each ks (propagate_group snap) s = (Ok tt, s') ∧
    columns (df s') = columns (df s) ∧
    length (rows (df s')) = length (rows (df s)) ∧
    ∀ j, rows (df s') !! j =
         match cell snap j "Cluster ID" with
         | Some k =>
             if decide (k ∈ ks)
             then propagated_row snap k <$> rows (df s) !! j
             else rows (df s) !! j
         | None => rows (df s) !! j
         end.
Proof.
  induction ks as [|k ks IH]; intros s Hwf Hnd Hcols Hlen.
  - exists s. simpl. repeat split; try done.
    intros j. by destruct (cell snap j "Cluster ID").
  - apply NoDup_cons in Hnd as [Hni Hnd].
    destruct (propagate_group_ok snap k s) as (s1 & E1 & C1 & L1 & R1);
      [done..|].
    destruct (IH s1) as (s' & E' & C' & L' & R'); [done|done|congruence..|].
    exists s'. split; [|split; [congruence|split; [congruence|]]].
    + simpl. unfold bind. by rewrite E1.
    + intros j. rewrite R', R1.
      destruct (cell snap j "Cluster ID") as [k'|] eqn:Hk'.
      * destruct (decide (k' = k)) as [->|Hne].
        -- rewrite (decide_False (P := k ∈ ks)) by done.
           rewrite decide_True by by apply elem_of_group_index.
           by rewrite decide_True by apply list_elem_of_here.
        -- rewrite (decide_False (P := j ∈ group_index snap k)).
           2:{ rewrite elem_of_group_index. congruence. }
           destruct (decide (k' ∈ ks)).
           ++ by rewrite decide_True by by apply list_elem_of_further.
           ++ rewrite decide_False; [done|]. set_solver.
      * rewrite decide_False; [done|].
        rewrite elem_of_group_index. congruence.
Qed.

Lemma NoDup_group_keys d : NoDup (group_keys d).
Proof.
  unfold group_keys. rewrite merge_sort_Permutation. apply NoDup_remove_dups.
Qed.

Lemma elem_of_group_keys d i k :
  cell d i "Cluster ID" = Some k → k ∈ group_keys d.
Proof.
  intros H. unfold group_keys. rewrite merge_sort_Permutation.
  apply elem_of_remove_dups, list_elem_of_omap.
  unfold cell in H. destruct (rows d !! i) as [r|] eqn:Hr; [|done].
  exists r. split; [|done]. by eapply list_elem_of_lookup_2.
Qed.

(** The first pass on a frame with its three columns: it does not raise,
    and every row of a group becomes the group's [propagated_row]. *)
Lemma group_propagation_ok d :
  has_pass1_columns d →
  ∃ s',
    group_propagation (init d) = (Ok tt, s') ∧
    columns (df s') = columns d ∧
    length (rows (df s')) = length (rows d) ∧
    ∀ j, rows (df s') !! j =
         match cell d j "Cluster ID" with
         | Some k => propagated_row d k <$> rows d !! j
         | None => rows d !! j
         end.
Proof.
  intros Hwf. unfold group_propagation. unfold bind at 1, get.
  unfold bind, require_column. simpl.
  rewrite bool_decide_eq_true_2 by apply Hwf.
  destruct (propagate_groups_ok d (group_keys d) (init d))
    as (s' & E & C & L & R); [done|apply NoDup_group_keys|done..|].
  exists s'. split; [done|]. split; [done|]. split; [done|].
  intros j. rewrite R. destruct (cell d j "Cluster ID") eqn:Hk; [|done].
  by rewrite decide_True by by eapply elem_of_group_keys.
Qed.

Lemma first_value_filter d c G :
  first_value d c G =
  head (filter (λ i, isna (cell d i c) = false) G) ≫= (λ i, cell d i c).
Proof.
  unfold first_value. induction G as [|i G IH]; [done|].
  rewrite filter_cons. simpl. destruct (cell d i c) as [v|] eqn:E; simpl.
  - by rewrite E.
  - exact IH.
Qed.

Lemma donor_is_Some d k i :
  i ∈ group_index d k → cell d i "Category Label" ≠ None →
  ∃ i0, donor d k = Some i0 ∧ i0 ∈ group_index d k ∧
        cell d i0 "Category Label" ≠ None.
Proof.
  intros Hi Hv. unfold donor.
  destruct (filter _ (group_index d k)) as [|i0 l] eqn:Hf.
  - assert (i ∈ filter (λ i, isna (cell d i "Category Label") = false)
                (group_index d k)) as Hin.
    { apply list_elem_of_filter. split; [|done].
      by destruct (cell d i "Category Label"). }
    rewrite Hf in Hin. set_solver.
  - exists i0. split; [done|].
    assert (i0 ∈ i0 :: l) as Hin by apply list_elem_of_here.
    rewrite <- Hf in Hin. apply list_elem_of_filter in Hin as [Hl Hin].
    split; [done|]. by destruct (cell d i0 "Category Label").
Qed.

(** C1, as the code has it. On a table with the three columns of the
    pass, the property of the specification holds for 'Category Label':
    in a group of more than one row with a label, every member has a
    label afterwards and each cell that was missing holds the first label
    of the group in row order; a group of one row is left as it is. For
    'Category ID' the value written is the one of the first labelled row
    of the group (its donor), missing or not. No cell that held a value
    is changed, and a group without a labelled row is left as it is. *)
Theorem group_propagation_from_first_labelled_row d :
  has_pass1_columns d →
  let d' := df (after_propagation d) in
  propagation_claim "Category Label" d ∧
  (∀ k i0 i,
     1 < length (group_index d k) → donor d k = Some i0 →
     i ∈ group_index d k → cell d i "Category ID" = None →
     cell d' i "Category ID" = cell d i0 "Category ID") ∧
  (∀ k i v c, i ∈ group_index d k → cell d i c = Some v →
     cell d' i c = Some v) ∧
  (∀ k i, donor d k = None → i ∈ group_index d k →
     rows d' !! i = rows d !! i).
Proof.
  intros Hwf d'.
  destruct (group_propagation_ok d Hwf) as (s' & E & C & L & R).
  assert (d' = df s') as Hd'.
  { unfold d', after_propagation. by rewrite E. }
  assert (∀ k i, i ∈ group_index d k →
            ∃ r, rows d !! i = Some r ∧
                 rows d' !! i = Some (propagated_row d k r)) as Hrow.
  { intros k i Hi. rewrite Hd', R.
    pose proof Hi as Hk. apply elem_of_group_index in Hk. rewrite Hk.
    apply group_index_lt, lookup_lt_is_Some_2 in Hi as [r Hr].
    exists r. by rewrite Hr. }
  split; [|split; [|split]].
  - intros k G d0. subst G d0. fold d'. split.
    + intros Hsz (i1 & Hi1 & Hv1) i Hi.
      destruct (donor_is_Some d k i1 Hi1 Hv1) as (i0 & Hd & Hi0 & Hv0).
      destruct (Hrow k i Hi) as (r & Hr & Hr').
      unfold cell. rewrite Hr, Hr'. simpl.
      unfold propagated_row. rewrite Hd.
      replace (length (group_index d k) <=? 1)%nat with false
        by (symmetry; apply Nat.leb_gt; exact Hsz).
      rewrite fill_cell_lookup.
      rewrite fill_cell_lookup_ne by done.
      rewrite first_value_filter. fold (donor d k). rewrite Hd. simpl.
      destruct (r !! "Category Label") eqn:Hl; [done|].
      split; [|done]. done.
    + intros Hsz i Hi. destruct (Hrow k i Hi) as (r & Hr & Hr').
      rewrite Hr, Hr'. f_equal.
      unfold propagated_row. destruct (donor d k); [|done].
      by rewrite Hsz.
  - intros k i0 i Hsz Hd Hi Hna.
    destruct (Hrow k i Hi) as (r & Hr & Hr').
    unfold cell in Hna |- *. rewrite Hr' at 1. rewrite Hr in Hna. simpl in *.
    unfold propagated_row. rewrite Hd.
    replace (length (group_index d k) <=? 1)%nat with false
      by (symmetry; apply Nat.leb_gt; exact Hsz).
    rewrite fill_cell_lookup_ne by done. rewrite fill_cell_lookup.
    by rewrite Hna.
  - intros k i v c Hi Hv.
    destruct (Hrow k i Hi) as (r & Hr & Hr').
    unfold cell in Hv |- *. rewrite Hr'. rewrite Hr in Hv. simpl in *.
    unfold propagated_row. destruct (donor d k); [|done].
    destruct (_ <=? _)%nat; [done|].
    destruct (decide (c = "Category Label")) as [->|Hc1].
    { rewrite fill_cell_lookup.
      rewrite fill_cell_lookup_ne by done. by rewrite Hv. }
    rewrite fill_cell_lookup_ne by done.
    destruct (decide (c = "Category ID")) as [->|Hc2].
    { rewrite fill_cell_lookup. by rewrite Hv. }
    by rewrite fill_cell_lookup_ne by done.
  - intros k i Hd Hi. destruct (Hrow k i Hi) as (r & Hr & Hr').
    rewrite Hr, Hr'. unfold propagated_row. by rewrite Hd.
Qed.

Lemma has_pass1_columns_product d :
  columns d = product_columns → has_pass1_columns d.
Proof.
  intros E. unfold has_pass1_columns, product_columns in *. rewrite E.
  rewrite !elem_of_cons. auto 10.
Qed.

Lemma group_propagation_from_first_labelled_row_witness :
  has_pass1_columns shoes_and_hats ∧
  propagation_claim "Category Label" shoes_and_hats ∧
  cell (df (after_propagation shoes_and_hats)) 1 "Category Label" =
    first_value shoes_and_hats "Category Label"
      (group_index shoes_and_hats (VStr "A")).
Proof.
  assert (has_pass1_columns shoes_and_hats) as Hcols
    by (apply has_pass1_columns_product; reflexivity).
  pose proof (group_propagation_from_first_labelled_row shoes_and_hats Hcols)
    as [Hlabel _].
  split; [exact Hcols|]. split; [exact Hlabel|].
  destruct (Hlabel (VStr "A")) as [Hgroup _].
  apply Hgroup.
  - vm_compute. lia.
  - exists 0%nat. split; [vm_compute; apply list_elem_of_here|].
    vm_compute. discriminate.
  - vm_compute. apply list_elem_of_further, list_elem_of_here.
  - vm_compute. reflexivity.
Defined.

(** The property of the specification fails for 'Category ID': in a
    cluster whose first row holds a Category ID and no row holds a
    Category Label, the second row is left without a Category ID. *)
Lemma category_id_not_propagated :
  ¬ propagation_claim "Category ID" id_without_label.
Proof.
  intros H. destruct (H (VNum 1)) as [H1 _].
  destruct (H1 ltac:(vm_compute; lia)
              ltac:(exists 0; split; [vm_compute; apply list_elem_of_here
                                     |vm_compute; discriminate])
              1 ltac:(vm_compute; apply list_elem_of_further, list_elem_of_here))
    as [Hne _].
  apply Hne. vm_compute. reflexivity.
Qed.



(** *** What the fallback reads: two runs side by side *)

Lemma rel_ret {A} (a : A) : rel_M (ret a) (ret a).
Proof. by intros s1 s2 H. Qed.

Lemma rel_raise {A} e : rel_M (A := A) (raise e) (raise e).
Proof. by intros s1 s2 H. Qed.

Lemma rel_bind {A B} (m1 m2 : M FState A) (k1 k2 : A → M FState B) :
  rel_M m1 m2 → (∀ a, rel_M (k1 a) (k2 a)) →
  rel_M (bind m1 k1) (bind m2 k2).
Proof.
  intros Hm Hk s1 s2 H. unfold bind. destruct (Hm s1 s2 H) as [Ho Hs].
  destruct (m1 s1) as [[a|e] s1'], (m2 s2) as [[a'|e'] s2'];
    simpl in *; try discriminate.
  - injection Ho as ->. by apply Hk.
  - by injection Ho as ->.
Qed.

Lemma rel_try_except {A} (m1 m2 : M FState A) (h1 h2 : exn → M FState A) :
  rel_M m1 m2 → (∀ e, rel_M (h1 e) (h2 e)) →
  rel_M (try_except m1 h1) (try_except m2 h2).
Proof.
  intros Hm Hh s1 s2 H. unfold try_except. destruct (Hm s1 s2 H) as [Ho Hs].
  destruct (m1 s1) as [[a|e] s1'], (m2 s2) as [[a'|e'] s2'];
    simpl in *; try discriminate.
  - by injection Ho as ->.
  - injection Ho as ->. by apply Hh.
Qed.

Lemma rel_for_each {A} (xs : list A) (b1 b2 : A → M FState unit) :
  (∀ x, rel_M (b1 x) (b2 x)) → rel_M (for_each xs b1) (for_each xs b2).
Proof.
  intros Hb. induction xs as [|x xs IH]; simpl.
  - apply rel_ret.
  - apply rel_bind; [apply Hb|]. intros _. apply IH.
Qed.

Lemma rel_incr_rows : rel_M (modify incr_rows) (modify incr_rows).
Proof.
  intros s1 s2 (Ha & He & Hr). split; [done|]. simpl.
  split; [done|]. simpl. split; [done|]. by f_equal.
Qed.

Lemma rel_incr_enrichment :
  rel_M (modify incr_enrichment) (modify incr_enrichment).
Proof.
  intros s1 s2 (Ha & He & Hr). split; [done|]. simpl.
  split; [done|]. simpl. split; [by f_equal|done].
Qed.

Lemma rel_require_column c (cols1 cols2 : list string) :
  cols1 = cols2 → rel_M (require_column cols1 c) (require_column cols2 c).
Proof.
  intros ->. unfold require_column. case_bool_decide;
    [apply rel_ret|apply rel_raise].
Qed.

Lemma rel_series_get cols1 cols2 r1 r2 c :
  cols1 = cols2 → r1 !! c = r2 !! c →
  rel_M (series_get cols1 r1 c) (series_get cols2 r2 c).
Proof.
  intros Hc Hr. unfold series_get. apply rel_bind.
  - by apply rel_require_column.
  - intros _. rewrite Hr. apply rel_ret.
Qed.

Lemma cell_set_at idx c v d i c' :
  cell (set_at idx c v d) i c' =
  if decide (i = idx ∧ c' = c)
  then (if decide (idx < length (rows d)) then v else None)
  else cell d i c'.
Proof.
  case_decide as H.
  - destruct H as [-> ->]. case_decide as Hlt.
    + by apply cell_set_at_same.
    + unfold cell, set_at. simpl. rewrite list_lookup_alter_eq.
      rewrite (lookup_ge_None_2 (rows d) idx) by lia. done.
  - apply cell_set_at_other. apply not_and_l in H. tauto.
Qed.

Lemma agree_on_set_at cs idx c v d1 d2 :
  agree_on cs d1 d2 → agree_on cs (set_at idx c v d1) (set_at idx c v d2).
Proof.
  intros (Hc & Hl & Hv). split; [|split].
  - unfold set_at; simpl. by rewrite Hc.
  - unfold set_at; simpl. by rewrite !length_alter.
  - intros i c' Hc'. rewrite !cell_set_at, Hl. case_decide; [done|].
    by apply Hv.
Qed.

Lemma rel_at_set idx c v : rel_M (at_set idx c v) (at_set idx c v).
Proof.
  intros s1 s2 (Ha & He & Hr). split; [done|]. simpl.
  split; [|done]. simpl. by apply agree_on_set_at.
Qed.

Lemma agree_on_row cs d1 d2 i c :
  agree_on cs d1 d2 → c ∈ cs →
  default ∅ (rows d1 !! i) !! c = default ∅ (rows d2 !! i) !! c.
Proof. intros (_ & _ & Hv) Hc. rewrite !default_row_lookup. by apply Hv. Qed.

Lemma rel_at_get idx c :
  c ∈ read_columns → rel_M (at_get idx c) (at_get idx c).
Proof.
  intros Hc s1 s2 H. pose proof H as ((Hcols & Hlen & Hv) & _).
  unfold at_get, bind, get, require_column. rewrite Hcols.
  case_bool_decide; simpl; [|done].
  specialize (Hv idx c Hc). unfold cell in Hv.
  destruct (rows (df s1) !! idx) as [r1|] eqn:E1,
           (rows (df s2) !! idx) as [r2|] eqn:E2; simpl in *.
  - by rewrite Hv.
  - apply lookup_lt_Some in E1. apply lookup_ge_None in E2. lia.
  - apply lookup_lt_Some in E2. apply lookup_ge_None in E1. lia.
  - done.
Qed.

Lemma rel_fill_missing idx c v :
  c ∈ read_columns → rel_M (fill_missing idx c v) (fill_missing idx c v).
Proof.
  intros Hc. unfold fill_missing. apply rel_bind; [by apply rel_at_get|].
  intros cur. destruct (isna cur); [|apply rel_ret].
  apply rel_bind; [apply rel_at_set|]. intros _. apply rel_incr_enrichment.
Qed.

Lemma in_read_columns c :
  c = "Cluster ID" ∨ c = "Category ID" ∨ c = "Category Label"
  ∨ c = "Product Title" → c ∈ read_columns.
Proof. unfold read_columns. set_solver. Qed.

Lemma filter_ext_in {A} (P Q : A → Prop) `{∀ x, Decision (P x)}
    `{∀ x, Decision (Q x)} (l : list A) :
  (∀ x, x ∈ l → P x ↔ Q x) → filter P l = filter Q l.
Proof.
  induction l as [|x l IH]; intros HPQ; [done|].
  rewrite !filter_cons.
  rewrite IH by (intros y Hy; apply HPQ; by apply list_elem_of_further).
  destruct (decide (P x)) as [HP|HP], (decide (Q x)) as [HQ|HQ]; try done.
  - apply HPQ in HP; [done|apply list_elem_of_here].
  - apply HPQ in HQ; [done|apply list_elem_of_here].
Qed.

Lemma omap_agree (c : string) (l1 : list (gmap string value)) :
  ∀ l2 : list (gmap string value),
  length l1 = length l2 →
  (∀ i, l1 !! i ≫= (.!! c) = l2 !! i ≫= (.!! c)) →
  omap (.!! c) l1 = omap (.!! c) l2.
Proof.
  induction l1 as [|r1 l1 IH]; intros [|r2 l2] Hl Hv; try done.
  pose proof (Hv 0) as H0. simpl in H0.
  assert (omap (.!! c) l1 = omap (.!! c) l2) as Ht.
  { apply IH; [by injection Hl|]. intros i. apply (Hv (S i)). }
  simpl. rewrite H0. unfold omap in Ht. by rewrite Ht.
Qed.

Lemma agree_group_index d1 d2 k :
  agree_on read_columns d1 d2 → group_index d1 k = group_index d2 k.
Proof.
  intros (_ & Hl & Hv). unfold group_index. rewrite Hl.
  apply filter_ext_in. intros i _.
  by rewrite Hv by (apply in_read_columns; auto).
Qed.

Lemma agree_group_keys d1 d2 :
  agree_on read_columns d1 d2 → group_keys d1 = group_keys d2.
Proof.
  intros (_ & Hl & Hv). unfold group_keys. do 2 f_equal.
  apply omap_agree; [done|]. intros i.
  apply (Hv i "Cluster ID"). apply in_read_columns; auto.
Qed.

Lemma rel_propagate_group snap1 snap2 k :
  agree_on read_columns snap1 snap2 →
  rel_M (propagate_group snap1 k) (propagate_group snap2 k).
Proof.
  intros Ha. pose proof Ha as (Hc & Hl & Hv). unfold propagate_group.
  rewrite (agree_group_index _ _ _ Ha).
  destruct (length (group_index snap2 k) <=? 1)%nat; [apply rel_ret|].
  apply rel_bind; [by apply rel_require_column|]. intros _.
  rewrite (filter_ext_in
             (λ i, isna (cell snap1 i "Category Label") = false)
             (λ i, isna (cell snap2 i "Category Label") = false)).
  2:{ intros i _. by rewrite Hv by (apply in_read_columns; auto). }
  destruct (filter _ (group_index snap2 k)) as [|i0 rest]; [apply rel_ret|].
  apply rel_bind.
  { apply rel_series_get; [done|].
    eapply agree_on_row; [done|]. apply in_read_columns; auto. }
  intros category_id. apply rel_bind.
  { apply rel_series_get; [done|].
    eapply agree_on_row; [done|]. apply in_read_columns; auto. }
  intros category_label. apply rel_for_each. intros idx.
  apply rel_bind; [apply rel_incr_rows|]. intros _.
  apply rel_bind; [apply rel_fill_missing; apply in_read_columns; auto|].
  intros _. apply rel_fill_missing; apply in_read_columns; auto.
Qed.

Lemma group_propagation_unfold s :
  group_propagation s =
  (require_column (columns (df s)) "Cluster ID" ;;
   for_each (group_keys (df s)) (propagate_group (df s))) s.
Proof. reflexivity. Qed.

Lemma rel_group_propagation : rel_M group_propagation group_propagation.
Proof.
  intros s1 s2 Hs. pose proof Hs as (Ha & _).
  rewrite !group_propagation_unfold.
  rewrite (agree_group_keys _ _ Ha).
  apply rel_bind; [| |done].
  - apply rel_require_column. apply Ha.
  - intros _. apply rel_for_each. intros k. by apply rel_propagate_group.
Qed.

Section residual.
Variable tool : option value → outcome string.

Lemma rel_call_search_tool q :
  rel_M (call_search_tool tool q) (call_search_tool tool q).
Proof. by intros s1 s2 H. Qed.

Lemma rel_needs_lookup cols r1 r2 :
  (∀ c, c ∈ read_columns → r1 !! c = r2 !! c) →
  rel_M (needs_lookup cols r1) (needs_lookup cols r2).
Proof.
  intros Hr. unfold needs_lookup. apply rel_bind.
  { apply rel_series_get; [done|]. apply Hr, in_read_columns; auto. }
  intros cid. destruct (isna cid); [apply rel_ret|].
  apply rel_bind.
  { apply rel_series_get; [done|]. apply Hr, in_read_columns; auto. }
  intros cl. apply rel_ret.
Qed.

Lemma rel_fill_from_search cols idx r1 r2 c m :
  c ∈ read_columns → r1 !! c = r2 !! c →
  rel_M (fill_from_search cols idx r1 c m) (fill_from_search cols idx r2 c m).
Proof.
  intros Hc Hr. destruct m as [g|]; simpl; [|apply rel_ret].
  apply rel_bind; [by apply rel_series_get|].
  intros cur. destruct (isna cur); [|apply rel_ret].
  apply rel_bind; [apply rel_at_set|]. intros _. apply rel_incr_enrichment.
Qed.

Lemma rel_residual_row cols idx r1 r2 :
  (∀ c, c ∈ read_columns → r1 !! c = r2 !! c) →
  rel_M (residual_row tool cols idx r1) (residual_row tool cols idx r2).
Proof.
  intros Hr. unfold residual_row.
  apply rel_bind; [by apply rel_needs_lookup|].
  intros [|]; [|apply rel_ret].
  apply rel_bind; [apply rel_incr_rows|]. intros _.
  apply rel_bind.
  { apply rel_series_get; [done|]. apply Hr, in_read_columns; auto. }
  intros product_title. apply rel_try_except; [|intros _; apply rel_ret].
  unfold search_and_fill.
  apply rel_bind; [apply rel_call_search_tool|]. intros search_result.
  apply rel_bind.
  - apply rel_fill_from_search; [|apply Hr]; apply in_read_columns; auto.
  - intros _.
    apply rel_fill_from_search; [|apply Hr]; apply in_read_columns; auto.
Qed.

Lemma rel_residual_loop cols (rs1 : list (gmap string value)) :
  ∀ rs2 idx,
  length rs1 = length rs2 →
  (∀ i c, c ∈ read_columns →
     rs1 !! i ≫= (.!! c) = rs2 !! i ≫= (.!! c)) →
  rel_M (residual_loop tool cols idx rs1) (residual_loop tool cols idx rs2).
Proof.
  induction rs1 as [|r1 rs1 IH]; intros [|r2 rs2] idx Hl Hv;
    try discriminate Hl.
  - apply rel_ret.
  - simpl. apply rel_bind.
    + apply rel_residual_row. intros c Hc. apply (Hv 0 c Hc).
    + intros _. apply IH; [by injection Hl|].
      intros i c Hc. apply (Hv (S i) c Hc).
Qed.

Lemma rel_residual_lookup :
  rel_M (residual_lookup tool) (residual_lookup tool).
Proof.
  intros s1 s2 Hs. pose proof Hs as ((Hc & Hl & Hv) & _).
  change (residual_lookup tool s1)
    with (residual_loop tool (columns (df s1)) 0 (rows (df s1)) s1).
  change (residual_lookup tool s2)
    with (residual_loop tool (columns (df s2)) 0 (rows (df s2)) s2).
  rewrite Hc. by apply rel_residual_loop.
Qed.

Lemma rel_fallback_passes :
  rel_M (fallback_passes tool) (fallback_passes tool).
Proof.
  unfold fallback_passes. apply rel_try_except; [|intros _; apply rel_ret].
  apply rel_bind; [apply rel_group_propagation|].
  intros _. apply rel_residual_lookup.
Qed.

(** On two frames that agree in the four columns read, the two passes
    fill the same cells with the same values and count alike. *)
Lemma enrich_agree d1 d2 :
  agree_on read_columns d1 d2 → sim (enrich tool d1) (enrich tool d2).
Proof.
  intros Ha. unfold enrich. apply rel_fallback_passes. by split.
Qed.
End residual.

(** *** The frame of the fallback *)

(** A frame that only had missing category cells filled, and had none
    missing, is the frame it was. *)
Lemma fills_only_fully_filled d d' :
  fills_only d d' → fully_filled d → d' = d.
Proof.
  destruct d as [cs rs], d' as [cs' rs'].
  intros (Hc & Hl & Hcell) Hfull. cbn in *. f_equal; [done|].
  apply list_eq. intros i.
  destruct (rs !! i) as [r|] eqn:E.
  - destruct (lookup_lt_is_Some_2 rs' i) as [r' E'].
    { rewrite Hl. by eapply lookup_lt_Some. }
    rewrite E'. f_equal. apply map_eq. intros c.
    destruct (Hcell i c) as [H|[H Hcat]]; unfold cell in H; cbn in H;
      rewrite ?E, ?E' in H; cbn in H; [done|].
    destruct (Hfull i r E) as [Hid Hlabel].
    by destruct Hcat as [-> | ->].
  - apply lookup_ge_None. rewrite Hl. by apply lookup_ge_None.
Qed.

Lemma apply_enrichments_fallback_eq self r w d :
  csv_files w !! AgentsCrew.input_csv_path self = Some d →
  AgentsCrew._apply_enrichments_fallback self r w =
    (Ok tt,
     set_csv_files
       (<[AgentsCrew.output_csv_path self :=
            df (enrich (AgentsCrew.csv_search_tool self) d)]>)
       (log EvFallback w)).
Proof.
  intros Hin. unfold AgentsCrew._apply_enrichments_fallback.
  unfold bind at 1. unfold modify at 1.
  unfold bind at 1. unfold AgentsCrew.read_csv.
  unfold bind at 1. unfold get.
  cbn [csv_files log]. rewrite Hin. reflexivity.
Qed.

Lemma fallback_output_eq self w d :
  csv_files w !! AgentsCrew.input_csv_path self = Some d →
  fallback_output self w =
    Some (df (enrich (AgentsCrew.csv_search_tool self) d)).
Proof.
  intros Hin. unfold fallback_output.
  rewrite (apply_enrichments_fallback_eq _ _ _ _ Hin).
  cbn [snd set_csv_files csv_files]. apply lookup_insert_eq.
Qed.

(** C3. The fallback keeps every value the table holds: a cell with a
    value has the same value afterwards.  On a table in which no category
    cell is missing it returns the table as it was, it does so again on
    its own result, and the file it saves is that table. *)
Theorem fallback_never_overwrites tool d :
  let d' := df (enrich tool d) in
  (∀ i c v, cell d i c = Some v → cell d' i c = Some v) ∧
  (fully_filled d →
     d' = d ∧ df (enrich tool d') = d ∧
     ∀ self w,
       AgentsCrew.csv_search_tool self = tool →
       csv_files w !! AgentsCrew.input_csv_path self = Some d →
       fallback_output self w = Some d).
Proof.
  intros d'. pose proof (enrich_fills tool d) as Hfills.
  split.
  - intros i c v Hv. destruct Hfills as (_ & _ & Hcell).
    destruct (Hcell i c) as [H|[H _]]; fold d' in H; congruence.
  - intros Hfull.
    assert (d' = d) as Hd by by apply fills_only_fully_filled.
    split; [done|]. split; [by rewrite !Hd|].
    intros self w <- Hin. rewrite (fallback_output_eq _ _ _ Hin). by f_equal.
Qed.

Lemma fully_filled_filled_table : fully_filled filled_table.
Proof.
  intros i r Hr. destruct i as [|[|i]]; cbn in Hr; [| |done];
    injection Hr as <-; split; by vm_compute.
Qed.

Lemma fallback_never_overwrites_witness :
  fully_filled filled_table ∧
  df (enrich title_tool filled_table) = filled_table.
Proof.
  split; [exact fully_filled_filled_table|].
  destruct (fallback_never_overwrites title_tool filled_table) as [_ Hfull].
  apply Hfull. exact fully_filled_filled_table.
Defined.

Lemma agree_titled_tables :
  agree_on ["Cluster ID"; "Category ID"; "Category Label"]
    (titled_table "phone a") (titled_table "phone b").
Proof.
  split; [done|]. split; [done|]. intros i c Hc.
  destruct i as [|i]; [|done].
  rewrite !elem_of_cons, elem_of_nil in Hc.
  by destruct Hc as [-> | [-> | [-> | []]]].
Qed.

(** The fallback does not read the three named columns alone: two tables
    that agree there and differ in the product title are filled
    differently. *)
Lemma product_title_is_read :
  ¬ reads_only ["Cluster ID"; "Category ID"; "Category Label"].
Proof.
  intros Hreads.
  specialize (Hreads title_tool _ _ agree_titled_tables 0%nat "Category ID"
                (or_introl eq_refl)).
  vm_compute in Hreads. discriminate Hreads.
Qed.

(** C10. The fallback keeps the columns and the number of rows of the
    table and every cell outside 'Category ID' and 'Category Label'; the
    list of category columns given to the crew changes nothing of what
    the fallback does; and what it fills is decided by the columns
    'Cluster ID', 'Category ID', 'Category Label' and 'Product Title' of
    the table, and by the search tool. *)
Theorem fallback_frame_and_read_set :
  (∀ tool d,
     let d' := df (enrich tool d) in
     columns d' = columns d ∧ length (rows d') = length (rows d) ∧
     ∀ i c, ¬ cat_col c → cell d' i c = cell d i c) ∧
  (∀ self cols crew_result,
     AgentsCrew._apply_enrichments_fallback
       (with_category_columns cols self) crew_result =
     AgentsCrew._apply_enrichments_fallback self crew_result) ∧
  reads_only read_columns.
Proof.
  split; [|split].
  - intros tool d d'. destruct (enrich_fills tool d) as (Hc & Hl & Hcell).
    split; [done|]. split; [done|].
    intros i c Hc'. by destruct (Hcell i c) as [H|[_ H]].
  - reflexivity.
  - intros tool d1 d2 Hagree i c Hcat.
    destruct (enrich_agree tool d1 d2 Hagree) as ((_ & _ & Hcell) & _).
    apply Hcell. unfold read_columns. rewrite !elem_of_cons.
    destruct Hcat as [-> | ->]; auto.
Qed.

Lemma fallback_frame_and_read_set_witness :
  cell (df (enrich title_tool (titled_table "phone a"))) 0 "Product Title" =
    Some (VStr "phone a") ∧
  cell (df (enrich title_tool (titled_table "phone a"))) 0 "Category ID" =
    Some (VStr "2612").
Proof.
  destruct fallback_frame_and_read_set as (Hframe & _ & _).
  destruct (Hframe title_tool (titled_table "phone a")) as (_ & _ & Hcell).
  split; [|vm_compute; reflexivity].
  rewrite Hcell; [reflexivity|].
  intros [Hc | Hc]; discriminate Hc.
Defined.

(** *** The tracker: JSON and the four operations *)

Lemma bind_ok {S A B} (m : M S A) (k : A → M S B) s a s' :
  m s = (Ok a, s') → bind m k s = k a s'.
Proof. intros E. unfold bind. by rewrite E. Qed.

Lemma bind_raise {S A B} (m : M S A) (k : A → M S B) s e s' :
  m s = (Raise e, s') → bind m k s = (Raise e, s').
Proof. intros E. unfold bind. by rewrite E. Qed.

Lemma load_fields_dump (l : list (string * json)) : ∀ acc,
  Tracker.load_fields (map (λ kv, CField kv.1 kv.2) l ++ [CClose]) acc =
  Some (foldl (λ a kv, <[kv.1 := kv.2]> a) acc l).
Proof.
  induction l as [|[k v] l IH]; intros acc; [done|].
  simpl. rewrite <- IH. by destruct (map _ l ++ [CClose])%list.
Qed.

Lemma foldl_insert_list_to_map (l : list (string * json)) :
  foldl (λ (a : gmap string json) kv, <[kv.1 := kv.2]> a) ∅ l =
  list_to_map (reverse l).
Proof.
  rewrite <- (reverse_involutive l) at 1. generalize (reverse l). clear l.
  intros l. induction l as [|[k v] l IH]; [done|].
  rewrite reverse_cons, foldl_app. simpl. by rewrite IH.
Qed.

Lemma json_load_dump (m : gmap string json) :
  Tracker.json_load (Tracker.json_dump m) = Some m.
Proof.
  unfold Tracker.json_load, Tracker.json_dump.
  rewrite load_fields_dump, foldl_insert_list_to_map. f_equal.
  rewrite <- (list_to_map_to_list m) at 2.
  apply list_to_map_proper.
  - rewrite fmap_reverse, reverse_Permutation. apply NoDup_fst_map_to_list.
  - apply reverse_Permutation.
Qed.

Lemma load_fields_no_close (cs : list chunk) : ∀ acc,
  CClose ∉ cs → Tracker.load_fields cs acc = None.
Proof.
  induction cs as [|c cs IH]; intros acc H; [done|].
  destruct c; simpl.
  - done.
  - apply IH. set_solver.
  - set_solver.
Qed.

(** A record cut short does not parse. *)
Lemma json_load_truncated (m : gmap string json) n :
  n < length (Tracker.json_dump m) →
  Tracker.json_load (take n (Tracker.json_dump m)) = None.
Proof.
  unfold Tracker.json_dump. intros Hn. destruct n as [|n]; [done|].
  simpl in *. apply load_fields_no_close.
  rewrite length_app in Hn. simpl in Hn.
  rewrite take_app_le by lia.
  intros Hin. apply elem_of_take in Hin as (i & Hin & _).
  apply list_elem_of_lookup_2 in Hin.
  apply list_elem_of_fmap in Hin as ([k v] & [=] & _).
Qed.

Lemma list_alter_insert {A} (f : A → A) (l : list A) i x :
  l !! i = Some x → alter f i l = <[i := f x]> l.
Proof.
  intros H. apply list_eq. intros j. destruct (decide (j = i)) as [->|Hj].
  - rewrite list_lookup_alter_eq, H.
    by rewrite list_lookup_insert_eq by (by eapply lookup_lt_Some).
  - by rewrite list_lookup_alter_ne, list_lookup_insert_ne.
Qed.

Lemma save_state_eq self t w :
  objects w !! self = Some t →
  Tracker._save_state self w =
  Tracker.write_json (Tracker.file_path_of (task_id t))
    (Tracker.state_dict t (clock w - start_time t)%Q) w.
Proof.
  intros H. unfold Tracker._save_state, Tracker.get_state, Tracker.time,
    Tracker.deref, bind, ret. by rewrite !H.
Qed.

Lemma assign_save_eq self f t w :
  objects w !! self = Some t →
  (Tracker.assign self f ;; Tracker._save_state self) w =
  Tracker.write_json (Tracker.file_path_of (task_id (f t)))
    (Tracker.state_dict (f t) (clock w - start_time (f t))%Q)
    (set_objects (<[self := f t]>) w).
Proof.
  intros H. unfold bind. unfold Tracker.assign, modify.
  rewrite (save_state_eq self (f t)).
  - unfold set_objects; simpl. by rewrite (list_alter_insert f _ _ t).
  - simpl. by rewrite list_lookup_alter_eq, H.
Qed.

Lemma write_json_ok path st w :
  pending_fault w = None →
  Tracker.write_json path st w =
  (Ok tt, log (EvWrite path (Tracker.json_dump st))
            (set_progress_files (<[path := Tracker.json_dump st]>) w)).
Proof. intros H. unfold Tracker.write_json. by rewrite H. Qed.

Lemma update_ok self t p m st w :
  objects w !! self = Some t → pending_fault w = None →
  Tracker.update self p m st w = (Ok tt, commit self (updated p m st t) w).
Proof.
  intros Ht Hf. unfold Tracker.update.
  rewrite (assign_save_eq self _ t) by done. by rewrite write_json_ok.
Qed.

Lemma complete_ok self t r w :
  objects w !! self = Some t → pending_fault w = None →
  Tracker.complete self r w = (Ok tt, commit self (completed r t) w).
Proof.
  intros Ht Hf. unfold Tracker.complete.
  rewrite (assign_save_eq self _ t) by done. by rewrite write_json_ok.
Qed.

Lemma fail_ok self t e w :
  objects w !! self = Some t → pending_fault w = None →
  Tracker.fail self e w = (Ok tt, commit self (failed e t) w).
Proof.
  intros Ht Hf. unfold Tracker.fail.
  rewrite (assign_save_eq self _ t) by done. by rewrite write_json_ok.
Qed.

Lemma init_eq tid w :
  Tracker.__init__ tid w =
  (Tracker.write_json (Tracker.file_path_of tid)
     (Tracker.state_dict (created tid (clock w)) (clock w - clock w)%Q) ;;
   ret (length (objects w)))
    (set_objects (λ os, (os ++ [created tid (clock w)])%list) w).
Proof.
  unfold Tracker.__init__, Tracker.time. unfold bind at 1 2 3, get, modify.
  unfold bind at 1.
  rewrite (save_state_eq _ (created tid (clock w))); [done|].
  simpl. by rewrite lookup_app_r, Nat.sub_diag.
Qed.

Lemma init_ok tid w :
  pending_fault w = None →
  Tracker.__init__ tid w =
  (Ok (length (objects w)),
   saved (created tid (clock w))
     (set_objects (λ os, (os ++ [created tid (clock w)])%list) w)).
Proof.
  intros Hf. rewrite init_eq. unfold bind. by rewrite write_json_ok.
Qed.

(** What a poll reads from a record written whole. *)
Lemma state_dict_read t el :
  Tracker.json_load (Tracker.json_dump (Tracker.state_dict t el)) =
    Some (Tracker.state_dict t el) ∧
  Tracker.state_dict t el !! "status" = Some (JStr (status t)) ∧
  Tracker.state_dict t el !! "progress" = Some (JNum (progress t)) ∧
  Tracker.state_dict t el !! "result" =
    Some (Tracker.json_of_option (result t)) ∧
  Tracker.state_dict t el !! "error" =
    Some (Tracker.json_of_option (error t)).
Proof. split; [apply json_load_dump|]. repeat split. Qed.

Lemma length_json_dump_state t el :
  length (Tracker.json_dump (Tracker.state_dict t el)) = 9.
Proof. reflexivity. Qed.

(** *** The job runner, step by step *)

Lemma try_except_ok {S A} (m : M S A) (h : exn → M S A) s a s' :
  m s = (Ok a, s') → try_except m h s = (Ok a, s').
Proof. intros E. unfold try_except. by rewrite E. Qed.

Lemma try_except_raise {S A} (m : M S A) (h : exn → M S A) s e s' :
  m s = (Raise e, s') → try_except m h s = h e s'.
Proof. intros E. unfold try_except. by rewrite E. Qed.

Lemma lookup_app_last {A} (l : list A) x :
  (l ++ [x])%list !! length l = Some x.
Proof. by rewrite lookup_app_r, Nat.sub_diag. Qed.

Lemma insert_app_last {A} (l : list A) x y :
  <[length l := y]> (l ++ [x])%list = (l ++ [y])%list.
Proof.
  rewrite insert_app_r_alt by lia. by rewrite Nat.sub_diag.
Qed.

Ltac norm :=
  cbn [progress_files csv_files objects active_tasks clock pending_fault trace
       commit saved log set_progress_files set_csv_files set_objects
       set_active_tasks set_clock set_pending_fault commits kicked_off
       before_kickoff started fst snd];
  rewrite ?insert_app_last.

Ltac solve_obj :=
  norm;
  first [ apply lookup_app_last
        | eassumption
        | apply list_lookup_insert_eq; rewrite ?length_insert;
          eapply lookup_lt_Some; eassumption ].

(** One operation of the tracker at the head of a sequence. *)
Ltac step_with L :=
  erewrite bind_ok;
  [|erewrite L; [reflexivity|solve_obj|norm; eassumption]].

Lemma crew_kickoff_eq env w r files :
  kickoff env (csv_files w) = (r, files) →
  AgentsCrew.crew_kickoff env w =
  (r, set_csv_files (λ _, files) (log EvKickoff w)).
Proof.
  intros H. unfold AgentsCrew.crew_kickoff, bind, modify. norm.
  by rewrite H.
Qed.

Section run.
Context (env : Env) (self : AgentsCrew.CSVEnrichmentCrew) (l : nat)
        (t : ProgressTracker) (w : World).
Hypothesis Htracker : AgentsCrew.progress_tracker self = Some l.
Hypothesis Hobj : objects w !! l = Some t.
Hypothesis Hfault : pending_fault w = None.

Lemma run_kickoff_raises e files :
  kickoff env (csv_files w) = (Raise e, files) →
  AgentsCrew.run env self w = (Raise e, kicked_off l t files w).
Proof.
  intros Hkick. unfold AgentsCrew.run, AgentsCrew._update_progress.
  rewrite Htracker.
  do 4 step_with update_ok.
  erewrite bind_raise; [reflexivity|].
  by apply crew_kickoff_eq.
Qed.

Lemma run_agent_wrote r files :
  kickoff env (csv_files w) = (Ok r, files) →
  is_Some (files !! AgentsCrew.output_csv_path self) →
  AgentsCrew.run env self w =
  (Ok (AgentsCrew.output_csv_path self),
   commit l (complete_tracker t)
     (commit l (finalizing_tracker t) (kicked_off l t files w))).
Proof.
  intros Hkick Hout. unfold AgentsCrew.run, AgentsCrew._update_progress.
  rewrite Htracker.
  do 4 step_with update_ok.
  erewrite bind_ok; [|by apply crew_kickoff_eq].
  step_with update_ok.
  unfold AgentsCrew.path_exists at 1. unfold bind at 1 2, get, ret. norm.
  rewrite bool_decide_eq_true_2 by done.
  unfold bind at 1, ret.
  step_with update_ok. reflexivity.
Qed.

Lemma run_no_input r files :
  kickoff env (csv_files w) = (Ok r, files) →
  files !! AgentsCrew.output_csv_path self = None →
  files !! AgentsCrew.input_csv_path self = None →
  AgentsCrew.run env self w =
  (Raise (FileNotFoundError (AgentsCrew.input_csv_path self)),
   log EvFallback
     (commit l (finalizing_tracker t) (kicked_off l t files w))).
Proof.
  intros Hkick Hout Hin. unfold AgentsCrew.run, AgentsCrew._update_progress.
  rewrite Htracker.
  do 4 step_with update_ok.
  erewrite bind_ok; [|by apply crew_kickoff_eq].
  step_with update_ok.
  unfold AgentsCrew.path_exists at 1. unfold bind at 1 2, get, ret. norm.
  rewrite bool_decide_eq_false_2 by (rewrite Hout; by intros [? ?]).
  erewrite bind_raise; [reflexivity|].
  unfold AgentsCrew._apply_enrichments_fallback, AgentsCrew.read_csv.
  unfold bind, modify, get, raise. norm. by rewrite Hin.
Qed.

Lemma run_fallback r files d :
  kickoff env (csv_files w) = (Ok r, files) →
  files !! AgentsCrew.output_csv_path self = None →
  files !! AgentsCrew.input_csv_path self = Some d →
  AgentsCrew.run env self w =
  (Ok (AgentsCrew.output_csv_path self),
   commit l (complete_tracker t)
     (set_csv_files
        (<[AgentsCrew.output_csv_path self :=
             Fallback.df
               (Fallback.enrich (AgentsCrew.csv_search_tool self) d)]>)
        (log EvFallback
           (commit l (finalizing_tracker t) (kicked_off l t files w))))).
Proof.
  intros Hkick Hout Hin. unfold AgentsCrew.run, AgentsCrew._update_progress.
  rewrite Htracker.
  do 4 step_with update_ok.
  erewrite bind_ok; [|by apply crew_kickoff_eq].
  step_with update_ok.
  unfold AgentsCrew.path_exists at 1. unfold bind at 1 2, get, ret. norm.
  rewrite bool_decide_eq_false_2 by (rewrite Hout; by intros [? ?]).
  erewrite bind_ok.
  2:{ unfold AgentsCrew._apply_enrichments_fallback, AgentsCrew.read_csv,
        AgentsCrew.to_csv.
      unfold bind, modify, get, ret. norm. rewrite Hin. reflexivity. }
  step_with update_ok. reflexivity.
Qed.
End run.

Lemma set_task_field_ok tid key v w info :
  active_tasks w !! tid = Some info →
  Backend.set_task_field tid key v w =
  (Ok tt, set_active_tasks (<[tid := <[key := v]> info]>) w).
Proof.
  intros H. unfold Backend.set_task_field, Backend.getitem.
  unfold bind, get, ret, modify. by rewrite H.
Qed.

Section process_file.
Context (env : Env) (tid inp : string) (cols : list string) (w : World)
        (info : gmap string json).
Hypothesis Hfault : pending_fault w = None.
Hypothesis Hinfo : active_tasks w !! tid = Some info.

Let l := length (objects w).

(** The [except] clause of [process_file], lines 200-206. *)
Lemma handler_ok e t w1 :
  objects w1 !! l = Some t → pending_fault w1 = None →
  active_tasks w1 = active_tasks w →
  (Tracker.fail l (str e) ;;
   Backend.set_task_field tid "status" (JStr "failed") ;;
   Backend.set_task_field tid "error" (JStr (str e))) w1 =
  (Ok tt, ended_failed tid info l t e w1).
Proof.
  intros Hobj Hf Hact.
  step_with fail_ok.
  erewrite bind_ok; [|apply set_task_field_ok; norm; by rewrite Hact].
  erewrite set_task_field_ok; [reflexivity|].
  norm. apply lookup_insert_eq.
Qed.

(** Lines 193-198. *)
Lemma success_ok out t w1 :
  objects w1 !! l = Some t → pending_fault w1 = None →
  active_tasks w1 = active_tasks w →
  (Tracker.complete l (Some out) ;;
   Backend.set_task_field tid "status" (JStr "completed") ;;
   Backend.set_task_field tid "output_file" (JStr out)) w1 =
  (Ok tt, ended_completed tid info l t out w1).
Proof.
  intros Hobj Hf Hact.
  step_with complete_ok.
  erewrite bind_ok; [|apply set_task_field_ok; norm; by rewrite Hact].
  erewrite set_task_field_ok; [reflexivity|].
  norm. apply lookup_insert_eq.
Qed.

Lemma started_obj :
  objects (started tid w) !! l = Some (starting_tracker tid w).
Proof. norm. apply lookup_app_last. Qed.

Lemma process_file_tools_raise e :
  make_tools env = Raise e →
  Backend.process_file env tid inp cols w =
  (Ok tt, ended_failed tid info l (starting_tracker tid w) e
            (started tid w)).
Proof.
  intros Htools. unfold Backend.process_file.
  erewrite bind_ok; [|by apply init_ok].
  erewrite try_except_raise.
  2:{ step_with update_ok.
      erewrite bind_raise; [reflexivity|].
      unfold AgentsCrew.__init__. by rewrite Htools. }
  apply handler_ok; [apply started_obj|done..].
Qed.

Section with_tools.
Context (tool : option value → outcome string).
Hypothesis Htools : make_tools env = Ok tool.

Let crew := job_crew env inp cols l tool.
Let t1 := starting_tracker tid w.

(** [process_file] follows [run]: what [run] raises fails the job,
    what it returns completes it. *)
Lemma process_file_run_raises e w1 :
  AgentsCrew.run env crew (started tid w) = (Raise e, w1) →
  ∀ t, objects w1 !! l = Some t → pending_fault w1 = None →
  active_tasks w1 = active_tasks w →
  Backend.process_file env tid inp cols w =
  (Ok tt, ended_failed tid info l t e w1).
Proof.
  intros Hrun t Hobj Hf Hact. unfold Backend.process_file.
  erewrite bind_ok; [|by apply init_ok].
  erewrite try_except_raise.
  2:{ step_with update_ok.
      unfold AgentsCrew.__init__. rewrite Htools.
      erewrite bind_ok; [|reflexivity].
      erewrite bind_raise; [reflexivity|]. exact Hrun. }
  by apply handler_ok.
Qed.

Lemma process_file_run_returns out w1 :
  AgentsCrew.run env crew (started tid w) = (Ok out, w1) →
  ∀ t, objects w1 !! l = Some t → pending_fault w1 = None →
  active_tasks w1 = active_tasks w →
  Backend.process_file env tid inp cols w =
  (Ok tt, ended_completed tid info l t out w1).
Proof.
  intros Hrun t Hobj Hf Hact. unfold Backend.process_file.
  erewrite bind_ok; [|by apply init_ok].
  erewrite try_except_ok; [reflexivity|].
  step_with update_ok.
  unfold AgentsCrew.__init__. rewrite Htools.
  erewrite bind_ok; [|reflexivity].
  erewrite bind_ok; [|exact Hrun].
  by apply success_ok.
Qed.
End with_tools.
End process_file.

(** *** What a job leaves behind *)

Lemma reported_write path t el evs :
  reported_progress path
    (EvWrite path (Tracker.json_dump (Tracker.state_dict t el)) :: evs) =
  progress t :: reported_progress path evs.
Proof.
  unfold reported_progress. cbn [omap list_omap].
  rewrite decide_True by done. rewrite json_load_dump.
  cbn [mbind option_bind].
  by destruct (state_dict_read t el) as (_ & _ & -> & _).
Qed.

Lemma reported_kickoff path evs :
  reported_progress path (EvKickoff :: evs) = reported_progress path evs.
Proof. done. Qed.

Lemma reported_fallback path evs :
  reported_progress path (EvFallback :: evs) = reported_progress path evs.
Proof. done. Qed.

Lemma polled_saved tid t w :
  task_id t = tid →
  polled tid (saved t w) =
  Some (Tracker.state_dict t (clock w - start_time t)%Q).
Proof.
  intros <-. unfold polled. cbn [progress_files saved log set_progress_files].
  rewrite lookup_insert_eq. apply json_load_dump.
Qed.

Ltac tracker_norm :=
  cbn [task_id start_time status progress message result error
       updated completed failed created starting_tracker finalizing_tracker
       complete_tracker tracker_after before_kickoff foldl fst snd].

Ltac world_norm :=
  cbn [progress_files csv_files objects active_tasks clock pending_fault trace
       commit saved log set_progress_files set_csv_files set_objects
       set_active_tasks set_clock set_pending_fault commits kicked_off
       before_kickoff started ended_failed ended_completed registry_set
       fst snd].

Lemma not_elem_of_cons_ne {A} (x y : A) l : x ≠ y → x ∉ l → x ∉ y :: l.
Proof. intros ? ? [->|?]%elem_of_cons; done. Qed.

Ltac no_fallback :=
  split; [intros Hin; exfalso; revert Hin;
          repeat (apply not_elem_of_cons_ne; [discriminate|]);
          apply not_elem_of_nil
         |discriminate].

Ltac has_fallback :=
  split; [reflexivity|intros _;
          repeat first [apply list_elem_of_here|apply list_elem_of_further]].

Ltac report_facts :=
  cbv zeta; cbn [fallback_entered]; tracker_norm; world_norm;
  repeat first [rewrite reported_write | rewrite reported_kickoff
               | rewrite reported_fallback];
  tracker_norm;
  repeat match goal with
         | |- _ ∧ _ => split
         | |- _ = _ => reflexivity
         | |- _ ∈ _ ↔ false = true => no_fallback
         | |- _ ∈ _ ↔ true = true => has_fallback
         | |- is_Some _ => eassumption
         | |- <[_ := _]> _ !! _ = Some _ => apply lookup_insert_eq
         end.

Section report.
Context (env : Env) (tid inp : string) (cols : list string) (w : World).
Hypothesis Hready : ready tid w.

Let path := Tracker.file_path_of tid.

Lemma process_file_report :
  ∃ w' evs rec,
    job_ran env tid inp cols w w' evs rec ∧
    let s := scenario_of env inp w in
    reported_progress path evs = expected_progress s ∧
    rec !! "status" = Some (JStr (expected_status s)) ∧
    rec !! "error" = Some (expected_error inp s) ∧
    (EvFallback ∈ evs ↔ fallback_entered s = true) ∧
    match s with
    | FallbackRan tool d =>
        csv_files w' !! output_path env inp =
          Some (Fallback.df (Fallback.enrich tool d)) ∧
        rec !! "result" = Some (JStr (output_path env inp))
    | AgentWrote =>
        is_Some (csv_files w' !! output_path env inp) ∧
        rec !! "result" = Some (JStr (output_path env inp))
    | _ => rec !! "result" = Some JNull
    end.
Proof.
  destruct Hready as [Hfault [info Hinfo]].
  unfold scenario_of.
  destruct (make_tools env) as [tool|e] eqn:Htools.
  2:{ eexists _, _, _. split; [split; [|split]|].
      - by apply process_file_tools_raise.
      - world_norm. rewrite <- !app_assoc. cbn [app]. reflexivity.
      - unfold polled. world_norm. tracker_norm.
        rewrite lookup_insert_eq. apply json_load_dump.
      - report_facts. }
  destruct (kickoff env (csv_files w)) as [[r|e] files] eqn:Hkick.
  2:{ eexists _, _, _. split; [split; [|split]|].
      - eapply (process_file_run_raises env tid inp cols w info);
          [exact Hfault|exact Hinfo|exact Htools
          |apply (run_kickoff_raises env (job_crew env inp cols (length (objects w)) tool)
                    (length (objects w)) (starting_tracker tid w)
                    (started tid w) eq_refl (started_obj tid w)
                    Hfault e files); exact Hkick
          |solve_obj|norm; done|norm; done].
      - world_norm. rewrite <- !app_assoc. cbn [app]. reflexivity.
      - unfold polled. world_norm. tracker_norm.
        rewrite lookup_insert_eq. apply json_load_dump.
      - report_facts. }
  case_bool_decide as Hout.
  { eexists _, _, _. split; [split; [|split]|].
    - eapply (process_file_run_returns env tid inp cols w info);
        [exact Hfault|exact Hinfo|exact Htools
        |apply (run_agent_wrote env (job_crew env inp cols (length (objects w)) tool)
                  (length (objects w)) (starting_tracker tid w)
                  (started tid w) eq_refl (started_obj tid w)
                  Hfault r files); [exact Hkick|exact Hout]
        |solve_obj|norm; done|norm; done].
    - world_norm. rewrite <- !app_assoc. cbn [app]. reflexivity.
    - unfold polled. world_norm. tracker_norm.
      rewrite lookup_insert_eq. apply json_load_dump.
    - report_facts. }
  assert (files !! output_path env inp = None) as Hnone.
  { destruct (files !! output_path env inp) eqn:E; [|done].
    exfalso. apply Hout. eauto. }
  destruct (files !! inp) as [d|] eqn:Hin.
  - eexists _, _, _. split; [split; [|split]|].
    + eapply (process_file_run_returns env tid inp cols w info);
        [exact Hfault|exact Hinfo|exact Htools
        |apply (run_fallback env (job_crew env inp cols (length (objects w)) tool)
                  (length (objects w)) (starting_tracker tid w)
                  (started tid w) eq_refl (started_obj tid w)
                  Hfault r files d); [exact Hkick|exact Hnone|exact Hin]
        |solve_obj|norm; done|norm; done].
    + world_norm. rewrite <- !app_assoc. cbn [app]. reflexivity.
    + unfold polled. world_norm. tracker_norm.
      rewrite lookup_insert_eq. apply json_load_dump.
    + report_facts.
  - eexists _, _, _. split; [split; [|split]|].
    + eapply (process_file_run_raises env tid inp cols w info);
        [exact Hfault|exact Hinfo|exact Htools
        |apply (run_no_input env (job_crew env inp cols (length (objects w)) tool)
                  (length (objects w)) (starting_tracker tid w)
                  (started tid w) eq_refl (started_obj tid w)
                  Hfault r files); [exact Hkick|exact Hnone|exact Hin]
        |solve_obj|norm; done|norm; done].
    + world_norm. rewrite <- !app_assoc. cbn [app]. reflexivity.
    + unfold polled. world_norm. tracker_norm.
      rewrite lookup_insert_eq. apply json_load_dump.
    + report_facts.
Qed.
End report.

Lemma fallback_passes_returns tool s :
  fst (Fallback.fallback_passes tool s) = Ok tt.
Proof.
  unfold Fallback.fallback_passes, try_except.
  by destruct ((Fallback.group_propagation ;; Fallback.residual_lookup tool) s)
    as [[[]|e] s'].
Qed.

Lemma ready_fresh files : ready "job-1" (fresh_world files).
Proof. split; [done|]. eexists. unfold fresh_world; simpl. apply lookup_insert_eq. Qed.

Lemma scenario_without_cluster :
  scenario_of idle_env "data/in.csv" world_without_cluster =
  FallbackRan silent_tool no_cluster_table.
Proof. vm_compute. reflexivity. Qed.

Lemma swallowed_fallback_error : ¬ fallback_error_fails_job.
Proof.
  intros H.
  destruct (H idle_env "job-1" "data/in.csv" ["Category ID"]
              world_without_cluster (ready_fresh _))
    as (w' & rec & Hrun & Hpoll & Hstatus).
  { right. exists silent_tool, no_cluster_table, (KeyError "Cluster ID").
    split; [apply scenario_without_cluster|]. vm_compute. reflexivity. }
  destruct (process_file_report idle_env "job-1" "data/in.csv"
              ["Category ID"] world_without_cluster (ready_fresh _))
    as (w2 & evs & rec2 & (Hrun2 & _ & Hpoll2) & _ & Hst2 & _).
  rewrite scenario_without_cluster in Hst2. simpl in Hst2.
  rewrite Hrun in Hrun2. injection Hrun2 as <-.
  rewrite Hpoll in Hpoll2. injection Hpoll2 as <-.
  rewrite Hstatus in Hst2. discriminate.
Qed.

Lemma non_decreasing_expected s : non_decreasing (expected_progress s).
Proof. destruct s; simpl; repeat split; by compute. Qed.

Lemma expected_in_unit_interval s :
  Forall (λ q, 0 <= q ∧ q <= 1)%Q (expected_progress s).
Proof.
  destruct s; simpl; repeat (apply Forall_cons; split; [split; by compute|]);
    apply Forall_nil_2.
Qed.

Lemma clamp_in_unit_interval p :
  (0 <= Tracker.py_min (Tracker.py_max p 0) 1 ∧
   Tracker.py_min (Tracker.py_max p 0) 1 <= 1)%Q.
Proof.
  unfold Tracker.py_min, Tracker.py_max.
  destruct (Qle_bool 0 p) eqn:E0.
  - apply Qle_bool_iff in E0.
    destruct (Qle_bool p 1) eqn:E1.
    + apply Qle_bool_iff in E1. done.
    + split; by compute.
  - destruct (Qle_bool 0 1) eqn:E1; split; by compute.
Qed.

Lemma clamp_cases p :
  let q := Tracker.py_min (Tracker.py_max p 0) 1 in
  ((0 <= p ∧ p <= 1)%Q → q = p) ∧ ((p < 0)%Q → q = 0%Q) ∧
  ((1 < p)%Q → q = 1%Q).
Proof.
  unfold Tracker.py_min, Tracker.py_max. cbv zeta.
  destruct (Qle_bool 0 p) eqn:E0.
  - apply Qle_bool_iff in E0. destruct (Qle_bool p 1) eqn:E1.
    + apply Qle_bool_iff in E1. split; [done|].
      split; intros H; exfalso; revert H; by apply Qle_not_lt.
    + split; [intros [_ H]; apply Qle_bool_iff in H; congruence|].
      split; [|done]. intros H. exfalso. revert H. by apply Qle_not_lt.
  - assert (¬ (0 <= p)%Q) as Hneg
      by (intros H; apply Qle_bool_iff in H; congruence).
    split; [intros [H _]; done|]. split; [done|].
    intros H. exfalso. apply Hneg. apply Qlt_le_weak.
    by apply Qlt_trans with 1%Q.
Qed.

(** C4. The progress [update] writes is its argument clamped into
    [0,1]: the record that [get_task_state] then reads, and the object,
    hold [min(max(progress, 0), 1)], which is the argument when that lies
    in [0,1], 0 below and 1 above. A new tracker writes 0, [complete]
    writes 1 and [fail] writes the value the object holds. Over one run
    of [process_file] the values a poll of the status boundary can see
    never decrease and lie in [0,1]. Progress is a rational number
    here. *)
Theorem progress_clamped_and_monotone :
  (∀ self p m st w t,
     objects w !! self = Some t → pending_fault w = None →
     ∃ w' rec q,
       Tracker.update self p m st w = (Ok tt, w') ∧
       polled (task_id t) w' = Some rec ∧
       rec !! "progress" = Some (JNum q) ∧
       progress <$> objects w' !! self = Some q ∧
       (0 <= q ∧ q <= 1)%Q ∧
       ((0 <= p ∧ p <= 1)%Q → q = p) ∧
       ((p < 0)%Q → q = 0%Q) ∧ ((1 < p)%Q → q = 1%Q)) ∧
  (∀ tid w,
     pending_fault w = None →
     ∃ self w' rec,
       Tracker.__init__ tid w = (Ok self, w') ∧
       polled tid w' = Some rec ∧
       rec !! "progress" = Some (JNum 0)) ∧
  (∀ self r w t,
     objects w !! self = Some t → pending_fault w = None →
     ∃ w' rec,
       Tracker.complete self r w = (Ok tt, w') ∧
       polled (task_id t) w' = Some rec ∧
       rec !! "progress" = Some (JNum 1)) ∧
  (∀ self e w t,
     objects w !! self = Some t → pending_fault w = None →
     ∃ w' rec,
       Tracker.fail self e w = (Ok tt, w') ∧
       polled (task_id t) w' = Some rec ∧
       rec !! "progress" = Some (JNum (progress t))) ∧
  (∀ env tid inp cols w,
     ready tid w →
     ∃ w' evs rec,
       job_ran env tid inp cols w w' evs rec ∧
       non_decreasing (reported_progress (Tracker.file_path_of tid) evs) ∧
       Forall (λ q, 0 <= q ∧ q <= 1)%Q
         (reported_progress (Tracker.file_path_of tid) evs)).
Proof.
  split; [|split; [|split; [|split]]].
  - intros self p m st w t Ht Hf.
    exists (commit self (updated p m st t) w),
      (Tracker.state_dict (updated p m st t) (clock w - start_time t)%Q),
      (Tracker.py_min (Tracker.py_max p 0) 1).
    split; [by apply update_ok|].
    split; [exact (polled_saved (task_id t) (updated p m st t) _ eq_refl)|].
    split; [by destruct (state_dict_read (updated p m st t)
                           (clock w - start_time t)%Q) as (_ & _ & ? & _)|].
    split.
    { cbn [commit saved log set_progress_files set_objects objects].
      rewrite list_lookup_insert_eq by (by eapply lookup_lt_Some). done. }
    split; [apply clamp_in_unit_interval|apply clamp_cases].
  - intros tid w Hf. eexists _, _, _.
    split; [by apply init_ok|].
    split; [exact (polled_saved tid (created tid (clock w)) _ eq_refl)|].
    by destruct (state_dict_read (created tid (clock w))
                   (clock w - clock w)%Q) as (_ & _ & ? & _).
  - intros self r w t Ht Hf. eexists _, _.
    split; [by apply complete_ok|].
    split; [exact (polled_saved (task_id t) (completed r t) _ eq_refl)|].
    by destruct (state_dict_read (completed r t)
                   (clock w - start_time t)%Q) as (_ & _ & ? & _).
  - intros self e w t Ht Hf. eexists _, _.
    split; [by apply fail_ok|].
    split; [exact (polled_saved (task_id t) (failed e t) _ eq_refl)|].
    by destruct (state_dict_read (failed e t)
                   (clock w - start_time t)%Q) as (_ & _ & ? & _).
  - intros env tid inp cols w Hready.
    destruct (process_file_report env tid inp cols w Hready)
      as (w' & evs & rec & Hran & Hprog & _).
    exists w', evs, rec. split; [done|]. rewrite Hprog.
    split; [apply non_decreasing_expected|apply expected_in_unit_interval].
Qed.

(** C7. When the delegated attempt ([crew.kickoff()]) raises, the job
    runner catches the exception: [process_file] returns, the record of
    the job says failed and holds the text of the exception as its
    error, and the fallback was not entered. *)
Theorem delegated_error_fails_job env tid inp cols w tool e files :
  ready tid w →
  make_tools env = Ok tool →
  kickoff env (csv_files w) = (Raise e, files) →
  ∃ w' evs rec,
    job_ran env tid inp cols w w' evs rec ∧
    rec !! "status" = Some (JStr "failed") ∧
    rec !! "error" = Some (JStr (str e)) ∧
    EvFallback ∉ evs.
Proof.
  intros Hready Htools Hkick.
  destruct (process_file_report env tid inp cols w Hready)
    as (w' & evs & rec & Hran & Hfacts).
  unfold scenario_of in Hfacts. rewrite Htools, Hkick in Hfacts.
  destruct Hfacts as (_ & Hst & Herr & Hfb & _).
  exists w', evs, rec. do 3 (split; [done|]).
  intros Hin. apply Hfb in Hin. discriminate.
Qed.

(** C2, as the code has it. The job runner returns in every case. An
    exception raised while the fallback reads its input reaches the job
    runner, which reports it through [fail]: the record says failed and
    holds the text of the exception. An exception raised inside the two
    passes is caught inside the fallback (line 327): the passes return,
    the table as filled so far is written to the output file, and the
    record says completed. *)
Theorem fallback_errors_by_origin env tid inp cols w :
  ready tid w →
  ∃ w' evs rec,
    job_ran env tid inp cols w w' evs rec ∧
    (scenario_of env inp w = FallbackNoInput →
       rec !! "status" = Some (JStr "failed") ∧
       rec !! "error" = Some (JStr (str (FileNotFoundError inp)))) ∧
    (∀ tool d,
       scenario_of env inp w = FallbackRan tool d →
       fst (Fallback.fallback_passes tool (Fallback.init d)) = Ok tt ∧
       csv_files w' !! output_path env inp =
         Some (Fallback.df (Fallback.enrich tool d)) ∧
       rec !! "status" = Some (JStr "completed")).
Proof.
  intros Hready.
  destruct (process_file_report env tid inp cols w Hready)
    as (w' & evs & rec & Hran & Hfacts).
  exists w', evs, rec. split; [done|]. split.
  - intros Hs. rewrite Hs in Hfacts. by destruct Hfacts as (_ & ? & ? & _).
  - intros tool d Hs. rewrite Hs in Hfacts.
    destruct Hfacts as (_ & Hst & _ & _ & Hout & _).
    split; [apply fallback_passes_returns|]. done.
Qed.

Lemma fallback_errors_by_origin_witness :
  ready "job-1" world_without_cluster ∧
  Fallback.passes_raised silent_tool no_cluster_table =
    Some (KeyError "Cluster ID") ∧
  ∃ w' evs rec,
    job_ran idle_env "job-1" "data/in.csv" ["Category ID"]
      world_without_cluster w' evs rec ∧
    csv_files w' !! output_path idle_env "data/in.csv" =
      Some no_cluster_table ∧
    rec !! "status" = Some (JStr "completed").
Proof.
  assert (ready "job-1" world_without_cluster) as Hready.
  { split; [reflexivity|]. eexists. vm_compute. reflexivity. }
  split; [exact Hready|]. split; [vm_compute; reflexivity|].
  destruct (fallback_errors_by_origin idle_env "job-1" "data/in.csv"
              ["Category ID"] world_without_cluster Hready)
    as (w' & evs & rec & Hran & _ & Hfb).
  exists w', evs, rec. split; [exact Hran|].
  destruct (Hfb silent_tool no_cluster_table) as (_ & Hout & Hst).
  - vm_compute. reflexivity.
  - split; [|exact Hst]. rewrite Hout. vm_compute. reflexivity.
Defined.

Lemma delegated_error_fails_job_witness :
  ready "job-1" (fresh_world ∅) ∧
  ∃ w' evs rec,
    job_ran overloaded_env "job-1" "data/in.csv" ["Category ID"]
      (fresh_world ∅) w' evs rec ∧
    rec !! "status" = Some (JStr "failed") ∧
    rec !! "error" = Some (JStr "overloaded_error") ∧
    EvFallback ∉ evs.
Proof.
  assert (ready "job-1" (fresh_world ∅)) as Hready.
  { split; [reflexivity|]. eexists. vm_compute. reflexivity. }
  split; [exact Hready|].
  exact (delegated_error_fails_job overloaded_env "job-1" "data/in.csv"
           ["Category ID"] (fresh_world ∅) silent_tool
           (Exception "overloaded_error") ∅ Hready eq_refl eq_refl).
Defined.

Lemma progress_clamped_and_monotone_witness :
  ∃ w' rec,
    Tracker.update 0 (3 # 2) "Running crew" "processing" tracked_world =
      (Ok tt, w') ∧
    polled "job-1" w' = Some rec ∧
    rec !! "progress" = Some (JNum 1).
Proof.
  destruct progress_clamped_and_monotone as (Hupdate & _).
  destruct (Hupdate 0%nat (3 # 2)%Q "Running crew" "processing"
              tracked_world (created "job-1" 0) eq_refl eq_refl)
    as (w' & rec & q & E & Hpoll & Hq & _ & _ & _ & _ & Habove).
  exists w', rec. split; [exact E|]. split; [exact Hpoll|].
  rewrite Hq. by rewrite Habove.
Defined.

(** *** A write that fails *)

Lemma write_json_returns_unit path st w :
  (Tracker.write_json path st ;; ret tt) w = Tracker.write_json path st w.
Proof.
  unfold bind, Tracker.write_json, ret.
  by destruct (pending_fault w) as [[|n]|].
Qed.

Lemma run_op_write op w r :
  op_record op w = Some r →
  run_op op w =
  Tracker.write_json (Tracker.file_path_of (task_id r))
    (Tracker.state_dict r (clock w - start_time r)%Q) (op_world op r w).
Proof.
  destruct op as [tid|self p m st|self res|self e]; simpl.
  - intros [= <-]. rewrite <- write_json_returns_unit.
    unfold bind at 1. rewrite init_eq. unfold bind, ret. simpl.
    by destruct (Tracker.write_json _ _ _) as [[|] ?].
  - destruct (objects w !! self) as [t|] eqn:Ht; [|done]. intros [= <-].
    unfold Tracker.update. by rewrite (assign_save_eq self _ t).
  - destruct (objects w !! self) as [t|] eqn:Ht; [|done]. intros [= <-].
    unfold Tracker.complete. by rewrite (assign_save_eq self _ t).
  - destruct (objects w !! self) as [t|] eqn:Ht; [|done]. intros [= <-].
    unfold Tracker.fail. by rewrite (assign_save_eq self _ t).
Qed.

Lemma op_world_files op r w :
  progress_files (op_world op r w) = progress_files w ∧
  pending_fault (op_world op r w) = pending_fault w.
Proof. by destruct op. Qed.

(** C5, as the code has it. [_save_state] opens the file of the job for
    writing and dumps the record into it; there is no temporary file. A
    write that fails at [open] leaves the stored record as it was. A
    write that fails after [n] chunks leaves the first [n] chunks of the
    new record in the file: the record stored before is gone, and what
    is there does not parse as long as the record is not whole (it has 9
    chunks). *)
Theorem failed_write_truncates op w r :
  op_record op w = Some r →
  let path := Tracker.file_path_of (task_id r) in
  let record :=
    Tracker.json_dump (Tracker.state_dict r (clock w - start_time r)%Q) in
  let after := progress_files (snd (run_op op w)) in
  match pending_fault w with
  | None => fst (run_op op w) = Ok tt ∧ after !! path = Some record
  | Some FailOpen =>
      (∃ e, fst (run_op op w) = Raise e) ∧
      after !! path = progress_files w !! path
  | Some (FailAfter n) =>
      (∃ e, fst (run_op op w) = Raise e) ∧
      after !! path = Some (take n record) ∧
      (n < 9 → Tracker.json_load (take n record) = None)
  end.
Proof.
  intros Hr path record after. subst after.
  rewrite (run_op_write op w r Hr). fold path. fold record.
  destruct (op_world_files op r w) as [Hpf Hfl].
  unfold Tracker.write_json. rewrite Hfl.
  destruct (pending_fault w) as [[|n]|]; simpl; rewrite Hpf.
  - split; [eauto|done].
  - split; [eauto|]. split; [apply lookup_insert_eq|].
    intros Hn. apply json_load_truncated.
    unfold record. by rewrite length_json_dump_state.
  - split; [done|apply lookup_insert_eq].
Qed.

Lemma failed_write_truncates_witness :
  let op := OpUpdate 0 (1 # 2) "Running crew" "processing" in
  let r := updated (1 # 2) "Running crew" "processing" (created "job-1" 0) in
  let record := Tracker.json_dump (Tracker.state_dict r 2) in
  op_record op torn_world = Some r ∧
  progress_files (snd (run_op op torn_world)) !! Tracker.file_path_of "job-1"
    = Some (take 3 record) ∧
  Tracker.json_load (take 3 record) = None.
Proof.
  intros op r record.
  assert (op_record op torn_world = Some r) as Hr by reflexivity.
  split; [exact Hr|].
  pose proof (failed_write_truncates op torn_world r Hr) as Hfault.
  change (pending_fault torn_world) with (Some (FailAfter 3)) in Hfault.
  cbv iota beta in Hfault. destruct Hfault as (_ & Hfile & Hload).
  split; [exact Hfile|]. apply Hload. lia.
Defined.

(** The failure semantics of the specification does not hold: an update
    whose write fails after three chunks leaves three chunks in the file
    of the job, not the nine of the record stored before. *)
Lemma truncated_record : ¬ failed_write_keeps_record.
Proof.
  intros H.
  specialize (H (OpUpdate 0 (1 # 2) "Running crew" "processing") torn_world
                (OSError "write failed")
                (snd (run_op (OpUpdate 0 (1 # 2) "Running crew" "processing")
                        torn_world))
                "job-1"
                (Tracker.json_dump
                   (Tracker.state_dict (created "job-1" 0) 0))
                eq_refl).
  assert (length <$>
            progress_files
              (snd (run_op (OpUpdate 0 (1 # 2) "Running crew" "processing")
                      torn_world))
            !! Tracker.file_path_of "job-1" = Some 9) as Hlen.
  { rewrite H; [done|by vm_compute|by vm_compute]. }
  vm_compute in Hlen. discriminate.
Qed.

(** *** The result boundary *)

Lemma get_task_state_polled tid w st :
  polled tid w = Some st → Tracker.get_task_state tid w = (Ok (Some st), w).
Proof.
  unfold polled, Tracker.get_task_state, bind, get.
  destruct (progress_files w !! Tracker.file_path_of tid) as [c|]; [|done].
  by intros ->.
Qed.

Lemma get_task_state_inv tid w o w' :
  Tracker.get_task_state tid w = (o, w') →
  w' = w ∧
  match o with
  | Ok (Some st) => polled tid w = Some st
  | Ok None => progress_files w !! Tracker.file_path_of tid = None
  | Raise e => e = JSONDecodeError
  end.
Proof.
  unfold polled, Tracker.get_task_state, bind, get.
  destruct (progress_files w !! Tracker.file_path_of tid) as [c|].
  - destruct (Tracker.json_load c); intros [= <- <-]; done.
  - intros [= <- <-]; done.
Qed.

(** C8. The result boundary serves a file only for a job whose record
    says completed, and then the file named in the record; for a job
    whose record says anything else (initializing, processing, failed)
    it answers with an error; for a job id it does not know it answers
    not found. *)
Theorem download_only_when_completed tid w :
  (∀ path media fname,
     fst (Backend.download_file tid w) = Ok (Backend.FileResponse path media fname) →
     tid ∈ dom (active_tasks w) ∧
     ∃ st, polled tid w = Some st ∧
           st !! "status" = Some (JStr "completed") ∧
           st !! "result" = Some (JStr path) ∧
           is_Some (csv_files w !! path)) ∧
  (∀ st status,
     tid ∈ dom (active_tasks w) → polled tid w = Some st →
     st !! "status" = Some status → status ≠ JStr "completed" →
     Backend.download_file tid w =
       (Ok (Backend.HTTPException 400 "Task is not completed yet"), w)) ∧
  (tid ∉ dom (active_tasks w) →
     Backend.download_file tid w =
       (Ok (Backend.HTTPException 404 "Task not found"), w)) ∧
  (∀ st path,
     tid ∈ dom (active_tasks w) → polled tid w = Some st →
     st !! "status" = Some (JStr "completed") →
     st !! "result" = Some (JStr path) → path ≠ "" →
     is_Some (csv_files w !! path) →
     Backend.download_file tid w =
       (Ok (Backend.FileResponse path "text/csv" (basename path)), w)).
Proof.
  split; [|split; [|split]].
  - intros path media fname. unfold Backend.download_file.
    unfold bind at 1, get.
    case_bool_decide as Hdom; [|done].
    unfold bind at 1.
    destruct (Tracker.get_task_state tid w) as [o w1] eqn:Hst.
    apply get_task_state_inv in Hst as [-> Hst].
    destruct o as [[st|]|e]; [|done..].
    case_bool_decide as Hemp; [done|].
    unfold bind at 1, Backend.getitem.
    destruct (st !! "status") as [status|] eqn:Hs; [|done]. unfold ret at 1.
    case_bool_decide as Hcompl; [done|].
    subst status.
    unfold bind at 1.
    destruct (st !! "result") as [res|] eqn:Hres; [|done]. unfold ret at 1.
    destruct res as [|p| |]; try done.
    unfold AgentsCrew.path_exists, bind, get, ret.
    destruct (negb (Backend.truthy (JStr p))); [done|]. simpl.
    case_bool_decide as Hex; [|done]. simpl.
    intros [= -> _ _]. eauto 10.
  - intros st status Hdom Hpoll Hs Hne. unfold Backend.download_file.
    unfold bind at 1, get.
    rewrite bool_decide_eq_true_2 by done.
    unfold bind at 1. rewrite (get_task_state_polled _ _ _ Hpoll).
    rewrite bool_decide_eq_false_2 by (intros ->; by rewrite lookup_empty in Hs).
    unfold bind at 1, Backend.getitem. rewrite Hs. unfold ret at 1.
    by rewrite bool_decide_eq_true_2.
  - intros Hdom. unfold Backend.download_file. unfold bind at 1, get.
    by rewrite bool_decide_eq_false_2.
  - intros st path Hdom Hpoll Hs Hres Hne Hex. unfold Backend.download_file.
    unfold bind at 1, get.
    rewrite bool_decide_eq_true_2 by done.
    unfold bind at 1. rewrite (get_task_state_polled _ _ _ Hpoll).
    rewrite bool_decide_eq_false_2 by (intros ->; by rewrite lookup_empty in Hs).
    unfold bind at 1, Backend.getitem. rewrite Hs. unfold ret at 1.
    rewrite bool_decide_eq_false_2 by (intros ?; done).
    unfold bind at 1. rewrite Hres. unfold ret at 1.
    unfold AgentsCrew.path_exists, bind, get, ret.
    rewrite bool_decide_eq_true_2 by done.
    assert (Backend.truthy (JStr path) = true) as ->; [|done].
    simpl. apply negb_true_iff. by apply String.eqb_neq.
Qed.

Lemma download_only_when_completed_witness :
  Backend.download_file "job-9" (fresh_world ∅) =
    (Ok (Backend.HTTPException 404 "Task not found"), fresh_world ∅).
Proof.
  destruct (download_only_when_completed "job-9" (fresh_world ∅))
    as (_ & _ & Hunknown & _).
  apply Hunknown. apply not_elem_of_dom. vm_compute. reflexivity.
Defined.

(** *** The record written is the record read *)

Lemma string_app_inv_head (p a b : string) : p ++ a = p ++ b → a = b.
Proof. induction p as [|c p IH]; simpl; [done|]. intros [= H]. auto. Qed.

Lemma string_app_length (a b : string) :
  String.length (a ++ b) = (String.length a + String.length b)%nat.
Proof. induction a as [|c a IH]; simpl; [done|]. by rewrite IH. Qed.

Lemma string_app_inv_tail (a b s : string) : a ++ s = b ++ s → a = b.
Proof.
  revert b. induction a as [|c a IH]; intros [|c' b]; simpl; [done| | |].
  - intros H. apply (f_equal String.length) in H.
    rewrite ?string_app_length in H. simpl in H.
    rewrite ?string_app_length in H. lia.
  - intros H. apply (f_equal String.length) in H.
    rewrite ?string_app_length in H. simpl in H.
    rewrite ?string_app_length in H. lia.
  - intros [= -> H]. f_equal. auto.
Qed.

Lemma uuid_char_not_slash c :
  uuid_char c = true → Ascii.eqb "/"%char c = false.
Proof. by destruct c as [[] [] [] [] [] [] [] []]. Qed.

(** The state file of an id that [upload_file] makes is in the
    directory of the tracker. *)
Lemma file_path_of_uuid tid :
  uuid_text tid →
  Tracker.file_path_of tid = "data/progress/" ++ tid ++ ".json".
Proof.
  unfold uuid_text, chars, Tracker.file_path_of, Tracker.path_join.
  destruct tid as [|c tid]; [done|]. cbn [list_ascii_of_string].
  intros [Hc _]%Forall_cons. apply uuid_char_not_slash in Hc.
  apply Ascii.eqb_neq in Hc.
  change (String c tid ++ ".json") with (String c (tid ++ ".json")).
  cbn [String.prefix]. by destruct (ascii_dec "/"%char c).
Qed.

Lemma file_path_of_inj tid1 tid2 :
  uuid_text tid1 → uuid_text tid2 →
  Tracker.file_path_of tid1 = Tracker.file_path_of tid2 → tid1 = tid2.
Proof.
  intros H1 H2. rewrite !file_path_of_uuid by done. intros H.
  apply string_app_inv_head in H. by apply string_app_inv_tail in H.
Qed.

Lemma read_state_file tid w :
  read_state tid w =
  match progress_files w !! Tracker.file_path_of tid with
  | None => Ok None
  | Some content =>
      match Tracker.json_load content with
      | Some st => Ok (Some st)
      | None => Raise JSONDecodeError
      end
  end.
Proof.
  unfold read_state, Tracker.get_task_state, bind, get.
  destruct (progress_files w !! Tracker.file_path_of tid) as [c|]; [|done].
  by destruct (Tracker.json_load c).
Qed.

Lemma state_dict_fields t el :
  let st := Tracker.state_dict t el in
  st !! "task_id" = Some (JStr (task_id t)) ∧
  st !! "status" = Some (JStr (status t)) ∧
  st !! "progress" = Some (JNum (progress t)) ∧
  st !! "message" = Some (JStr (message t)) ∧
  st !! "elapsed_time" = Some (JNum el) ∧
  st !! "result" = Some (Tracker.json_of_option (result t)) ∧
  st !! "error" = Some (Tracker.json_of_option (error t)).
Proof. unfold Tracker.state_dict. repeat split; by simplify_map_eq. Qed.

(** X1. After [ProgressTracker(task_id)], [update], [complete] or [fail]
    whose write succeeds, [get_task_state] of the job reads back the
    record the operation left: the task id, the status, the progress as
    clamped, the message, the time elapsed since the tracker was made,
    the result and the error. *)
Theorem saved_state_is_read_back op w r :
  op_record op w = Some r → pending_fault w = None →
  fst (run_op op w) = Ok tt ∧
  ∃ st,
    read_state (task_id r) (after_op op w) = Ok (Some st) ∧
    st !! "task_id" = Some (JStr (task_id r)) ∧
    st !! "status" = Some (JStr (status r)) ∧
    st !! "progress" = Some (JNum (progress r)) ∧
    st !! "message" = Some (JStr (message r)) ∧
    st !! "elapsed_time" = Some (JNum (clock w - start_time r)) ∧
    st !! "result" = Some (Tracker.json_of_option (result r)) ∧
    st !! "error" = Some (Tracker.json_of_option (error r)).
Proof.
  intros Hr Hf. unfold after_op. rewrite (run_op_write op w r Hr).
  destruct (op_world_files op r w) as [Hpf Hfl].
  rewrite write_json_ok by congruence. split; [done|].
  eexists. split; [|apply state_dict_fields].
  rewrite read_state_file. cbn [snd log set_progress_files progress_files].
  rewrite lookup_insert_eq. by rewrite json_load_dump.
Qed.

Lemma saved_state_is_read_back_witness :
  ∃ st,
    read_state "job-1"
      (after_op (OpUpdate 0 (3 # 2) "Running crew" "processing")
         tracked_world) = Ok (Some st) ∧
    st !! "progress" = Some (JNum 1) ∧
    st !! "status" = Some (JStr "processing").
Proof.
  destruct (saved_state_is_read_back
              (OpUpdate 0 (3 # 2) "Running crew" "processing") tracked_world
              (updated (3 # 2) "Running crew" "processing"
                 (created "job-1" 0)) eq_refl eq_refl)
    as (_ & st & Hread & _ & Hstatus & Hprogress & _).
  exists st. split; [exact Hread|]. split; [exact Hprogress|exact Hstatus].
Defined.

(** X2. For task ids as [upload_file] makes them ([str(uuid.uuid4())]:
    lower-case hexadecimal digits and dashes), a tracker operation on
    the job of one id, whether its write succeeds or fails, changes
    nothing of what [get_task_state] reads for another id. *)
Theorem other_jobs_state_kept op w r tid :
  op_record op w = Some r →
  uuid_text (task_id r) → uuid_text tid → tid ≠ task_id r →
  read_state tid (after_op op w) = read_state tid w.
Proof.
  intros Hr Hid Htid Hne. unfold after_op. rewrite (run_op_write op w r Hr).
  destruct (op_world_files op r w) as [Hpf Hfl].
  rewrite !read_state_file. unfold Tracker.write_json. rewrite Hfl.
  assert (Tracker.file_path_of (task_id r) ≠ Tracker.file_path_of tid)
    as Hpath by (intros H; apply file_path_of_inj in H; congruence).
  destruct (pending_fault w) as [[|n]|];
    cbn [snd log set_progress_files set_pending_fault progress_files];
    rewrite ?lookup_insert_ne by done; by rewrite Hpf.
Qed.

Lemma other_jobs_state_kept_witness :
  read_state "1b9d6bcd-bbfd"
    (after_op (OpCreate "7c9e6679-7425") torn_world) =
  read_state "1b9d6bcd-bbfd" torn_world.
Proof.
  apply (other_jobs_state_kept (OpCreate "7c9e6679-7425") torn_world
           (created "7c9e6679-7425" 2) "1b9d6bcd-bbfd" eq_refl).
  - unfold uuid_text. cbn. repeat constructor.
  - unfold uuid_text. cbn. repeat constructor.
  - discriminate.
Defined.

(** *** The upload boundary *)

Lemma endswith_spec s suffix :
  endswith s suffix = true ↔ ∃ stem, s = stem ++ suffix.
Proof.
  split.
  - induction s as [|c s IH]; cbn [endswith].
    + destruct (String.eqb_spec "" suffix) as [<-|]; [|discriminate].
      intros _. by exists "".
    + destruct (String.eqb_spec (String c s) suffix) as [<-|].
      * intros _. by exists "".
      * intros H. destruct (IH H) as [stem ->]. by exists (String c stem).
  - intros [stem ->]. induction stem as [|c stem IH].
    + change ("" ++ suffix) with suffix.
      destruct suffix; cbn [endswith]; by rewrite String.eqb_refl.
    + change (String c stem ++ suffix) with (String c (stem ++ suffix)).
      cbn [endswith]. by destruct (String.eqb _ _).
Qed.

Lemma split_not_nil sep s : split sep s ≠ [].
Proof.
  destruct s as [|c s]; simpl; [done|].
  destruct (Ascii.eqb c sep); [done|]. by destruct (split sep s).
Qed.

Lemma concat_cons sep x l :
  l ≠ [] → String.concat sep (x :: l) = x ++ sep ++ String.concat sep l.
Proof. by destruct l. Qed.

(** [sep.join(s.split(sep))] is [s]. *)
Lemma concat_split sep s :
  String.concat (String sep "") (split sep s) = s.
Proof.
  induction s as [|c s IH]; [done|]. cbn [split].
  pose proof (split_not_nil sep s) as Hne.
  destruct (Ascii.eqb_spec c sep) as [->|Hc].
  - rewrite concat_cons by done. by rewrite IH.
  - destruct (split sep s) as [|p ps] eqn:E; [done|].
    destruct ps as [|p' ps].
    + cbn [String.concat] in IH |- *. by rewrite IH.
    + rewrite concat_cons by done. rewrite concat_cons in IH by done.
      by rewrite <- IH.
Qed.











Lemma save_uploaded_file_eq hex content filename w :
  FileHandler.save_uploaded_file hex content filename w =
  (Ok (upload_path hex filename),
   set_csv_files (<[upload_path hex filename := content]>) w).
Proof. reflexivity. Qed.

Lemma read_csv_saved path d w :
  FileHandler.read_csv path (set_csv_files (<[path := d]>) w) =
  (Ok d, set_csv_files (<[path := d]>) w).
Proof.
  unfold FileHandler.read_csv, AgentsCrew.read_csv, bind, get.
  cbn [csv_files set_csv_files]. by rewrite lookup_insert_eq.
Qed.

Lemma upload_columns_eq cols content hex filename w :
  (if Backend.truthy_str cols
   then ret (map strip (split ","%char (default "" cols)))
   else d <- FileHandler.read_csv (upload_path hex filename) ;;
        ret (Backend.last_two (columns d)))
    (set_csv_files (<[upload_path hex filename := content]>) w) =
  (Ok (upload_columns cols content),
   set_csv_files (<[upload_path hex filename := content]>) w).
Proof.
  unfold upload_columns. destruct (Backend.truthy_str cols); [done|].
  erewrite bind_ok; [|apply read_csv_saved]. done.
Qed.

(** [upload_file] on a name that ends in [.csv], no write failing. *)
Lemma upload_file_ok file_hex task_uuid stem content
    (background_tasks : bool) cols w :
  pending_fault w = None →
  Backend.upload_file file_hex task_uuid (stem ++ ".csv") content
    background_tasks cols w =
    (Ok (Backend.StateResponse {[ "task_id" := JStr task_uuid ]},
         if background_tasks
         then [upload_job file_hex task_uuid (stem ++ ".csv") cols content]
         else []),
     uploaded file_hex task_uuid (stem ++ ".csv") cols content w) ∧
  ready task_uuid
    (uploaded file_hex task_uuid (stem ++ ".csv") cols content w).
Proof.
  intros Hf.
  assert (endswith (stem ++ ".csv") ".csv" = true) as Hend
    by (apply endswith_spec; by exists stem).
  split.
  - unfold Backend.upload_file. rewrite Hend. cbn [negb].
    erewrite bind_ok; [|apply save_uploaded_file_eq].
    erewrite bind_ok; [|apply upload_columns_eq].
    erewrite bind_ok; [|by apply init_ok].
    erewrite bind_ok; [|reflexivity].
    reflexivity.
  - unfold uploaded. split; [done|]. norm.
    rewrite lookup_insert_eq. eauto.
Qed.



(** X4. [upload_file] answers 400 for a file whose name does not end in
    [.csv]: nothing is saved, no task is registered, and no background
    task is added. *)
Theorem upload_refuses_other_names file_hex task_uuid filename content
    background_tasks cols w :
  (∀ stem, filename ≠ stem ++ ".csv") →
  Backend.upload_file file_hex task_uuid filename content background_tasks
    cols w =
    (Ok (Backend.HTTPException 400 "Only CSV files are supported", []), w).
Proof.
  intros Hname. unfold Backend.upload_file.
  destruct (endswith filename ".csv") eqn:Hend; [|done].
  apply endswith_spec in Hend as [stem ->]. by destruct (Hname stem).
Qed.

Lemma upload_refuses_other_names_witness :
  Backend.upload_file "0f3a" "7c9e" "phones.CSV" phones_csv true None
    empty_world =
    (Ok (Backend.HTTPException 400 "Only CSV files are supported", []),
     empty_world).
Proof.
  apply upload_refuses_other_names. intros stem Hstem.
  assert (endswith "phones.CSV" ".csv" = true) as Hend
    by (apply endswith_spec; by exists stem).
  vm_compute in Hend. discriminate Hend.
Defined.

Lemma init_raises tid w f :
  pending_fault w = Some f →
  ∃ e w1,
    Tracker.__init__ tid w = (Raise e, w1) ∧
    csv_files w1 = csv_files w ∧ active_tasks w1 = active_tasks w.
Proof.
  intros Hf. rewrite init_eq. unfold bind, Tracker.write_json.
  cbn [pending_fault set_objects]. rewrite Hf.
  destruct f as [|n]; eexists _, _; (split; [reflexivity|done]).
Qed.

(** X5. When the first write of the new tracker fails, [upload_file]
    raises: the uploaded file has been saved under [data/] all the same,
    and no task is registered for it. *)
Theorem upload_fails_after_saving file_hex task_uuid stem content
    background_tasks cols w f :
  pending_fault w = Some f →
  let filename := stem ++ ".csv" in
  let r := Backend.upload_file file_hex task_uuid filename content
             background_tasks cols w in
  (∃ e, fst r = Raise e) ∧
  csv_files (snd r) !! upload_path file_hex filename = Some content ∧
  active_tasks (snd r) = active_tasks w.
Proof.
  intros Hf filename r.
  assert (endswith filename ".csv" = true) as Hend
    by (apply endswith_spec; by exists stem).
  destruct (init_raises task_uuid
              (set_csv_files (<[upload_path file_hex filename := content]>) w)
              f Hf) as (e & w1 & Hinit & Hcsv & Hreg).
  assert (r = (Raise e, w1)) as ->.
  { subst r. unfold Backend.upload_file. rewrite Hend. cbn [negb].
    erewrite bind_ok; [|apply save_uploaded_file_eq].
    erewrite bind_ok; [|apply upload_columns_eq].
    erewrite bind_raise; [reflexivity|exact Hinit]. }
  cbn [fst snd]. split; [eauto|]. rewrite Hcsv, Hreg.
  split; [apply lookup_insert_eq|done].
Qed.

Lemma upload_fails_after_saving_witness :
  let r := Backend.upload_file "0f3a" "job-1" "phones.csv" phones_csv true
             None torn_world in
  (∃ e, fst r = Raise e) ∧
  csv_files (snd r) !! upload_path "0f3a" "phones.csv" = Some phones_csv ∧
  active_tasks (snd r) = active_tasks torn_world.
Proof.
  exact (upload_fails_after_saving "0f3a" "job-1" "phones" phones_csv true
           None torn_world (FailAfter 3) eq_refl).
Defined.



(** *** The boundaries after a job *)

Ltac end_facts :=
  cbn [snd fst expected_status completes]; unfold polled;
  tracker_norm; world_norm;
  rewrite ?lookup_insert_eq;
  split; [first [reflexivity|eassumption]|];
  split; [reflexivity|];
  split;
  [eexists; split; [reflexivity|];
   split; [by simplify_map_eq|first [discriminate|intros _; by simplify_map_eq]]
  |];
  split;
  [eexists; split; [apply json_load_dump|];
   split; [apply state_dict_fields
          |first [discriminate|intros _; apply state_dict_fields]]
  |first [discriminate|intros _; rewrite ?lookup_insert_eq; eauto]].

Section job_end.
Context (env : Env) (tid inp : string) (cols : list string) (w : World)
        (info : gmap string json).
Hypothesis Hfault : pending_fault w = None.
Hypothesis Hinfo : active_tasks w !! tid = Some info.

(** The job runner returns, and leaves the registry, the files and the
    record of the job as the way the job went decides. *)
Lemma process_file_end :
  let s := scenario_of env inp w in
  let w' := after_job env tid inp cols w in
  Backend.process_file env tid inp cols w = (Ok tt, w') ∧
  pending_fault w' = None ∧
  csv_files w' = files_after_job env inp w ∧
  (∃ info',
     active_tasks w' !! tid = Some info' ∧
     info' !! "status" = Some (JStr (expected_status s)) ∧
     (completes s = true →
      info' !! "output_file" = Some (JStr (output_path env inp)))) ∧
  (∃ rec,
     polled tid w' = Some rec ∧
     rec !! "status" = Some (JStr (expected_status s)) ∧
     (completes s = true →
      rec !! "result" = Some (JStr (output_path env inp)))) ∧
  (completes s = true → is_Some (csv_files w' !! output_path env inp)).
Proof.
  intros s w'. subst s w'.
  unfold after_job, files_after_job, files_after_kickoff, scenario_of.
  destruct (make_tools env) as [tool|e] eqn:Htools.
  2:{ rewrite (process_file_tools_raise env tid inp cols w info Hfault
                 Hinfo e Htools).
      split; [done|]. end_facts. }
  destruct (kickoff env (csv_files w)) as [[r|e] files] eqn:Hkick.
  2:{ erewrite (process_file_run_raises env tid inp cols w info);
        [|exact Hfault|exact Hinfo|exact Htools
         |apply (run_kickoff_raises env
                   (job_crew env inp cols (length (objects w)) tool)
                   (length (objects w)) (starting_tracker tid w)
                   (started tid w) eq_refl (started_obj tid w)
                   Hfault e files); exact Hkick
         |solve_obj|norm; done|norm; done].
      split; [done|]. end_facts. }
  case_bool_decide as Hout.
  { erewrite (process_file_run_returns env tid inp cols w info);
      [|exact Hfault|exact Hinfo|exact Htools
       |apply (run_agent_wrote env
                 (job_crew env inp cols (length (objects w)) tool)
                 (length (objects w)) (starting_tracker tid w)
                 (started tid w) eq_refl (started_obj tid w)
                 Hfault r files); [exact Hkick|exact Hout]
       |solve_obj|norm; done|norm; done].
    split; [done|]. end_facts. }
  assert (files !! output_path env inp = None) as Hnone.
  { destruct (files !! output_path env inp) eqn:E; [|done].
    exfalso. apply Hout. eauto. }
  destruct (files !! inp) as [d|] eqn:Hin.
  - erewrite (process_file_run_returns env tid inp cols w info);
      [|exact Hfault|exact Hinfo|exact Htools
       |apply (run_fallback env
                 (job_crew env inp cols (length (objects w)) tool)
                 (length (objects w)) (starting_tracker tid w)
                 (started tid w) eq_refl (started_obj tid w)
                 Hfault r files d); [exact Hkick|exact Hnone|exact Hin]
       |solve_obj|norm; done|norm; done].
    split; [done|]. end_facts.
  - erewrite (process_file_run_raises env tid inp cols w info);
      [|exact Hfault|exact Hinfo|exact Htools
       |apply (run_no_input env
                 (job_crew env inp cols (length (objects w)) tool)
                 (length (objects w)) (starting_tracker tid w)
                 (started tid w) eq_refl (started_obj tid w)
                 Hfault r files); [exact Hkick|exact Hnone|exact Hin]
       |solve_obj|norm; done|norm; done].
    split; [done|]. end_facts.
Qed.
End job_end.

Lemma output_path_not_empty env inp : output_path env inp ≠ "".
Proof. unfold output_path. discriminate. Qed.

Lemma polled_not_empty tid w rec v :
  polled tid w = Some rec → rec !! "status" = Some v → rec ≠ ∅.
Proof. intros _ Hs ->. by rewrite lookup_empty in Hs. Qed.

(** The three answers of the result boundary for a job in the registry
    whose record can be read. *)
Lemma download_file_eq tid w rec status :
  tid ∈ dom (active_tasks w) → polled tid w = Some rec →
  rec !! "status" = Some status →
  Backend.download_file tid w =
  if bool_decide (status ≠ JStr "completed") then
    (Ok (Backend.HTTPException 400 "Task is not completed yet"), w)
  else
    match rec !! "result" with
    | Some (JStr path) =>
        if negb (Backend.truthy (JStr path))
           || negb (bool_decide (is_Some (csv_files w !! path)))
        then (Ok (Backend.HTTPException 404 "Output file not found"), w)
        else (Ok (Backend.FileResponse path "text/csv" (basename path)), w)
    | Some _ => (Ok (Backend.HTTPException 404 "Output file not found"), w)
    | None => (Raise (KeyError "result"), w)
    end.
Proof.
  intros Hdom Hpoll Hs. unfold Backend.download_file.
  unfold bind at 1, get.
  rewrite bool_decide_eq_true_2 by done.
  unfold bind at 1. rewrite (get_task_state_polled _ _ _ Hpoll).
  rewrite bool_decide_eq_false_2 by (by eapply polled_not_empty).
  unfold bind at 1, Backend.getitem. rewrite Hs. unfold ret at 1.
  case_bool_decide; [done|].
  unfold bind at 1. destruct (rec !! "result") as [[|path| |]|]; try done.
  unfold ret at 1. unfold AgentsCrew.path_exists, bind, get, ret.
  by destruct (negb _ || negb _).
Qed.

Lemma get_task_status_eq tid w rec status :
  tid ∈ dom (active_tasks w) → polled tid w = Some rec →
  rec !! "status" = Some status →
  Backend.get_task_status tid w = (Ok (Backend.StateResponse rec), w).
Proof.
  intros Hdom Hpoll Hs. unfold Backend.get_task_status.
  unfold bind at 1, get.
  rewrite bool_decide_eq_true_2 by done.
  unfold bind at 1. rewrite (get_task_state_polled _ _ _ Hpoll).
  by rewrite bool_decide_eq_false_2 by (by eapply polled_not_empty).
Qed.

Lemma download_after_job env tid inp cols w :
  ready tid w →
  let w' := after_job env tid inp cols w in
  Backend.process_file env tid inp cols w = (Ok tt, w') ∧
  Backend.download_file tid w' =
    (Ok (expected_download env inp (scenario_of env inp w)), w').
Proof.
  intros [Hfault [info Hinfo]] w'.
  destruct (process_file_end env tid inp cols w info Hfault Hinfo)
    as (Hrun & _ & _ & (info' & Hreg & _) & (rec & Hpoll & Hst & Hres) & Hfile).
  fold w' in Hrun, Hreg, Hpoll, Hfile. split; [exact Hrun|].
  assert (tid ∈ dom (active_tasks w')) as Hdom by (apply elem_of_dom; eauto).
  rewrite (download_file_eq tid w' rec _ Hdom Hpoll Hst).
  unfold expected_download.
  destruct (scenario_of env inp w) as [e|e| | |tool d];
    cbn [expected_status completes] in *;
    try (rewrite bool_decide_eq_true_2 by discriminate; reflexivity);
    rewrite bool_decide_eq_false_2 by (intros H; by apply H);
    rewrite (Hres eq_refl);
    rewrite (bool_decide_eq_true_2 _ (Hfile eq_refl));
    assert (Backend.truthy (JStr (output_path env inp)) = true) as ->
      by (cbn; apply negb_true_iff, String.eqb_neq, output_path_not_empty);
    reflexivity.
Qed.

(** X7. After [process_file] has run a registered job (no write
    failing), the result boundary serves the file at the crew's output
    path when the agents wrote it or the fallback ran on the input, and
    answers 400 in every other case: the crew could not be built, the
    agents raised, or the fallback found no input file. *)
Theorem job_result_is_served env tid inp cols w :
  ready tid w →
  let w' := after_job env tid inp cols w in
  Backend.process_file env tid inp cols w = (Ok tt, w') ∧
  Backend.download_file tid w' =
    (Ok (expected_download env inp (scenario_of env inp w)), w').
Proof. apply download_after_job. Qed.

Lemma job_result_is_served_witness :
  Backend.download_file "job-1"
    (after_job idle_env "job-1" "data/in.csv" ["Category ID"]
       world_without_cluster) =
    (Ok (Backend.FileResponse "data/enriched_0f3a_in.csv" "text/csv"
           "enriched_0f3a_in.csv"),
     after_job idle_env "job-1" "data/in.csv" ["Category ID"]
       world_without_cluster) ∧
  Backend.download_file "job-1"
    (after_job overloaded_env "job-1" "data/in.csv" ["Category ID"]
       (fresh_world ∅)) =
    (Ok (Backend.HTTPException 400 "Task is not completed yet"),
     after_job overloaded_env "job-1" "data/in.csv" ["Category ID"]
       (fresh_world ∅)).
Proof.
  split.
  - destruct (job_result_is_served idle_env "job-1" "data/in.csv"
                ["Category ID"] world_without_cluster) as [_ H].
    { split; [reflexivity|]. eexists. vm_compute. reflexivity. }
    exact H.
  - destruct (job_result_is_served overloaded_env "job-1" "data/in.csv"
                ["Category ID"] (fresh_world ∅)) as [_ H].
    { split; [reflexivity|]. eexists. vm_compute. reflexivity. }
    exact H.
Defined.

(** X8. After [process_file] has run a registered job, the status
    boundary answers with the record of the job, and the registry and
    the record agree: both say completed or both say failed, and for a
    completed job both name the crew's output path. *)
Theorem status_and_registry_agree env tid inp cols w :
  ready tid w →
  let w' := after_job env tid inp cols w in
  let s := scenario_of env inp w in
  ∃ rec info',
    Backend.get_task_status tid w' = (Ok (Backend.StateResponse rec), w') ∧
    active_tasks w' !! tid = Some info' ∧
    rec !! "status" = Some (JStr (expected_status s)) ∧
    info' !! "status" = Some (JStr (expected_status s)) ∧
    (completes s = true →
     rec !! "result" = Some (JStr (output_path env inp)) ∧
     info' !! "output_file" = Some (JStr (output_path env inp))).
Proof.
  intros [Hfault [info Hinfo]] w' s.
  destruct (process_file_end env tid inp cols w info Hfault Hinfo)
    as (_ & _ & _ & (info' & Hreg & Hist & Hiout) & (rec & Hpoll & Hst & Hres)
        & _).
  fold w' in Hreg, Hpoll. fold s in Hist, Hiout, Hst, Hres.
  exists rec, info'.
  assert (tid ∈ dom (active_tasks w')) as Hdom by (apply elem_of_dom; eauto).
  split; [by eapply get_task_status_eq|]. auto 10.
Qed.

Lemma status_and_registry_agree_witness :
  ∃ rec info' : gmap string json,
    Backend.get_task_status "job-1"
      (after_job overloaded_env "job-1" "data/in.csv" ["Category ID"]
         (fresh_world ∅)) =
      (Ok (Backend.StateResponse rec),
       after_job overloaded_env "job-1" "data/in.csv" ["Category ID"]
         (fresh_world ∅)) ∧
    rec !! "status" = Some (JStr "failed") ∧
    info' !! "status" = Some (JStr "failed").
Proof.
  destruct (status_and_registry_agree overloaded_env "job-1" "data/in.csv"
              ["Category ID"] (fresh_world ∅))
    as (rec & info' & Hstatus & _ & Hrec & Hinfo & _).
  { split; [reflexivity|]. eexists. vm_compute. reflexivity. }
  exists rec, info'. split; [exact Hstatus|]. split; [exact Hrec|exact Hinfo].
Defined.

Lemma run_background_one env j w :
  Backend.run_background env [j] w =
  (Backend.process_file env (Backend.job_task_id j) (Backend.job_input_file j)
     (Backend.job_category_columns j) ;; ret tt) w.
Proof. reflexivity. Qed.

(** X9. From upload to download, when the agents return without writing
    a file: the uploaded table is saved, the background task runs
    [process_file], the fallback enriches the uploaded table, and the
    result boundary then serves a file that holds the table as the
    fallback filled it. *)
Theorem uploaded_table_is_served_enriched env file_hex task_uuid stem content
    cols tool r w :
  pending_fault w = None →
  let filename := stem ++ ".csv" in
  let inp := upload_path file_hex filename in
  let files := <[inp := content]> (csv_files w) in
  make_tools env = Ok tool →
  kickoff env files = (Ok r, files) →
  files !! output_path env inp = None →
  ∃ w1 w2,
    Backend.upload_file file_hex task_uuid filename content true cols w =
      (Ok (Backend.StateResponse {[ "task_id" := JStr task_uuid ]},
           [upload_job file_hex task_uuid filename cols content]), w1) ∧
    Backend.run_background env
      [upload_job file_hex task_uuid filename cols content] w1 = (Ok tt, w2) ∧
    Backend.download_file task_uuid w2 =
      (Ok (Backend.FileResponse (output_path env inp) "text/csv"
             (basename (output_path env inp))), w2) ∧
    csv_files w2 !! output_path env inp =
      Some (Fallback.df (Fallback.enrich tool content)).
Proof.
  intros Hf filename inp files Htools Hkick Hout.
  destruct (upload_file_ok file_hex task_uuid stem content true cols w Hf)
    as (Hup & Hready).
  set (w1 := uploaded file_hex task_uuid filename cols content w) in *.
  assert (scenario_of env inp w1 = FallbackRan tool content) as Hs.
  { unfold scenario_of. rewrite Htools.
    replace (csv_files w1) with files by reflexivity. rewrite Hkick.
    rewrite bool_decide_eq_false_2 by (rewrite Hout; by intros [? ?]).
    unfold files. by rewrite lookup_insert_eq. }
  destruct Hready as [Hf1 [info Hinfo]].
  destruct (process_file_end env task_uuid inp
              (upload_columns cols content) w1 info Hf1 Hinfo)
    as (Hrun & _ & Hfiles & _).
  destruct (download_after_job env task_uuid inp
              (upload_columns cols content) w1) as [_ Hdown];
    [split; eauto|].
  rewrite Hs in Hdown. unfold expected_download in Hdown.
  cbn [completes] in Hdown.
  eexists w1, _. split; [exact Hup|].
  split; [rewrite run_background_one; erewrite bind_ok; [reflexivity|exact Hrun]|].
  split; [exact Hdown|].
  rewrite Hfiles. unfold files_after_job. rewrite Hs. apply lookup_insert_eq.
Qed.

Lemma uploaded_table_is_served_enriched_witness :
  ∃ w2,
    Backend.download_file "7c9e" w2 =
      (Ok (Backend.FileResponse "data/enriched_0f3a_0f3a_phones.csv"
             "text/csv" "enriched_0f3a_0f3a_phones.csv"), w2) ∧
    csv_files w2 !! "data/enriched_0f3a_0f3a_phones.csv" =
      Some (Fallback.df (Fallback.enrich silent_tool phones_csv)).
Proof.
  destruct (uploaded_table_is_served_enriched idle_env "0f3a" "7c9e" "phones"
              phones_csv None silent_tool "No enrichment was possible."
              empty_world eq_refl eq_refl eq_refl)
    as (w1 & w2 & _ & _ & Hdown & Hfile).
  { vm_compute. reflexivity. }
  exists w2. split; [exact Hdown|exact Hfile].
Defined.

Lemma fallback_entered_iff env inp w :
  fallback_entered (scenario_of env inp w) = true ↔
  ∃ tool r files,
    make_tools env = Ok tool ∧
    kickoff env (csv_files w) = (Ok r, files) ∧
    files !! output_path env inp = None.
Proof.
  unfold scenario_of.
  destruct (make_tools env) as [tool|e].
  2:{ split; [done|]. by intros (? & ? & ? & ? & _). }
  destruct (kickoff env (csv_files w)) as [[r|e] files].
  2:{ split; [done|]. by intros (? & ? & ? & _ & ? & _). }
  case_bool_decide as Hout.
  - split; [done|]. intros (? & ? & ? & _ & [= _ <-] & Hnone).
    rewrite Hnone in Hout. by destruct Hout.
  - assert (files !! output_path env inp = None) as Hnone.
    { destruct (files !! output_path env inp) eqn:E; [|done].
      exfalso. apply Hout. eauto. }
    split; [intros _; eauto 10|intros _]. by destruct (files !! inp).
Qed.

(** X14. In a job that [process_file] runs, the fallback is entered
    exactly when the crew could be built, the agents returned without
    raising, and no file exists at the output path afterwards. When the
    agents wrote the output file, the CSV files are left as the agents
    left them and the job completes. *)
Theorem fallback_only_without_output env tid inp cols w :
  ready tid w →
  ∃ w' evs rec,
    job_ran env tid inp cols w w' evs rec ∧
    (EvFallback ∈ evs ↔
     ∃ tool r files,
       make_tools env = Ok tool ∧
       kickoff env (csv_files w) = (Ok r, files) ∧
       files !! output_path env inp = None) ∧
    (scenario_of env inp w = AgentWrote →
     csv_files w' = files_after_kickoff env w ∧
     rec !! "status" = Some (JStr "completed")).
Proof.
  intros Hready.
  destruct (process_file_report env tid inp cols w Hready)
    as (w' & evs & rec & Hran & _ & Hst & _ & Hfb & _).
  exists w', evs, rec. split; [exact Hran|]. split.
  - rewrite Hfb. apply fallback_entered_iff.
  - intros Hs. destruct Hready as [Hfault [info Hinfo]].
    destruct (process_file_end env tid inp cols w info Hfault Hinfo)
      as (Hrun & _ & Hfiles & _).
    destruct Hran as (Hrun' & _). rewrite Hrun' in Hrun.
    injection Hrun as Hw'. rewrite <- Hw' in Hfiles.
    unfold files_after_job in Hfiles. rewrite Hs in Hfiles, Hst.
    split; [exact Hfiles|exact Hst].
Qed.

Lemma fallback_only_without_output_witness :
  ∃ w' evs rec,
    job_ran idle_env "job-1" "data/in.csv" ["Category ID"]
      world_without_cluster w' evs rec ∧
    EvFallback ∈ evs.
Proof.
  destruct (fallback_only_without_output idle_env "job-1" "data/in.csv"
              ["Category ID"] world_without_cluster)
    as (w' & evs & rec & Hran & Hfb & _).
  { split; [reflexivity|]. eexists. vm_compute. reflexivity. }
  exists w', evs, rec. split; [exact Hran|]. apply Hfb.
  exists silent_tool, "No enrichment was possible.",
    (csv_files world_without_cluster).
  split; [reflexivity|]. split; [reflexivity|]. vm_compute. reflexivity.
Defined.

(** *** The residual lookup, row by row *)

Lemma series_get_ok {S} cols r c (s : S) :
  c ∈ cols → series_get cols r c s = (Ok (r !! c), s).
Proof.
  intros Hc. unfold series_get, require_column, bind, ret.
  by rewrite bool_decide_eq_true_2.
Qed.

Lemma needs_lookup_ok cols row (s : FState) :
  "Category ID" ∈ cols → "Category Label" ∈ cols →
  needs_lookup cols row s =
  (Ok (isna (row !! "Category ID") || isna (row !! "Category Label")), s).
Proof.
  intros H1 H2. unfold needs_lookup.
  erewrite bind_ok; [|by apply series_get_ok].
  destruct (isna (row !! "Category ID")); [done|].
  erewrite bind_ok; [|by apply series_get_ok]. done.
Qed.

Lemma fill_from_search_ok idx row c m (s : FState) :
  c ∈ columns (df s) →
  ∃ s',
    fill_from_search (columns (df s)) idx row c m s = (Ok tt, s') ∧
    df s' = filled_from_search idx row c m (df s).
Proof.
  intros Hc. unfold fill_from_search, filled_from_search.
  destruct m as [g|]; [|by eexists].
  erewrite bind_ok; [|by apply series_get_ok].
  destruct (isna (row !! c)); [|by eexists].
  eexists. split; [reflexivity|done].
Qed.

Lemma columns_filled_from_search idx row c m d :
  c ∈ columns d → columns (filled_from_search idx row c m d) = columns d.
Proof.
  intros Hc. unfold filled_from_search.
  destruct m; [|done]. destruct (isna _); [|done].
  unfold set_at; simpl. by rewrite bool_decide_eq_true_2.
Qed.

Lemma rows_filled_from_search idx row c m d :
  rows d !! idx = Some row →
  rows (filled_from_search idx row c m d) =
    <[idx := search_fill c m row]> (rows d).
Proof.
  intros Hrow. unfold filled_from_search, search_fill, fill_cell.
  destruct m as [g|]; [|by rewrite list_insert_id].
  destruct (isna (row !! c)); [|by rewrite list_insert_id].
  unfold set_at; simpl. by apply list_alter_insert.
Qed.

Section with_tool.
Context (tool : option value → outcome string).

Lemma residual_row_ok idx row (s : FState) :
"Category ID" ∈ columns (df s) → "Category Label" ∈ columns (df s) →
"Product Title" ∈ columns (df s) →
rows (df s) !! idx = Some row →
∃ s',
  residual_row tool (columns (df s)) idx row s = (Ok tt, s') ∧
  columns (df s') = columns (df s) ∧
  rows (df s') = <[idx := searched_row tool row]> (rows (df s)).
Proof.
intros Hid Hlabel Htitle Hrow. unfold residual_row, searched_row.
erewrite bind_ok; [|by apply needs_lookup_ok].
destruct (isna (row !! "Category ID") || isna (row !! "Category Label"));
  [|eexists; split; [reflexivity|]; by rewrite list_insert_id].
erewrite bind_ok; [|reflexivity].
erewrite bind_ok; [|by apply series_get_ok].
destruct (tool (row !! "Product Title")) as [res|e] eqn:Htool.
2:{ eexists. split.
    - erewrite try_except_raise; [reflexivity|].
      unfold search_and_fill, call_search_tool, bind. by rewrite Htool.
    - cbn. by rewrite list_insert_id. }
unfold search_and_fill, call_search_tool.
set (s0 := incr_rows s).
destruct (fill_from_search_ok idx row "Category ID"
            (re_search_category_id res) s0 Hid) as (s1 & E1 & D1).
assert (columns (df s1) = columns (df s)) as C1
  by (rewrite D1; by apply columns_filled_from_search).
destruct (fill_from_search_ok idx row "Category Label"
            (re_search_category_label res) s1) as (s2 & E2 & D2);
  [by rewrite C1|].
exists s2. split; [|split].
- erewrite try_except_ok; [reflexivity|].
  unfold bind at 1. rewrite Htool.
  erewrite bind_ok; [|exact E1]. rewrite <- C1. exact E2.
- rewrite D2, columns_filled_from_search by (by rewrite C1). exact C1.
- rewrite D2, D1.
  pose proof (rows_filled_from_search idx row "Category ID"
                (re_search_category_id res) (df s0) Hrow) as R1.
  unfold filled_from_search at 1.
  destruct (re_search_category_label res) as [g|] eqn:Hm;
    [|by rewrite R1].
  cbn [search_fill]. unfold fill_cell at 1.
  assert (search_fill "Category ID" (re_search_category_id res) row
            !! "Category Label" = row !! "Category Label") as ->.
  { unfold search_fill. destruct (re_search_category_id res); [|done].
    by apply fill_cell_lookup_ne. }
  destruct (isna (row !! "Category Label")); [|by rewrite R1].
  unfold set_at; cbn [rows]. rewrite R1.
  erewrite list_alter_insert;
    [|apply list_lookup_insert_eq; by eapply lookup_lt_Some].
  by rewrite list_insert_insert_eq.
Qed.

Lemma residual_loop_ok cols : ∀ rs pre (s : FState),
cols = columns (df s) →
"Category ID" ∈ cols → "Category Label" ∈ cols → "Product Title" ∈ cols →
rows (df s) = (pre ++ rs)%list →
∃ s',
  residual_loop tool cols (length pre) rs s = (Ok tt, s') ∧
  columns (df s') = cols ∧
  rows (df s') = (pre ++ map (searched_row tool) rs)%list.
Proof.
induction rs as [|row rs IH]; intros pre s -> Hid Hlabel Htitle Hrows.
- exists s. by rewrite Hrows.
- assert (rows (df s) !! length pre = Some row) as Hrow.
  { rewrite Hrows. by rewrite list_lookup_middle. }
  destruct (residual_row_ok (length pre) row s Hid Hlabel Htitle Hrow)
    as (s1 & E1 & C1 & R1).
  destruct (IH (pre ++ [searched_row tool row])%list s1 (eq_sym C1)
              Hid Hlabel Htitle) as (s2 & E2 & C2 & R2).
  { rewrite R1, Hrows. rewrite insert_app_r_alt by lia.
    rewrite Nat.sub_diag. cbn. by rewrite <- app_assoc. }
  exists s2. split; [|split].
  + cbn [residual_loop]. erewrite bind_ok; [|exact E1].
    rewrite length_app, Nat.add_1_r in E2. exact E2.
  + exact C2.
  + rewrite R2. cbn. by rewrite <- app_assoc.
Qed.

Lemma residual_lookup_ok (s : FState) :
"Category ID" ∈ columns (df s) → "Category Label" ∈ columns (df s) →
"Product Title" ∈ columns (df s) →
∃ s',
  residual_lookup tool s = (Ok tt, s') ∧
  columns (df s') = columns (df s) ∧
  rows (df s') = map (searched_row tool) (rows (df s)).
Proof.
intros Hid Hlabel Htitle. unfold residual_lookup.
destruct (residual_loop_ok (columns (df s)) (rows (df s)) [] s eq_refl
            Hid Hlabel Htitle eq_refl) as (s' & E & C & R).
exists s'. split; [|done]. by erewrite bind_ok.
Qed.

(** X10. On a table that has the columns 'Cluster ID', 'Category ID',
  'Category Label' and 'Product Title', neither pass of the fallback
  raises, and the second pass works row by row on the table the first
  pass left: a row with both category values is kept; for a row that
  misses one, the search tool is asked with the row's product title,
  and each missing category cell receives the stripped match of its
  pattern in the answer, if there is one; a row for which the tool
  raises is kept. *)
Theorem fallback_row_by_row d :
has_pass1_columns d → "Product Title" ∈ columns d →
passes_raised tool d = None ∧
columns (df (enrich tool d)) = columns d ∧
rows (df (enrich tool d)) =
  map (searched_row tool) (rows (df (after_propagation d))).
Proof.
intros Hcols Htitle.
destruct (group_propagation_ok d Hcols) as (s1 & E1 & C1 & _).
destruct Hcols as (_ & Hid & Hlabel).
destruct (residual_lookup_ok s1) as (s2 & E2 & C2 & R2);
  [by rewrite C1..|].
assert ((group_propagation ;; residual_lookup tool) (init d) = (Ok tt, s2))
  as E by (by erewrite bind_ok).
unfold passes_raised, enrich, fallback_passes, after_propagation.
rewrite E. erewrite try_except_ok by exact E. rewrite E1. cbn [snd].
split; [done|]. split; [by rewrite C2|done].
Qed.
End with_tool.

Lemma fallback_row_by_row_witness :
  rows (df (enrich title_tool (titled_table "phone a"))) =
    [<["Category Label" := VStr "Mobile Phones"]>
       (<["Category ID" := VStr "2612"]>
          (mk_row (Some (VStr "phone a")) (Some (VNum 1)) None None))].
Proof.
  destruct (fallback_row_by_row title_tool (titled_table "phone a"))
    as (_ & _ & Hrows).
  - apply has_pass1_columns_product. reflexivity.
  - apply list_elem_of_here.
  - rewrite Hrows. vm_compute. reflexivity.
Defined.

(** *** A search tool that fails *)

Lemma residual_row_unchanged tool cols idx row (s : FState) o s' :
  always_fails tool →
  residual_row tool cols idx row s = (o, s') →
  df s' = df s ∧ enrichment_count s' = enrichment_count s.
Proof.
  intros Hfail E. unfold residual_row in E.
  inv_bind E; [|by apply needs_lookup_inv in E as ->].
  apply needs_lookup_inv in E0 as ->.
  destruct a; [|by inversion E].
  inv_bind E; [|inversion E].
  unfold modify in E0. inversion E0; subst; clear E0.
  inv_bind E; [|by apply series_get_inv in E as [-> _]].
  apply series_get_inv in E0 as [-> _].
  destruct (Hfail a) as [e He].
  assert (search_and_fill tool cols idx row a (incr_rows s) =
            (Raise e, incr_rows s)) as Hs
    by (unfold search_and_fill, call_search_tool, bind; by rewrite He).
  unfold try_except in E. rewrite Hs in E. by inversion E.
Qed.

Lemma residual_loop_unchanged tool cols rs : ∀ idx (s : FState) o s',
  always_fails tool →
  residual_loop tool cols idx rs s = (o, s') →
  df s' = df s ∧ enrichment_count s' = enrichment_count s.
Proof.
  induction rs as [|row rs IH]; intros idx s o s' Hfail E; simpl in E.
  - by inversion E.
  - inv_bind E.
    + apply residual_row_unchanged in E0 as [D0 C0]; [|done].
      apply IH in E as [D C]; [|done]. split; congruence.
    + by apply residual_row_unchanged in E.
Qed.

(** X11. When the search tool fails on every query, the fallback leaves
    the table as group propagation leaves it, whatever the table: the
    failures are caught row by row, no cell is written by the second
    pass, and the count of enrichments is the one of the first pass. *)
Theorem failing_search_leaves_propagation tool d :
  always_fails tool →
  df (enrich tool d) = df (after_propagation d) ∧
  enrichment_count (enrich tool d) = enrichment_count (after_propagation d).
Proof.
  intros Hfail. unfold enrich, after_propagation, fallback_passes.
  unfold try_except, bind.
  destruct (group_propagation (init d)) as [[[]|e] s1]; [|done].
  cbn [snd].
  destruct (residual_lookup tool s1) as [o2 s2] eqn:E2.
  assert (df s2 = df s1 ∧ enrichment_count s2 = enrichment_count s1) as H.
  { unfold residual_lookup in E2. inv_bind E2; [|inversion E2].
    inversion E0; subst; clear E0.
    by eapply residual_loop_unchanged. }
  by destruct o2.
Qed.

Lemma failing_search_leaves_propagation_witness :
  df (enrich silent_tool shoes_and_hats) =
    df (after_propagation shoes_and_hats) ∧
  enrichment_count (enrich silent_tool shoes_and_hats) = 2%nat.
Proof.
  destruct (failing_search_leaves_propagation silent_tool shoes_and_hats)
    as [Hdf Hcount].
  - intros q. eexists. reflexivity.
  - split; [exact Hdf|]. rewrite Hcount. vm_compute. reflexivity.
Defined.

(** *** Missing values before and after the fallback *)

Lemma filter_length_le {A} (P Q : A → Prop) `{∀ x, Decision (P x)}
    `{∀ x, Decision (Q x)} (l : list A) :
  (∀ x, x ∈ l → P x → Q x) → (length (filter P l) ≤ length (filter Q l))%nat.
Proof.
  induction l as [|x l IH]; intros HPQ; [done|].
  rewrite !filter_cons.
  assert ((length (filter P l) ≤ length (filter Q l))%nat) as Hle
    by (apply IH; intros y Hy; apply HPQ; by apply list_elem_of_further).
  destruct (decide (P x)) as [HP|HP].
  - rewrite decide_True by (apply HPQ; [apply list_elem_of_here|done]).
    simpl. lia.
  - destruct (decide (Q x)); simpl; lia.
Qed.

Lemma filter_length_eq {A} (P Q : A → Prop) `{∀ x, Decision (P x)}
    `{∀ x, Decision (Q x)} (l : list A) :
  (∀ x, x ∈ l → P x → Q x) →
  length (filter P l) = length (filter Q l) →
  ∀ x, x ∈ l → Q x → P x.
Proof.
  induction l as [|x l IH]; intros HPQ Hlen y Hy HQ;
    [by apply elem_of_nil in Hy|].
  assert (∀ z, z ∈ l → P z → Q z) as HPQ'
    by (intros z Hz; apply HPQ; by apply list_elem_of_further).
  pose proof (filter_length_le P Q l HPQ') as Hle.
  rewrite !filter_cons in Hlen.
  destruct (decide (P x)) as [HP|HP].
  - rewrite decide_True in Hlen
      by (apply HPQ; [apply list_elem_of_here|done]).
    simpl in Hlen.
    apply elem_of_cons in Hy as [->|Hy]; [done|].
    apply IH; [done|lia|done..].
  - destruct (decide (Q x)) as [HQx|HQx]; simpl in Hlen; [lia|].
    apply elem_of_cons in Hy as [->|Hy]; [done|].
    by apply IH.
Qed.

Lemma frame_eq d d' :
  columns d' = columns d → length (rows d') = length (rows d) →
  (∀ i c, cell d' i c = cell d i c) → d' = d.
Proof.
  destruct d as [cs rs], d' as [cs' rs']. cbn. intros -> Hl Hcell.
  f_equal. apply list_eq. intros i.
  destruct (rs !! i) as [r|] eqn:E.
  - destruct (lookup_lt_is_Some_2 rs' i) as [r' E'].
    { rewrite Hl. by eapply lookup_lt_Some. }
    rewrite E'. f_equal. apply map_eq. intros c.
    specialize (Hcell i c). unfold cell in Hcell; cbn in Hcell.
    by rewrite E, E' in Hcell.
  - apply lookup_ge_None. rewrite Hl. by apply lookup_ge_None.
Qed.

Lemma fills_only_missing d d' i c :
  fills_only d d' → cell d' i c = None → cell d i c = None.
Proof.
  intros (_ & _ & Hcell) Hna. destruct (Hcell i c) as [H|[H _]]; congruence.
Qed.

Lemma missing_count_le d d' c :
  fills_only d d' → (missing_count c d' ≤ missing_count c d)%nat.
Proof.
  intros Hfill. unfold missing_count.
  destruct Hfill as (Hc & Hl & Hcell). rewrite Hl.
  apply filter_length_le. intros i _ Hi.
  destruct (cell d' i c) eqn:E; [done|].
  by rewrite (fills_only_missing d d' i c).
Qed.

Lemma missing_count_eq d d' c i :
  fills_only d d' → missing_count c d' = missing_count c d →
  cell d i c = None → cell d' i c = None.
Proof.
  intros Hfill Hcount Hna.
  destruct (decide (i < length (rows d))%nat) as [Hi|Hi].
  2:{ unfold cell. destruct Hfill as (_ & Hl & _).
      rewrite (proj2 (lookup_ge_None (rows d') i)); [done|lia]. }
  unfold missing_count in Hcount.
  pose proof Hfill as (_ & Hl & _). rewrite Hl in Hcount.
  assert (isna (cell d' i c) = true) as H.
  { eapply (filter_length_eq (λ i, isna (cell d' i c) = true)
             (λ i, isna (cell d i c) = true)); [|exact Hcount| |].
    - intros j _ Hj. destruct (cell d' j c) eqn:E; [done|].
      by rewrite (fills_only_missing d d' j c).
    - apply elem_of_seq. lia.
    - by rewrite Hna. }
  by destruct (cell d' i c).
Qed.

(** X12. In the terms of [test_enrichment.py]: the fallback never leaves
    more missing values in a column than the input has (the improvement
    the test computes is never negative), and when the numbers of missing
    Category IDs and of missing Category Labels are both as before, the
    table the fallback saves is the input table, cell for cell. *)
Theorem fallback_improvement tool d :
  let d' := df (enrich tool d) in
  (∀ c, (missing_count c d' ≤ missing_count c d)%nat) ∧
  (missing_count "Category ID" d' = missing_count "Category ID" d →
   missing_count "Category Label" d' = missing_count "Category Label" d →
   d' = d).
Proof.
  intros d'. pose proof (enrich_fills tool d) as Hfill. fold d' in Hfill.
  split; [intros c; by apply missing_count_le|].
  intros Hid Hlabel. pose proof Hfill as (Hc & Hl & Hcell).
  apply frame_eq; [done..|]. intros i c.
  destruct (Hcell i c) as [H|[Hna [-> | ->]]]; [done|..]; rewrite Hna.
  - by apply (missing_count_eq d d' "Category ID").
  - by apply (missing_count_eq d d' "Category Label").
Qed.

Lemma fallback_improvement_witness :
  missing_count "Category Label" (df (enrich silent_tool shoes_and_hats)) = 0%nat ∧
  missing_count "Category Label" shoes_and_hats = 2%nat ∧
  df (enrich silent_tool filled_table) = filled_table.
Proof.
  split; [vm_compute; reflexivity|]. split; [vm_compute; reflexivity|].
  destruct (fallback_improvement silent_tool filled_table) as [_ Hsame].
  apply Hsame; vm_compute; reflexivity.
Defined.

(** *** What the search patterns can match *)













(** *** The pattern of [_apply_enrichments] *)

Lemma value_until_quote_shape s g rest :
  value_until_quote s = Some (g, rest) → one_line g ∧ unquoted g.
Proof.
  unfold one_line, unquoted, chars. revert g rest.
  induction s as [|c s IH]; intros g rest; [done|]. cbn [value_until_quote].
  destruct (is_quote c) eqn:Hq.
  { intros [= <- _]. split; apply Forall_nil_2. }
  destruct (is_newline c) eqn:Hn; [done|].
  destruct (value_until_quote s) as [[g' r']|]; [|done].
  intros [= <- _]. destruct (IH g' r' eq_refl) as [H1 H2].
  split; by apply Forall_cons.
Qed.

Lemma quoted_value_shape s g rest :
  quoted_value s = Some (g, rest) → one_line g ∧ unquoted g.
Proof.
  destruct s as [|c s]; [done|]. cbn. destruct (is_quote c); [|done].
  apply value_until_quote_shape.
Qed.

Lemma ws_quoted_value_shape s g rest :
  ws_quoted_value s = Some (g, rest) → one_line g ∧ unquoted g.
Proof.
  induction s as [|c s IH]; [done|]. cbn [ws_quoted_value].
  destruct (is_space c).
  - destruct (ws_quoted_value s) as [[g' r']|].
    + intros [= <- <-]. by apply IH.
    + apply quoted_value_shape.
  - apply quoted_value_shape.
Qed.

Lemma colon_ws_quoted_value_shape s g rest :
  colon_ws_quoted_value s = Some (g, rest) → one_line g ∧ unquoted g.
Proof.
  destruct s as [|c s]; [done|]. cbn [colon_ws_quoted_value].
  destruct (Ascii.eqb c ":").
  - destruct (ws_quoted_value s) as [[g' r']|] eqn:E.
    + intros [= <- <-]. by eapply ws_quoted_value_shape.
    + apply ws_quoted_value_shape.
  - apply ws_quoted_value_shape.
Qed.

Lemma column_until_quote_shape s c v rest :
  column_until_quote s = Some (c, (v, rest)) →
  one_line c ∧ one_line v ∧ unquoted v.
Proof.
  revert c v rest. induction s as [|a s IH]; intros c v rest; [done|].
  cbn [column_until_quote].
  destruct (if is_quote a then colon_ws_quoted_value s else None)
    as [[v' r']|] eqn:E.
  - intros [= <- <- <-]. destruct (is_quote a); [|done].
    apply colon_ws_quoted_value_shape in E.
    split; [apply Forall_nil_2|exact E].
  - destruct (is_newline a) eqn:Hn; [done|].
    destruct (column_until_quote s) as [[c' [v' r']]|]; [|done].
    intros [= <- <- <-]. destruct (IH c' v' r' eq_refl) as (H1 & H2).
    split; [|exact H2]. unfold one_line, chars. cbn. by apply Forall_cons.
Qed.

Lemma column_entry_shape s c v rest :
  column_entry s = Some (c, (v, rest)) →
  one_line c ∧ one_line v ∧ unquoted v.
Proof.
  unfold column_entry. destruct (strip_prefix "Column " s) as [[|a t]|];
    [done| |done].
  destruct (is_quote a); [|done]. apply column_until_quote_shape.
Qed.

Lemma skip_to_column_shape s c v rest :
  skip_to_column s = Some (c, (v, rest)) →
  one_line c ∧ one_line v ∧ unquoted v.
Proof.
  induction s as [|a s IH]; cbn [skip_to_column].
  - destruct (column_entry "") as [r|] eqn:E; [|done].
    intros [= ->]. by apply column_entry_shape in E.
  - destruct (column_entry (String a s)) as [r|] eqn:E.
    + intros [= ->]. by apply column_entry_shape in E.
    + destruct (is_newline a); [done|]. exact IH.
Qed.

Lemma digits_then_column_shape s r c v rest :
  digits_then_column s = Some (r, (c, (v, rest))) →
  r ≠ "" ∧ Forall (λ a, is_digit a = true) (chars r) ∧
  one_line c ∧ one_line v ∧ unquoted v.
Proof.
  revert r c v rest. induction s as [|a s IH]; intros r c v rest; [done|].
  cbn [digits_then_column]. destruct (is_digit a) eqn:Hd; [|done].
  destruct (digits_then_column s) as [[ds [c' [v' r']]]|] eqn:E.
  - intros [= <- <- <- <-].
    destruct (IH ds c' v' r' eq_refl) as (_ & Hds & Hrest).
    split; [done|]. split; [|exact Hrest].
    unfold chars. cbn. by apply Forall_cons.
  - destruct (skip_to_column s) as [[c' [v' r']]|] eqn:E'; [|done].
    intros [= <- <- <- <-]. apply skip_to_column_shape in E'.
    split; [done|]. split; [|exact E'].
    unfold chars. cbn. apply Forall_cons. split; [done|apply Forall_nil_2].
Qed.

Lemma strip_prefix_prefix lit : ∀ s t,
  strip_prefix lit s = Some t → String.prefix lit s = true.
Proof.
  induction lit as [|a lit IH]; intros s t; [by destruct s|].
  destruct s as [|b s]; [done|]. cbn [strip_prefix String.prefix].
  destruct (Ascii.eqb_spec a b) as [->|Hab]; [|done].
  destruct (ascii_dec b b); [|done]. apply IH.
Qed.

Lemma match_row_shape s r c v rest :
  match_row s = Some (r, (c, (v, rest))) →
  String.prefix "Row " s = true ∧
  r ≠ "" ∧ Forall (λ a, is_digit a = true) (chars r) ∧
  one_line c ∧ one_line v ∧ unquoted v.
Proof.
  unfold match_row. intros H.
  destruct (strip_prefix "Row " s) as [t|] eqn:E; [|done]. cbn in H.
  split; [by eapply strip_prefix_prefix|by eapply digits_then_column_shape].
Qed.

Lemma findall_from_shape s : ∀ skip r c v,
  (r, c, v) ∈ findall_from skip s →
  r ≠ "" ∧ Forall (λ a, is_digit a = true) (chars r) ∧
  one_line c ∧ one_line v ∧ unquoted v.
Proof.
  induction s as [|a s IH]; intros skip r c v Hin;
    [by apply elem_of_nil in Hin|].
  cbn [findall_from] in Hin. destruct skip as [|skip]; [|by eapply IH].
  destruct (match_row (String a s)) as [[r' [c' [v' rest]]]|] eqn:E;
    [|by eapply IH].
  apply elem_of_cons in Hin as [[= -> -> ->]|Hin]; [|by eapply IH].
  by apply match_row_shape in E as (_ & H).
Qed.

Lemma findall_from_count s : ∀ skip,
  (length (findall_from skip s) ≤ occurrences "Row " s)%nat.
Proof.
  induction s as [|a s IH]; intros skip; [cbn; lia|].
  cbn [findall_from occurrences]. destruct skip as [|skip].
  - destruct (match_row (String a s)) as [[r' [c' [v' rest]]]|] eqn:E.
    + apply match_row_shape in E as (-> & _). cbn [length].
      specialize (IH (String.length (String a s) - String.length rest - 1)%nat).
      lia.
    + specialize (IH 0%nat). lia.
  - specialize (IH skip). lia.
Qed.

(** X15. What [re.findall] finds in the crew's text with the pattern of
    [_apply_enrichments]: in every match the row group is not empty, the
    column name has no newline, and the value has no newline and no
    quote character, so a value ends at the first apostrophe or double
    quote in it. There are never more matches than the text has places
    where [Row ] starts: a line that names its row once gives one match
    at most, however many columns it lists. *)
Theorem findall_matches text :
  Forall (λ m : string * string * string,
    m.1.1 ≠ "" ∧ one_line m.1.2 ∧ one_line m.2 ∧ unquoted m.2)
    (findall text) ∧
  (length (findall text) ≤ occurrences "Row " text)%nat.
Proof.
  split; [|apply findall_from_count].
  apply Forall_forall. intros [[r c] v] Hin.
  apply findall_from_shape in Hin as (? & _ & ?). done.
Qed.

Lemma findall_matches_witness :
  findall two_columns_answer = [("1", "Category Label", "Men")] ∧
  (length (findall two_columns_answer)
   ≤ occurrences "Row " two_columns_answer)%nat.
Proof.
  split; [vm_compute; reflexivity|].
  apply (findall_matches two_columns_answer).
Defined.

(** *** The matches applied to the table *)




(** *** The rows with a missing category *)

Lemma require_columns_ok {S} cols cs (s : S) :
  Forall (λ c, c ∈ cols) cs →
  FileHandler.require_columns cols cs s = (Ok tt, s).
Proof.
  unfold FileHandler.require_columns.
  induction 1 as [|c cs Hc _ IH]; [done|]. cbn [for_each].
  erewrite bind_ok; [exact IH|].
  unfold require_column. by rewrite bool_decide_eq_true_2.
Qed.

Lemma require_columns_raises {S} cols cs (s : S) :
  Exists (λ c, c ∉ cols) cs →
  ∃ c, c ∈ cs ∧ (c ∉ cols) ∧
       FileHandler.require_columns cols cs s = (Raise (KeyError c), s).
Proof.
  unfold FileHandler.require_columns.
  induction cs as [|c cs IH]; intros H; [by apply Exists_nil in H|].
  cbn [for_each]. destruct (decide (c ∈ cols)) as [Hc|Hc].
  - apply Exists_cons in H as [H|H]; [done|].
    destruct (IH H) as (c' & Hin & Hout & E).
    exists c'. split; [by apply list_elem_of_further|]. split; [done|].
    erewrite bind_ok; [exact E|].
    unfold require_column. by rewrite bool_decide_eq_true_2.
  - exists c. split; [apply list_elem_of_here|]. split; [done|].
    erewrite bind_raise; [reflexivity|].
    unfold require_column. by rewrite bool_decide_eq_false_2.
Qed.

Lemma any_missing_spec d cols i :
  FileHandler.any_missing d cols i = true ↔
  ∃ c, c ∈ cols ∧ isna (cell d i c) = true.
Proof.
  unfold FileHandler.any_missing. rewrite existsb_exists.
  split; intros (c & Hc & H); exists c; split; try done;
    by apply list_elem_of_In.
Qed.

Lemma select_rows_rows d labels :
  Forall (λ i, i < length (rows d))%nat labels →
  Forall2 (λ i r, rows d !! i = Some r) labels
    (rows (FileHandler.select_rows d labels)).
Proof.
  unfold FileHandler.select_rows. cbn [rows].
  induction 1 as [|i labels Hi _ IH]; [constructor|].
  cbn [omap list_omap].
  destruct (lookup_lt_is_Some_2 _ _ Hi) as [r Hr]. rewrite Hr.
  by constructor.
Qed.

(** X22. [identify_missing_categories]: when every category column is
    a column of the table, it returns the labels of the rows that miss
    a value in some category column, each once and in the order of the
    table, together with those rows, one for each label and with all
    their cells. When some category column is not a column of the table
    it raises a [KeyError] for such a column. *)
Theorem missing_categories_identified {S} d cols (s : S) :
  (Forall (λ c, c ∈ columns d) cols →
   ∃ labels,
     FileHandler.identify_missing_categories d cols s =
       (Ok (FileHandler.select_rows d labels, labels), s) ∧
     labels `sublist_of` seq 0 (length (rows d)) ∧
     (∀ i, i ∈ labels ↔
           (i < length (rows d))%nat ∧
           ∃ c, c ∈ cols ∧ isna (cell d i c) = true) ∧
     columns (FileHandler.select_rows d labels) = columns d ∧
     Forall2 (λ i r, rows d !! i = Some r) labels
       (rows (FileHandler.select_rows d labels))) ∧
  (Exists (λ c, c ∉ columns d) cols →
   ∃ c, c ∈ cols ∧ (c ∉ columns d) ∧
        FileHandler.identify_missing_categories d cols s =
          (Raise (KeyError c), s)).
Proof.
  unfold FileHandler.identify_missing_categories. split.
  - intros Hcols. eexists. split; [|split; [|split; [|split]]].
    + erewrite bind_ok; [reflexivity|by apply require_columns_ok].
    + apply sublist_filter.
    + intros i. rewrite list_elem_of_filter, elem_of_seq, any_missing_spec.
      split; [intros [? [_ ?]]; split; [lia|done]
             |intros [? ?]; split; [done|lia]].
    + done.
    + apply select_rows_rows. apply Forall_forall. intros i Hi.
      apply list_elem_of_filter in Hi as [_ Hi].
      apply elem_of_seq in Hi. lia.
  - intros Hex. destruct (require_columns_raises (columns d) cols s Hex)
      as (c & Hin & Hout & E).
    exists c. split; [done|]. split; [done|]. by erewrite bind_raise.
Qed.

Lemma missing_categories_identified_witness :
  (∃ labels,
     FileHandler.identify_missing_categories (titled_table "phone a")
       ["Category ID"; "Category Label"] tt =
       (Ok (FileHandler.select_rows (titled_table "phone a") labels, labels),
        tt) ∧
     (0%nat ∈ labels)) ∧
  (∃ c, (c ∉ columns (titled_table "phone a")) ∧
     FileHandler.identify_missing_categories (titled_table "phone a")
       ["Category ID"; "Brand"] tt = (Raise (KeyError c), tt)).
Proof.
  split.
  - destruct (proj1 (missing_categories_identified (titled_table "phone a")
                       ["Category ID"; "Category Label"] tt))
      as (labels & E & _ & Hin & _).
    { repeat constructor. }
    exists labels. split; [exact E|]. apply Hin. split; [cbn; lia|].
    exists "Category ID". split; [apply list_elem_of_here|reflexivity].
  - destruct (proj2 (missing_categories_identified (titled_table "phone a")
                       ["Category ID"; "Brand"] tt))
      as (c & _ & Hout & E).
    { apply Exists_cons_tl, Exists_cons_hd. intros H.
      unfold titled_table, product_columns in H. cbn [columns] in H.
      repeat (apply elem_of_cons in H as [H|H]; [discriminate H|]).
      by apply elem_of_nil in H. }
    by exists c.
Defined.

Local Open Scope nat_scope.

(** *** The retry loop of the crew in [data/] *)

Lemma bind_ext {S A B} (m : M S A) (k1 k2 : A → M S B) s :
  (∀ a s', k1 a s' = k2 a s') → bind m k1 s = bind m k2 s.
Proof. intros H. unfold bind. destruct (m s) as [[a|e] s']; [apply H|done]. Qed.

Lemma extends_refl self w : tracker_ok self w → extends self w w [] 0.
Proof. intros H. split; [done|]. exists []. by rewrite app_nil_r. Qed.

Lemma extends_trans self w1 w2 w3 ss1 ss2 k1 k2 :
  extends self w1 w2 ss1 k1 → extends self w2 w3 ss2 k2 →
  extends self w1 w3 (ss1 ++ ss2) (k1 + k2).
Proof.
  intros [_ (evs1 & E1 & S1 & K1)] [Hok (evs2 & E2 & S2 & K2)].
  split; [done|]. exists (evs1 ++ evs2)%list.
  rewrite E2, E1, <- app_assoc. split; [done|].
  unfold sleeps_of, kickoffs_of in *.
  rewrite !omap_app, length_app. by subst.
Qed.

Lemma update_progress_ok self p m w :
  tracker_ok self w →
  DataCrew._update_progress self p m w = (Ok tt, progress_noted self p m w) ∧
  extends self w (progress_noted self p m w) [] 0.
Proof.
  intros [Hf Hobj]. unfold DataCrew._update_progress, progress_noted.
  destruct (DataCrew.progress_tracker self) as [l|] eqn:Hl.
  - destruct (Hobj l eq_refl) as [t Ht]. rewrite Ht.
    split; [by apply update_ok|]. split.
    + split; [done|]. intros l' ?. simplify_eq. norm.
      rewrite list_lookup_insert_eq by (by eapply lookup_lt_Some). eauto.
    + eexists [_]. split; [reflexivity|done].
  - split; [done|]. apply extends_refl. split; [done|]. by rewrite Hl.
Qed.

Lemma log_kickoff_extends self w :
  tracker_ok self w → extends self w (log EvKickoff w) [] 1.
Proof. intros H. split; [done|]. by exists [EvKickoff]. Qed.

Lemma sleep_extends self s w :
  tracker_ok self w →
  sleep s w =
    (Ok tt, log (EvSleep s) (set_clock (λ t, (t + s)%Q) w)) ∧
  extends self w (log (EvSleep s) (set_clock (λ t, (t + s)%Q) w)) [s] 0.
Proof. intros H. split; [done|]. split; [done|]. by exists [EvSleep s]. Qed.

Section retry.
Context (kickoff : nat → outcome string)
        (_apply_enrichments :
           DataCrew.CSVEnrichmentCrew → string → M World unit)
        (self : DataCrew.CSVEnrichmentCrew).

Local Abbreviation attempt := (DataCrew.attempt kickoff _apply_enrichments).
Local Abbreviation retry_loop := (DataCrew.retry_loop kickoff _apply_enrichments).

(** More fuel than the attempts left changes nothing. *)
Lemma retry_loop_fuel fuel : ∀ k n w,
  (DataCrew.max_retries - n ≤ fuel)%nat →
  retry_loop (fuel + k) self n w = retry_loop fuel self n w.
Proof.
  induction fuel as [|fuel IH]; intros k n w Hn.
  - destruct k as [|k]; [done|]. simpl.
    replace (n <? DataCrew.max_retries) with false; [done|].
    symmetry. apply Nat.ltb_ge. lia.
  - simpl. destruct (n <? DataCrew.max_retries) eqn:Hlt; [|done]. simpl.
    unfold try_except.
    destruct (bind (attempt self n) _ w) as [[a|e] w1]; [done|].
    destruct (contains _ _ && _) eqn:Hc; [|done].
    apply bind_ext. intros _ w2. apply bind_ext. intros _ w3.
    apply IH. lia.
Qed.

(** An attempt in which the agents raise. *)
Lemma attempt_kickoff_raises n w e :
  tracker_ok self w → kickoff n = Raise e →
  ∃ w1, attempt self n w = (Raise e, w1) ∧ extends self w w1 [] 1.
Proof.
  intros Hok Hk. unfold DataCrew.attempt.
  destruct (update_progress_ok self (7 # 10)
              "Running CrewAI agents to process data..." w Hok)
    as [E1 X1].
  eexists. split.
  - erewrite bind_ok; [|exact E1].
    erewrite bind_raise; [reflexivity|].
    unfold DataCrew.crew_kickoff, bind, modify. by rewrite Hk.
  - apply (extends_trans _ _ _ _ [] [] 0 1 X1).
    apply log_kickoff_extends. apply X1.
Qed.

(** One turn of the loop that ends in a retry: the wait is five
    seconds times the number of the attempt that failed. *)
Lemma retry_turn fuel n w e w1 :
  (n < DataCrew.max_retries)%nat → (S n < DataCrew.max_retries)%nat →
  attempt self n w = (Raise e, w1) → overloaded e → tracker_ok self w1 →
  ∃ w2,
    retry_loop (S fuel) self n w = retry_loop fuel self (S n) w2 ∧
    extends self w1 w2 [inject_Z (5 * Z.of_nat (S n))] 0.
Proof.
  intros Hn HSn Hatt Hov Hok. cbn [DataCrew.retry_loop].
  replace (n <? DataCrew.max_retries) with true
    by (symmetry; by apply Nat.ltb_lt).
  cbn [negb]. erewrite try_except_raise; [|by erewrite bind_raise].
  rewrite Hov.
  replace (S n <? DataCrew.max_retries) with true
    by (symmetry; by apply Nat.ltb_lt).
  cbn [andb].
  match goal with
  | |- context [DataCrew._update_progress self ?p ?m] =>
      destruct (update_progress_ok self p m w1 Hok) as [E1 X1]
  end.
  destruct (sleep_extends self (inject_Z (Z.of_nat (5 * S n))) _ (proj1 X1))
    as [E2 X2].
  eexists. split.
  - erewrite bind_ok; [|exact E1]. erewrite bind_ok; [|exact E2].
    reflexivity.
  - replace (5 * Z.of_nat (S n))%Z with (Z.of_nat (5 * S n)) by lia.
    apply (extends_trans _ _ _ _ [] [_] 0 0 X1 X2).
Qed.

(** The last turn, or an error that is not an overload: the loop
    raises the error of the attempt. *)
Lemma last_turn fuel n w e w1 :
  (n < DataCrew.max_retries)%nat →
  attempt self n w = (Raise e, w1) →
  ¬ (overloaded e ∧ (S n < DataCrew.max_retries)%nat) →
  tracker_ok self w1 →
  ∃ w2,
    retry_loop (S fuel) self n w = (Raise e, w2) ∧
    extends self w1 w2 [] 0.
Proof.
  intros Hn Hatt Hnot Hok. cbn [DataCrew.retry_loop].
  replace (n <? DataCrew.max_retries) with true
    by (symmetry; by apply Nat.ltb_lt).
  cbn [negb]. erewrite try_except_raise; [|by erewrite bind_raise].
  replace (contains "overloaded_error" (str e)
           && (S n <? DataCrew.max_retries)) with false.
  2:{ symmetry. apply andb_false_iff.
      destruct (contains "overloaded_error" (str e)) eqn:Hc; [|by left].
      right. apply Nat.ltb_ge. unfold overloaded in Hnot.
      destruct (decide (S n < DataCrew.max_retries)); [|lia]. tauto. }
  destruct (DataCrew.max_retries <=? S n).
  - match goal with
    | |- context [DataCrew._update_progress self ?p ?m] =>
        destruct (update_progress_ok self p m w1 Hok) as [E1 X1]
    end.
    eexists. split; [|exact X1]. by erewrite bind_ok.
  - match goal with
    | |- context [DataCrew._update_progress self ?p ?m] =>
        destruct (update_progress_ok self p m w1 Hok) as [E1 X1]
    end.
    eexists. split; [|exact X1]. by erewrite bind_ok.
Qed.

Lemma run_prologue w :
  tracker_ok self w →
  ∃ w1,
    DataCrew.run kickoff _apply_enrichments self w =
      retry_loop DataCrew.max_retries self 0 w1 ∧
    extends self w w1 [] 0.
Proof.
  intros Hok. unfold DataCrew.run.
  destruct (update_progress_ok self (1 # 10)
              "Analyzing input CSV file..." w Hok) as [E1 X1].
  destruct (update_progress_ok self (3 # 10)
              "Enriching data with missing categories..." _ (proj1 X1))
    as [E2 X2].
  destruct (update_progress_ok self (6 # 10)
              "Verifying data quality..." _ (proj1 X2)) as [E3 X3].
  eexists. split.
  - erewrite bind_ok; [|exact E1]. erewrite bind_ok; [|exact E2].
    erewrite bind_ok; [|exact E3]. reflexivity.
  - apply (extends_trans _ _ _ _ [] [] 0 0 X1).
    apply (extends_trans _ _ _ _ [] [] 0 0 X2 X3).
Qed.

(** The policy of the loop: the wait of a retry, three overloads in a
    row, and an error that is not an overload. *)
Lemma retry_loop_policy w :
  tracker_ok self w →
  (∀ fuel n w0 e w1,
     n < DataCrew.max_retries → S n < DataCrew.max_retries →
     attempt self n w0 = (Raise e, w1) → overloaded e →
     tracker_ok self w1 →
     ∃ w2,
       retry_loop (S fuel) self n w0 = retry_loop fuel self (S n) w2 ∧
       extends self w1 w2 [inject_Z (5 * Z.of_nat (S n))] 0) ∧
  (∀ e0 e1 e2,
     kickoff 0 = Raise e0 → kickoff 1 = Raise e1 → kickoff 2 = Raise e2 →
     overloaded e0 → overloaded e1 →
     ∃ w',
       DataCrew.run kickoff _apply_enrichments self w = (Raise e2, w') ∧
       extends self w w' [5; 10]%Q 3) ∧
  (∀ e0,
     kickoff 0 = Raise e0 → ¬ overloaded e0 →
     ∃ w',
       DataCrew.run kickoff _apply_enrichments self w = (Raise e0, w') ∧
       extends self w w' [] 1).
Proof.
  intros Hok. split; [|split].
  - intros fuel n w0 e w1. apply retry_turn.
  - intros e0 e1 e2 K0 K1 K2 O0 O1.
    destruct (run_prologue w Hok) as (w1 & Erun & X1).
    destruct (attempt_kickoff_raises 0 w1 e0 (proj1 X1) K0)
      as (w2 & A0 & X2).
    destruct (retry_turn 2 0 w1 e0 w2) as (w3 & R0 & X3);
      [unfold DataCrew.max_retries; lia..|done|done|apply X2|].
    destruct (attempt_kickoff_raises 1 w3 e1 (proj1 X3) K1)
      as (w4 & A1 & X4).
    destruct (retry_turn 1 1 w3 e1 w4) as (w5 & R1 & X5);
      [unfold DataCrew.max_retries; lia..|done|done|apply X4|].
    destruct (attempt_kickoff_raises 2 w5 e2 (proj1 X5) K2)
      as (w6 & A2 & X6).
    destruct (last_turn 0 2 w5 e2 w6) as (w7 & R2 & X7);
      [unfold DataCrew.max_retries; lia|done| |apply X6|].
    { unfold DataCrew.max_retries. lia. }
    exists w7. split.
    + rewrite Erun. change DataCrew.max_retries with 3.
      by rewrite R0, R1, R2.
    + pose proof (extends_trans _ _ _ _ _ _ _ _ X1
                    (extends_trans _ _ _ _ _ _ _ _ X2
                    (extends_trans _ _ _ _ _ _ _ _ X3
                    (extends_trans _ _ _ _ _ _ _ _ X4
                    (extends_trans _ _ _ _ _ _ _ _ X5
                    (extends_trans _ _ _ _ _ _ _ _ X6 X7)))))) as X.
      exact X.
  - intros e0 K0 Hnot.
    destruct (run_prologue w Hok) as (w1 & Erun & X1).
    destruct (attempt_kickoff_raises 0 w1 e0 (proj1 X1) K0)
      as (w2 & A0 & X2).
    destruct (last_turn 2 0 w1 e0 w2) as (w3 & R0 & X3);
      [unfold DataCrew.max_retries; lia|done|tauto|apply X2|].
    exists w3. split.
    + rewrite Erun. change DataCrew.max_retries with 3. by rewrite R0.
    + exact (extends_trans _ _ _ _ _ _ _ _ X1
               (extends_trans _ _ _ _ _ _ _ _ X2 X3)).
Qed.
End retry.

(** *** The job runner makes one attempt *)

Lemma job_kickoff_raises_events env tid inp cols w tool e files :
  ready tid w → make_tools env = Ok tool →
  kickoff env (csv_files w) = (Raise e, files) →
  ∃ w' evs rec,
    job_ran env tid inp cols w w' evs rec ∧
    kickoffs_of evs = 1 ∧ sleeps_of evs = [].
Proof.
  intros [Hfault [info Hinfo]] Htools Hkick.
  eexists _, _, _. split; [split; [|split]|].
  - eapply (process_file_run_raises env tid inp cols w info);
      [exact Hfault|exact Hinfo|exact Htools
      |apply (run_kickoff_raises env
                (job_crew env inp cols (length (objects w)) tool)
                (length (objects w)) (starting_tracker tid w)
                (started tid w) eq_refl (started_obj tid w)
                Hfault e files); exact Hkick
      |solve_obj|norm; done|norm; done].
  - world_norm. rewrite <- !app_assoc. cbn [app]. reflexivity.
  - unfold polled. world_norm. tracker_norm.
    rewrite lookup_insert_eq. apply json_load_dump.
  - split; reflexivity.
Qed.

Lemma job_ran_unique env tid inp cols w w1 evs1 rec1 w2 evs2 rec2 :
  job_ran env tid inp cols w w1 evs1 rec1 →
  job_ran env tid inp cols w w2 evs2 rec2 →
  w1 = w2 ∧ evs1 = evs2 ∧ rec1 = rec2.
Proof.
  intros (E1 & T1 & P1) (E2 & T2 & P2).
  rewrite E1 in E2. injection E2 as <-.
  rewrite T1 in T2. apply app_inv_head in T2 as <-.
  rewrite P1 in P2. by injection P2 as <-.
Qed.

Lemma job_fails_at_first_error env tid inp cols w tool e files :
  ready tid w → make_tools env = Ok tool →
  kickoff env (csv_files w) = (Raise e, files) →
  ∃ w' evs rec,
    job_ran env tid inp cols w w' evs rec ∧
    kickoffs_of evs = 1 ∧ sleeps_of evs = [] ∧
    rec !! "status" = Some (JStr "failed") ∧
    rec !! "error" = Some (JStr (str e)) ∧
    EvFallback ∉ evs.
Proof.
  intros Hready Htools Hkick.
  destruct (job_kickoff_raises_events env tid inp cols w tool e files
              Hready Htools Hkick) as (w' & evs & rec & Hran & Hk & Hs).
  destruct (process_file_report env tid inp cols w Hready)
    as (w2 & evs2 & rec2 & Hran2 & Hfacts).
  destruct (job_ran_unique _ _ _ _ _ _ _ _ _ _ _ Hran Hran2)
    as (<- & <- & <-).
  unfold scenario_of in Hfacts. rewrite Htools, Hkick in Hfacts.
  destruct Hfacts as (_ & Hst & Herr & Hfb & _).
  exists w', evs, rec. do 5 (split; [done|]).
  intros Hin. apply Hfb in Hin. discriminate.
Qed.

(** C9, as the code has it. The retry with linear backoff is in [run] of
    the crew of [data/]: a turn of its loop whose attempt fails with an
    overload, and that is not the last, waits five seconds times the
    number of the failed attempt and tries again; when the agents raise
    an overload in all three attempts, [run] has started them three
    times, has waited 5 and then 10 seconds, and raises the last error;
    an error that is not an overload is raised after the first attempt.
    The job runner does not use that crew: [process_file] runs the crew
    of [agents/], whose [run] starts the agents once. A job whose
    delegated attempt raises, an overload or not, has started the agents
    once and has not waited; its record says failed with the text of the
    error, and the fallback was not entered. *)
Theorem retry_with_linear_backoff :
  (∀ kickoff _apply_enrichments self w,
     tracker_ok self w →
     (∀ fuel n w0 e w1,
        n < DataCrew.max_retries → S n < DataCrew.max_retries →
        DataCrew.attempt kickoff _apply_enrichments self n w0 =
          (Raise e, w1) →
        overloaded e → tracker_ok self w1 →
        ∃ w2,
          DataCrew.retry_loop kickoff _apply_enrichments (S fuel) self n w0 =
            DataCrew.retry_loop kickoff _apply_enrichments fuel self (S n)
              w2 ∧
          extends self w1 w2 [inject_Z (5 * Z.of_nat (S n))] 0) ∧
     (∀ e0 e1 e2,
        kickoff 0 = Raise e0 → kickoff 1 = Raise e1 →
        kickoff 2 = Raise e2 → overloaded e0 → overloaded e1 →
        ∃ w',
          DataCrew.run kickoff _apply_enrichments self w = (Raise e2, w') ∧
          extends self w w' [5; 10]%Q 3) ∧
     (∀ e0,
        kickoff 0 = Raise e0 → ¬ overloaded e0 →
        ∃ w',
          DataCrew.run kickoff _apply_enrichments self w = (Raise e0, w') ∧
          extends self w w' [] 1)) ∧
  (∀ env tid inp cols w tool e files,
     ready tid w → make_tools env = Ok tool →
     kickoff env (csv_files w) = (Raise e, files) →
     ∃ w' evs rec,
       job_ran env tid inp cols w w' evs rec ∧
       kickoffs_of evs = 1 ∧ sleeps_of evs = [] ∧
       rec !! "status" = Some (JStr "failed") ∧
       rec !! "error" = Some (JStr (str e)) ∧
       EvFallback ∉ evs).
Proof.
  split.
  - intros kickoff _apply_enrichments self w.
    apply (retry_loop_policy kickoff _apply_enrichments self w).
  - apply job_fails_at_first_error.
Qed.

Lemma retry_with_linear_backoff_witness :
  (∃ w',
     DataCrew.run always_overloaded (λ _ _, ret tt) reporting_crew
       tracked_world =
       (Raise (Exception "Error code: 529 - overloaded_error"), w') ∧
     extends reporting_crew tracked_world w' [5; 10]%Q 3) ∧
  (∃ w' evs rec,
     job_ran overloaded_env "job-1" "data/in.csv" ["Category ID"]
       (fresh_world ∅) w' evs rec ∧
     kickoffs_of evs = 1 ∧ sleeps_of evs = [] ∧
     rec !! "status" = Some (JStr "failed")).
Proof.
  destruct retry_with_linear_backoff as [Hcrew Hjob].
  split.
  - assert (tracker_ok reporting_crew tracked_world) as Hok.
    { split; [reflexivity|]. intros l Hl. injection Hl as <-.
      eexists. reflexivity. }
    destruct (Hcrew always_overloaded (λ _ _, ret tt) reporting_crew
                tracked_world Hok) as (_ & Hexhausted & _).
    apply (Hexhausted _ _ _ eq_refl eq_refl eq_refl);
      vm_compute; reflexivity.
  - destruct (Hjob overloaded_env "job-1" "data/in.csv" ["Category ID"]
                (fresh_world ∅) silent_tool
                (Exception "overloaded_error") ∅)
      as (w' & evs & rec & Hran & Hk & Hs & Hst & _).
    { split; [reflexivity|]. eexists. apply lookup_insert_eq. }
    { reflexivity. }
    { reflexivity. }
    exists w', evs, rec. done.
Defined.

(** Read of a job, the retry policy of the specification does not hold:
    with a provider that is overloaded the runner starts the agents
    once, takes no wait, and the job fails. *)
Lemma job_makes_one_attempt : ¬ job_retries_when_overloaded.
Proof.
  intros H.
  assert (ready "job-1" (fresh_world ∅)) as Hready.
  { split; [reflexivity|]. eexists. apply lookup_insert_eq. }
  destruct (job_fails_at_first_error overloaded_env "job-1" "data/in.csv"
              ["Category ID"] (fresh_world ∅) silent_tool
              (Exception "overloaded_error") ∅ Hready eq_refl eq_refl)
    as (w' & evs & rec & Hran & Hk & _).
  destruct (H overloaded_env "job-1" "data/in.csv" ["Category ID"]
              (fresh_world ∅) silent_tool (Exception "overloaded_error") ∅
              w' evs rec Hready eq_refl eq_refl) as [Hlt _];
    [vm_compute; reflexivity|exact Hran|].
  rewrite Hk in Hlt. lia.
Qed.

(** *** What [run] of the crew in [data/] can return *)

Lemma bind_post {S A B} (P : B → Prop) (m : M S A) (k : A → M S B) s :
  (∀ a s', match (k a s').1 with Ok b => P b | Raise _ => True end) →
  match (bind m k s).1 with Ok b => P b | Raise _ => True end.
Proof.
  intros H. unfold bind. destruct (m s) as [[a|e] s']; [apply H|done].
Qed.

Section any_crew.
Context (kickoff : nat → outcome string)
        (_apply_enrichments :
           DataCrew.CSVEnrichmentCrew → string → M World unit)
        (self : DataCrew.CSVEnrichmentCrew).

Lemma attempt_result n w :
  match (DataCrew.attempt kickoff _apply_enrichments self n w).1 with
  | Ok p => p = DataCrew.output_csv_path self
  | Raise _ => True
  end.
Proof.
  unfold DataCrew.attempt.
  apply bind_post. intros _ w1. apply bind_post. intros raw w2.
  apply bind_post. intros _ w3. apply bind_post. intros _ w4.
  apply bind_post. intros _ w5. done.
Qed.

Lemma retry_loop_result fuel : ∀ n w,
  n < DataCrew.max_retries → DataCrew.max_retries - n ≤ fuel →
  match (DataCrew.retry_loop kickoff _apply_enrichments fuel self n w).1
  with
  | Ok r => r = Some (DataCrew.output_csv_path self)
  | Raise _ => True
  end.
Proof.
  induction fuel as [|fuel IH]; intros n w Hn Hf; [lia|].
  cbn [DataCrew.retry_loop].
  replace (n <? DataCrew.max_retries) with true
    by (symmetry; by apply Nat.ltb_lt).
  cbn [negb]. unfold try_except.
  pose proof (attempt_result n w) as Hatt.
  unfold bind at 1.
  destruct (DataCrew.attempt kickoff _apply_enrichments self n w)
    as [[p|e] w1]; cbn [fst] in Hatt.
  { subst p. done. }
  destruct (contains "overloaded_error" (str e)
            && (S n <? DataCrew.max_retries)) eqn:Hc.
  - apply andb_prop in Hc as [_ HSn]. apply Nat.ltb_lt in HSn.
    apply bind_post. intros _ w2. apply bind_post. intros _ w3.
    apply IH; lia.
  - apply bind_post. intros _ w2. done.
Qed.

Lemma run_result w :
  match (DataCrew.run kickoff _apply_enrichments self w).1 with
  | Ok r => r = Some (DataCrew.output_csv_path self)
  | Raise _ => True
  end.
Proof.
  unfold DataCrew.run.
  apply bind_post. intros _ w1. apply bind_post. intros _ w2.
  apply bind_post. intros _ w3.
  apply retry_loop_result; unfold DataCrew.max_retries; lia.
Qed.

(** X17. Whatever the agents and [_apply_enrichments] do, and also
    without a tracker or with one whose writes fail, [run] ends in one
    of two ways: it returns its output path, or it raises. The loop
    never runs out on its condition, so [run] never returns [None]. *)
Theorem run_returns_path_or_raises w :
  ∃ w',
    DataCrew.run kickoff _apply_enrichments self w =
      (Ok (Some (DataCrew.output_csv_path self)), w') ∨
    ∃ e, DataCrew.run kickoff _apply_enrichments self w = (Raise e, w').
Proof.
  pose proof (run_result w) as H.
  destruct (DataCrew.run kickoff _apply_enrichments self w)
    as [[r|e] w'] eqn:E; cbn [fst] in H; exists w'.
  - left. by subst r.
  - right. by exists e.
Qed.

(** A turn of the loop whose attempt returns. *)
Lemma returning_turn fuel n w p w1 :
  n < DataCrew.max_retries →
  DataCrew.attempt kickoff _apply_enrichments self n w = (Ok p, w1) →
  DataCrew.retry_loop kickoff _apply_enrichments (S fuel) self n w =
    (Ok (Some p), w1).
Proof.
  intros Hn Hatt. cbn [DataCrew.retry_loop].
  replace (n <? DataCrew.max_retries) with true
    by (symmetry; by apply Nat.ltb_lt).
  cbn [negb]. apply try_except_ok. by erewrite bind_ok.
Qed.
End any_crew.

(** *** [run] with the [_apply_enrichments] of the class *)

Lemma csv_files_progress_noted self p m w :
  csv_files (progress_noted self p m w) = csv_files w.
Proof.
  unfold progress_noted.
  destruct (DataCrew.progress_tracker self) as [l|]; [|done].
  by destruct (objects w !! l).
Qed.

Lemma update_progress_files self p m w :
  tracker_ok self w →
  ∃ w1, DataCrew._update_progress self p m w = (Ok tt, w1) ∧
        extends self w w1 [] 0 ∧ csv_files w1 = csv_files w.
Proof.
  intros Hok. destruct (update_progress_ok self p m w Hok) as [E X].
  eexists. split; [exact E|]. split; [exact X|].
  apply csv_files_progress_noted.
Qed.

Lemma apply_enrichments_ok self raw w d :
  csv_files w !! DataCrew.input_csv_path self = Some d →
  DataCrew._apply_enrichments self raw w =
    (Ok tt,
     set_csv_files
       (<[DataCrew.output_csv_path self := (DataCrew.applied d raw).1]>) w).
Proof.
  intros H. unfold DataCrew._apply_enrichments, AgentsCrew.read_csv,
    AgentsCrew.to_csv, bind, get, modify.
  by rewrite H.
Qed.

Lemma apply_enrichments_no_input self raw w :
  csv_files w !! DataCrew.input_csv_path self = None →
  DataCrew._apply_enrichments self raw w =
    (Raise (FileNotFoundError (DataCrew.input_csv_path self)), w).
Proof.
  intros H. unfold DataCrew._apply_enrichments, AgentsCrew.read_csv,
    bind, get.
  by rewrite H.
Qed.

Lemma set_csv_files_extends self f w :
  tracker_ok self w → extends self w (set_csv_files f w) [] 0.
Proof. intros H. split; [exact H|]. exists []. by rewrite app_nil_r. Qed.

Section own_apply.
Context (kickoff : nat → outcome string)
        (self : DataCrew.CSVEnrichmentCrew).

(** An attempt in which the agents answer and the input is there. *)
Lemma attempt_applies n w raw d :
  tracker_ok self w → kickoff n = Ok raw →
  csv_files w !! DataCrew.input_csv_path self = Some d →
  ∃ w1,
    DataCrew.attempt kickoff DataCrew._apply_enrichments self n w =
      (Ok (DataCrew.output_csv_path self), w1) ∧
    csv_files w1 =
      <[DataCrew.output_csv_path self := (DataCrew.applied d raw).1]>
        (csv_files w) ∧
    extends self w w1 [] 1.
Proof.
  intros Hok Hk Hin. unfold DataCrew.attempt.
  destruct (update_progress_files self (7 # 10)
              "Running CrewAI agents to process data..." w Hok)
    as (w1 & E1 & X1 & F1).
  pose proof (log_kickoff_extends self w1 (proj1 X1)) as X2.
  destruct (update_progress_files self (9 # 10)
              "Applying enrichments to the CSV file..." _ (proj1 X2))
    as (w3 & E3 & X3 & F3).
  assert (csv_files w3 !! DataCrew.input_csv_path self = Some d) as Hin3.
  { rewrite F3. cbn [csv_files log]. by rewrite F1. }
  pose proof (set_csv_files_extends self
    (<[DataCrew.output_csv_path self := (DataCrew.applied d raw).1]>)
    w3 (proj1 X3)) as X4.
  destruct (update_progress_files self 1
              "CSV enrichment completed successfully" _ (proj1 X4))
    as (w5 & E5 & X5 & F5).
  exists w5. split; [|split].
  - erewrite bind_ok; [|exact E1].
    erewrite bind_ok;
      [|unfold DataCrew.crew_kickoff, bind, modify; by rewrite Hk].
    erewrite bind_ok; [|exact E3].
    erewrite bind_ok; [|by apply apply_enrichments_ok].
    erewrite bind_ok; [|exact E5]. reflexivity.
  - rewrite F5. cbn [csv_files set_csv_files]. rewrite F3.
    cbn [csv_files log]. by rewrite F1.
  - exact (extends_trans _ _ _ _ _ _ _ _ X1
             (extends_trans _ _ _ _ _ _ _ _ X2
             (extends_trans _ _ _ _ _ _ _ _ X3
             (extends_trans _ _ _ _ _ _ _ _ X4 X5)))).
Qed.

(** An attempt in which the agents answer and the input is missing. *)
Lemma attempt_no_input n w raw :
  tracker_ok self w → kickoff n = Ok raw →
  csv_files w !! DataCrew.input_csv_path self = None →
  ∃ w1,
    DataCrew.attempt kickoff DataCrew._apply_enrichments self n w =
      (Raise (FileNotFoundError (DataCrew.input_csv_path self)), w1) ∧
    csv_files w1 = csv_files w ∧
    extends self w w1 [] 1.
Proof.
  intros Hok Hk Hin. unfold DataCrew.attempt.
  destruct (update_progress_files self (7 # 10)
              "Running CrewAI agents to process data..." w Hok)
    as (w1 & E1 & X1 & F1).
  pose proof (log_kickoff_extends self w1 (proj1 X1)) as X2.
  destruct (update_progress_files self (9 # 10)
              "Applying enrichments to the CSV file..." _ (proj1 X2))
    as (w3 & E3 & X3 & F3).
  assert (csv_files w3 = csv_files w) as F.
  { rewrite F3. cbn [csv_files log]. exact F1. }
  exists w3. split; [|split].
  - erewrite bind_ok; [|exact E1].
    erewrite bind_ok;
      [|unfold DataCrew.crew_kickoff, bind, modify; by rewrite Hk].
    erewrite bind_ok; [|exact E3].
    erewrite bind_raise; [reflexivity|].
    apply apply_enrichments_no_input. by rewrite F.
  - exact F.
  - exact (extends_trans _ _ _ _ _ _ _ _ X1
             (extends_trans _ _ _ _ _ _ _ _ X2 X3)).
Qed.

(** An attempt in which the agents raise leaves the files alone. *)
Lemma attempt_raises_files n w e :
  tracker_ok self w → kickoff n = Raise e →
  ∃ w1,
    DataCrew.attempt kickoff DataCrew._apply_enrichments self n w =
      (Raise e, w1) ∧
    csv_files w1 = csv_files w ∧
    extends self w w1 [] 1.
Proof.
  intros Hok Hk. unfold DataCrew.attempt.
  destruct (update_progress_files self (7 # 10)
              "Running CrewAI agents to process data..." w Hok)
    as (w1 & E1 & X1 & F1).
  pose proof (log_kickoff_extends self w1 (proj1 X1)) as X2.
  exists (log EvKickoff w1). split; [|split].
  - erewrite bind_ok; [|exact E1].
    erewrite bind_raise; [reflexivity|].
    unfold DataCrew.crew_kickoff, bind, modify. by rewrite Hk.
  - exact F1.
  - exact (extends_trans _ _ _ _ _ _ _ _ X1 X2).
Qed.

(** Every attempt starts the agents once and takes no sleep. *)
Lemma attempt_any n w :
  tracker_ok self w →
  ∃ r w1,
    DataCrew.attempt kickoff DataCrew._apply_enrichments self n w =
      (r, w1) ∧
    extends self w w1 [] 1.
Proof.
  intros Hok. destruct (kickoff n) as [raw|e] eqn:Hk.
  - destruct (csv_files w !! DataCrew.input_csv_path self) as [d|] eqn:Hin.
    + destruct (attempt_applies n w raw d Hok Hk Hin) as (w1 & E & _ & X).
      eauto.
    + destruct (attempt_no_input n w raw Hok Hk Hin) as (w1 & E & _ & X).
      eauto.
  - destruct (attempt_raises_files n w e Hok Hk) as (w1 & E & _ & X).
    eauto.
Qed.


Lemma last_turn_files fuel n w e w1 :
  n < DataCrew.max_retries →
  DataCrew.attempt kickoff DataCrew._apply_enrichments self n w =
    (Raise e, w1) →
  ¬ (overloaded e ∧ S n < DataCrew.max_retries) →
  tracker_ok self w1 →
  ∃ w2,
    DataCrew.retry_loop kickoff DataCrew._apply_enrichments
      (S fuel) self n w = (Raise e, w2) ∧
    csv_files w2 = csv_files w1 ∧
    extends self w1 w2 [] 0.
Proof.
  intros Hn Hatt Hnot Hok. cbn [DataCrew.retry_loop].
  replace (n <? DataCrew.max_retries) with true
    by (symmetry; by apply Nat.ltb_lt).
  cbn [negb]. erewrite try_except_raise; [|by erewrite bind_raise].
  replace (contains "overloaded_error" (str e)
           && (S n <? DataCrew.max_retries)) with false.
  2:{ symmetry. apply andb_false_iff.
      destruct (contains "overloaded_error" (str e)) eqn:Hc; [|by left].
      right. apply Nat.ltb_ge. unfold overloaded in Hnot.
      destruct (decide (S n < DataCrew.max_retries)); [|lia]. tauto. }
  destruct (DataCrew.max_retries <=? S n).
  - match goal with
    | |- context [DataCrew._update_progress self ?p ?m] =>
        destruct (update_progress_files self p m w1 Hok)
          as (w2 & E1 & X1 & F1)
    end.
    exists w2. split; [by erewrite bind_ok|done].
  - match goal with
    | |- context [DataCrew._update_progress self ?p ?m] =>
        destruct (update_progress_files self p m w1 Hok)
          as (w2 & E1 & X1 & F1)
    end.
    exists w2. split; [by erewrite bind_ok|done].
Qed.

Lemma run_prologue_files w :
  tracker_ok self w →
  ∃ w1,
    DataCrew.run kickoff DataCrew._apply_enrichments self w =
      DataCrew.retry_loop kickoff DataCrew._apply_enrichments
        DataCrew.max_retries self 0 w1 ∧
    csv_files w1 = csv_files w ∧
    extends self w w1 [] 0.
Proof.
  intros Hok. unfold DataCrew.run.
  destruct (update_progress_files self (1 # 10)
              "Analyzing input CSV file..." w Hok) as (w1 & E1 & X1 & F1).
  destruct (update_progress_files self (3 # 10)
              "Enriching data with missing categories..." _ (proj1 X1))
    as (w2 & E2 & X2 & F2).
  destruct (update_progress_files self (6 # 10)
              "Verifying data quality..." _ (proj1 X2))
    as (w3 & E3 & X3 & F3).
  exists w3. split; [|split].
  - erewrite bind_ok; [|exact E1]. erewrite bind_ok; [|exact E2].
    erewrite bind_ok; [|exact E3]. reflexivity.
  - congruence.
  - apply (extends_trans _ _ _ _ [] [] 0 0 X1).
    apply (extends_trans _ _ _ _ [] [] 0 0 X2 X3).
Qed.



(** X20. When the agents answer and the input file is missing, the
    error of [pd.read_csv] is handled like an error of the agents: it
    is not an overload, so [run] raises it after one attempt, without
    a sleep, and no file is written. *)
Theorem run_without_input w raw :
  tracker_ok self w → kickoff 0 = Ok raw →
  csv_files w !! DataCrew.input_csv_path self = None →
  ¬ overloaded (FileNotFoundError (DataCrew.input_csv_path self)) →
  ∃ w',
    DataCrew.run kickoff DataCrew._apply_enrichments self w =
      (Raise (FileNotFoundError (DataCrew.input_csv_path self)), w') ∧
    csv_files w' = csv_files w ∧
    extends self w w' [] 1.
Proof.
  intros Hok Hk Hin Hnot.
  destruct (run_prologue_files w Hok) as (w1 & Erun & F1 & X1).
  destruct (attempt_no_input 0 w1 raw (proj1 X1) Hk) as (w2 & A & F2 & X2);
    [by rewrite F1|].
  destruct (last_turn_files 2 0 w1
              (FileNotFoundError (DataCrew.input_csv_path self)) w2)
    as (w3 & R & F3 & X3);
    [unfold DataCrew.max_retries; lia|exact A|tauto|apply X2|].
  exists w3. split; [|split].
  - rewrite Erun. change DataCrew.max_retries with 3. exact R.
  - by rewrite F3, F2, F1.
  - exact (extends_trans _ _ _ _ _ _ _ _ X1
             (extends_trans _ _ _ _ _ _ _ _ X2 X3)).
Qed.

(** The loop from attempt [n] on: one more start of the agents than
    sleeps, and the sleeps are the first of those that are left. *)
Lemma retry_loop_bounded fuel : ∀ n w,
  n < DataCrew.max_retries → DataCrew.max_retries - n ≤ fuel →
  tracker_ok self w →
  ∃ r w' ss,
    DataCrew.retry_loop kickoff DataCrew._apply_enrichments
      fuel self n w = (r, w') ∧
    extends self w w' ss (S (length ss)) ∧
    ss `prefix_of`
      map (λ n, inject_Z (5 * Z.of_nat n))
        (seq (S n) (DataCrew.max_retries - S n)).
Proof.
  induction fuel as [|fuel IH]; intros n w Hn Hf Hok; [lia|].
  destruct (attempt_any n w Hok) as ([p|e] & w1 & A & X1).
  { exists (Ok (Some p)), w1, []. split; [|split].
    - by apply returning_turn.
    - exact X1.
    - apply prefix_nil. }
  destruct (decide (overloaded e ∧ S n < DataCrew.max_retries))
    as [[Hov HSn]|Hnot].
  - destruct (retry_turn kickoff DataCrew._apply_enrichments self
                fuel n w e w1 Hn HSn A Hov (proj1 X1)) as (w2 & R & X2).
    destruct (IH (S n) w2 HSn ltac:(lia) (proj1 X2))
      as (r & w' & ss & E & X3 & Hpre).
    exists r, w', (inject_Z (5 * Z.of_nat (S n)) :: ss).
    split; [by rewrite R|]. split.
    + exact (extends_trans _ _ _ _ _ _ _ _ X1
               (extends_trans _ _ _ _ _ _ _ _ X2 X3)).
    + replace (DataCrew.max_retries - S n)
        with (S (DataCrew.max_retries - S (S n))) by lia.
      cbn [seq map]. by apply prefix_cons.
  - destruct (last_turn kickoff DataCrew._apply_enrichments self
                fuel n w e w1 Hn A Hnot (proj1 X1)) as (w2 & R & X2).
    exists (Raise e), w2, []. split; [exact R|]. split.
    + exact (extends_trans _ _ _ _ _ _ _ _ X1 X2).
    + apply prefix_nil.
Qed.

(** X21. Whatever the agents answer or raise, and whether the input
    file is there or not, [run] ends; by then the agents were started
    once more than sleeps were taken, and the sleeps are the first of
    the waits of 5 and 10 seconds, in that order: at most three
    starts. *)
Theorem run_attempts_bounded w :
  tracker_ok self w →
  ∃ r w' ss,
    DataCrew.run kickoff DataCrew._apply_enrichments self w = (r, w') ∧
    extends self w w' ss (S (length ss)) ∧
    ss `prefix_of` [5; 10]%Q.
Proof.
  intros Hok.
  destruct (run_prologue_files w Hok) as (w1 & Erun & _ & X1).
  destruct (retry_loop_bounded DataCrew.max_retries 0 w1)
    as (r & w' & ss & E & X2 & Hpre);
    [unfold DataCrew.max_retries; lia..|apply X1|].
  exists r, w', ss. split; [by rewrite Erun|]. split.
  - exact (extends_trans _ _ _ _ _ _ _ _ X1 X2).
  - exact Hpre.
Qed.
End own_apply.

Lemma reporting_crew_tracked files :
  tracker_ok reporting_crew (set_csv_files files tracked_world).
Proof.
  split; [reflexivity|]. intros l Hl. injection Hl as <-.
  eexists. reflexivity.
Qed.



Lemma run_without_input_witness :
  ∃ w',
    DataCrew.run (λ _, Ok two_columns_answer) DataCrew._apply_enrichments
      reporting_crew tracked_world =
      (Raise (FileNotFoundError (DataCrew.input_csv_path reporting_crew)),
       w') ∧
    csv_files w' = csv_files tracked_world ∧
    extends reporting_crew tracked_world w' [] 1.
Proof.
  apply (run_without_input (λ _, Ok two_columns_answer) reporting_crew
           tracked_world two_columns_answer).
  - apply (reporting_crew_tracked id).
  - reflexivity.
  - apply lookup_empty.
  - intros H. vm_compute in H. discriminate H.
Defined.

Lemma run_attempts_bounded_witness :
  ∃ r w' ss,
    DataCrew.run always_overloaded DataCrew._apply_enrichments
      reporting_crew tracked_world = (r, w') ∧
    extends reporting_crew tracked_world w' ss (S (length ss)) ∧
    ss `prefix_of` [5; 10]%Q.
Proof.
  apply (run_attempts_bounded always_overloaded reporting_crew tracked_world).
  apply (reporting_crew_tracked id).
Defined.

